(** * socket_chat: the in-memory room-state engine of [stserver.js]

    A shallow embedding of the socket.io connection handler that owns the
    chat rooms ([rooms]) and the music rooms ([musicRooms]) of
    [stserver.js], together with the properties of the room engine.  The
    HTTP routes, and the earlier token-based server kept in the same
    file, which holds no room state of its own, are left out.

    Conventions of the embedding.
    - The two [Map]s are finite maps keyed by strings; a JS [Map] also
      remembers the insertion order of its keys, which the room-list
      handlers enumerate, so each store carries the list of its keys in
      insertion order next to the lookup table.
    - [room.users] is a [Set] of socket ids: a [gset string].
    - The closure variables [currentUser], [currentRoom] and
      [currentMusicRoom] of a connection are a record [Conn], kept per
      socket id for as long as the connection lives.
    - [Date.now()] and the suffix [Math.random().toString(36).substr(2, 9)]
      are supplied by the environment with every event ([Env]); the clock
      is read once per handler run.  [new Date().toISOString()] is kept as
      the instant it renders.
    - What a handler sends is a list of commands to socket.io, in program
      order: [socket.emit], [socket.to(room).emit], [io.to(room).emit],
      [socket.broadcast.emit], [socket.join], [socket.leave], and
      [fs.unlink].  [console.log] is not modelled.
    - [maxUsers] is stored as the client sent it and compared with
      [users.size] as a JS number: it is a rational ([Q]), as every
      finite double is; the order and the test for zero are those of the
      value, whatever fraction denotes it.  The timestamp a client may
      attach to a music chat line is only stored and echoed, and is kept
      as an integer.
    - Which sockets are in which socket.io room is not part of the
      server's own state; it is followed next to it ([Channels]) from
      the [socket.join] and [socket.leave] commands of the handlers, for
      the one property that speaks of who receives a broadcast.
    - Strings are sequences of bytes.  [toLowerCase] and the blank class
      [\s] are those of the ASCII range; on a name with other characters
      a music room id may differ from the one the server makes, and what
      is proved of the shape of an id is stated for ASCII names. *)

From Stdlib Require Import ZArith QArith Lqa List Lia Ascii String.
From stdpp Require Import base gmap strings list fin_maps fin_sets pretty.

Local Open Scope Z_scope.

(** ** JavaScript truthiness of the values the handlers test *)

(** A string is truthy unless it is empty. *)
Definition truthy_str (s : string) : bool := negb (bool_decide (s = "")).

(** [undefined]/[null] ([None]) and the empty string are falsy. *)
Definition truthy_ostr (o : option string) : bool :=
  match o with Some s => truthy_str s | None => false end.

(** A number is truthy unless it is zero. *)
Definition truthy_num (z : Z) : bool := negb (z =? 0)%Z.

Definition truthy_onum (o : option Z) : bool :=
  match o with Some z => truthy_num z | None => false end.

(** [x || null] on an optional string. *)
Definition or_null_str (o : option string) : option string :=
  if truthy_ostr o then o else None.

(** The same for a number that may have a fraction. *)
Definition truthy_Q (q : Q) : bool := negb (Qeq_bool q 0).

Definition truthy_oQ (o : option Q) : bool :=
  match o with Some q => truthy_Q q | None => false end.

Definition or_null_num (o : option Q) : option Q :=
  if truthy_oQ o then o else None.

(** [users.size], as the number it is compared with. *)
Definition users_count (users : gset string) : Q := inject_Z (Z.of_nat (size users)).

(** ** String helpers of the music handlers *)

Definition lower_ascii (a : ascii) : ascii :=
  let n := nat_of_ascii a in
  if ((65 <=? n) && (n <=? 90))%nat then ascii_of_nat (n + 32) else a.

(** [s.toLowerCase()] *)
Fixpoint toLowerCase (s : string) : string :=
  match s with
  | EmptyString => EmptyString
  | String a s' => String (lower_ascii a) (toLowerCase s')
  end.

Definition is_space (a : ascii) : bool :=
  let n := nat_of_ascii a in
  ((9 <=? n) && (n <=? 13) || (n =? 32))%nat.

(** [s.replace(/\s+/g, '-')]: every maximal run of blanks becomes one dash. *)
Fixpoint dash_blanks (in_run : bool) (s : string) : string :=
  match s with
  | EmptyString => EmptyString
  | String a s' =>
      if is_space a
      then (if in_run then dash_blanks true s' else String "-" (dash_blanks true s'))
      else String a (dash_blanks false s')
  end.

Fixpoint ext_chars (s : string) : bool :=
  match s with
  | EmptyString => true
  | String a s' =>
      negb (bool_decide (a = "/"%char)) && negb (bool_decide (a = "."%char)) && ext_chars s'
  end.

(** [s.replace(/\.[^/.]+$/, "")]: drop a final extension. *)
Fixpoint strip_ext (s : string) : string :=
  match s with
  | EmptyString => EmptyString
  | String a s' =>
      if bool_decide (a = "."%char) && negb (bool_decide (s' = "")) && ext_chars s'
      then EmptyString
      else String a (strip_ext s')
  end.

(** ** Data model *)

(** The descriptor the upload route returns and clients attach to a chat
    message or hand to ['music uploaded']. *)
Module FileData.
Record t := mk {
  filename : string;
  originalname : string;
  size : Z;
  url : string
}.
End FileData.

Module ChatMessage.
Record t := mk {
  id : string;
  username : string;
  message : option string;
  fileData : option FileData.t;
  timestamp : Z;
  isPrevious : bool
}.
(** [{...message, isPrevious: true}] *)
Definition replay (m : t) : t :=
  mk (id m) (username m) (message m) (fileData m) (timestamp m) true.
End ChatMessage.

Module ChatRoom.
Record t := mk {
  name : string;
  users : gset string;
  messages : list ChatMessage.t;
  maxUsers : option Q;
  password : option string;
  creator : string;
  createdAt : Z
}.
Definition with_users (r : t) (u : gset string) : t :=
  mk (name r) u (messages r) (maxUsers r) (password r) (creator r) (createdAt r).
Definition with_messages (r : t) (ms : list ChatMessage.t) : t :=
  mk (name r) (users r) ms (maxUsers r) (password r) (creator r) (createdAt r).
End ChatRoom.

Module Track.
Record t := mk {
  id : string;
  title : string;
  filename : string;
  originalname : string;
  url : string;
  uploader : string;
  uploadTime : Z;
  duration : string;
  votes : Z;
  voters : gset string
}.
End Track.

(** The three shapes pushed on a music room's [messages]: a chat line, a
    voice message and the system line announcing an upload; a field an
    object does not have is [None]. *)
Module MusicMessage.
Record t := mk {
  id : string;
  type : option string;
  roomId : option string;
  user : string;
  message : option string;
  audioUrl : option (option string);
  timestamp : Z;
  time : Z;
  isPrevious : option bool
}.
(** [{...message, isPrevious: true}] *)
Definition replay (m : t) : t :=
  mk (id m) (type m) (roomId m) (user m) (message m) (audioUrl m)
     (timestamp m) (time m) (Some true).
End MusicMessage.

Module MusicRoom.
Record t := mk {
  id : string;
  name : string;
  description : string;
  users : gset string;
  maxUsers : Q;
  creator : string;
  genres : list string;
  playlist : list Track.t;
  currentTrack : option Track.t;
  currentTrackIndex : Z;
  isPlaying : bool;
  playStartTime : option Z;
  messages : list MusicMessage.t;
  votes : gmap string Z;
  createdAt : Z
}.
Definition with_users (r : t) (u : gset string) : t :=
  mk (id r) (name r) (description r) u (maxUsers r) (creator r) (genres r)
     (playlist r) (currentTrack r) (currentTrackIndex r) (isPlaying r)
     (playStartTime r) (messages r) (votes r) (createdAt r).
Definition with_messages (r : t) (ms : list MusicMessage.t) : t :=
  mk (id r) (name r) (description r) (users r) (maxUsers r) (creator r) (genres r)
     (playlist r) (currentTrack r) (currentTrackIndex r) (isPlaying r)
     (playStartTime r) ms (votes r) (createdAt r).
Definition with_playlist (r : t) (pl : list Track.t) : t :=
  mk (id r) (name r) (description r) (users r) (maxUsers r) (creator r) (genres r)
     pl (currentTrack r) (currentTrackIndex r) (isPlaying r)
     (playStartTime r) (messages r) (votes r) (createdAt r).
Definition with_transport (r : t) (ct : option Track.t) (p : bool) (start : option Z) : t :=
  mk (id r) (name r) (description r) (users r) (maxUsers r) (creator r) (genres r)
     (playlist r) ct (currentTrackIndex r) p start (messages r) (votes r) (createdAt r).
End MusicRoom.

(** The closure variables of one connection. *)
Record Conn := mkConn {
  currentUser : string;
  currentRoom : string;
  currentMusicRoom : string
}.

Record Server := mkServer {
  rooms : gmap string ChatRoom.t;
  roomOrder : list string;
  musicRooms : gmap string MusicRoom.t;
  musicRoomOrder : list string;
  conns : gmap string Conn
}.

Definition set_rooms (st : Server) (rs : gmap string ChatRoom.t) : Server :=
  mkServer rs (roomOrder st) (musicRooms st) (musicRoomOrder st) (conns st).

Definition set_musicRooms (st : Server) (ms : gmap string MusicRoom.t) : Server :=
  mkServer (rooms st) (roomOrder st) ms (musicRoomOrder st) (conns st).

Definition set_conn (st : Server) (sid : string) (c : Conn) : Server :=
  mkServer (rooms st) (roomOrder st) (musicRooms st) (musicRoomOrder st)
           (<[sid := c]> (conns st)).

(** The server right after start-up: both maps empty, nobody connected. *)
Definition init : Server := mkServer ∅ [] ∅ [] ∅.

(** What the environment supplies to one handler run. *)
Record Env := mkEnv {
  now : Z;
  rnd : string
}.

(** [Date.now() + '_' + Math.random().toString(36).substr(2, 9)] *)
Definition fresh_id (env : Env) : string := pretty (now env) +:+ "_" +:+ rnd env.

(** ** Events sent to clients *)

(** The payload of ['room join error'].  The handler sends one of four
    fixed texts; they are named here by what they report:
    "이미 존재하는 방 이름입니다." (name taken), "존재하지 않는 방입니다."
    (no such room), "비밀번호가 틀렸습니다." (wrong password) and
    "방이 가득 찼습니다. (m/m)" (room full, with [room.maxUsers]). *)
Inductive JoinError :=
| RoomAlreadyExists
| RoomNotFound
| WrongPassword
| RoomFull (maxUsers : Q).

(** The payload of ['delete error']: "권한이 없습니다." (not allowed),
    "메시지를 찾을 수 없습니다." (no such message) and
    "본인이 작성한 메시지만 삭제할 수 있습니다." (not the author). *)
Inductive DeleteErr :=
| NotAuthorized
| MessageNotFound
| NotAuthor.

Module RoomSummary.
Record t := mk {
  name : string;
  userCount : nat;
  maxUsers : option Q;
  hasPassword : bool;
  creator : string;
  lastMessage : option string;
  lastMessageTime : Z
}.
End RoomSummary.

Module MusicRoomSummary.
Record t := mk {
  id : string;
  name : string;
  description : string;
  participants : nat;
  musicCount : nat;
  maxUsers : Q;
  status : string;
  creator : string;
  genres : list string;
  currentTrack : option Track.t;
  isPlaying : bool;
  createdAt : Z
}.
End MusicRoomSummary.

(** One constructor per event name.  ['music room created'] also carries
    the constants [participants: 0], [musicCount: 0] and
    [status: 'active'].  ['music room join error'] has its own three
    texts ("이미 존재하는 음악룸 이름입니다.", "존재하지 않는 음악룸입니다."
    and "음악룸이 가득 찼습니다. (m/m)"), named like those of the chat
    rooms. *)
Inductive Payload :=
| TestMessage (text : string)
| RoomList (l : list RoomSummary.t)
| RoomCreated (roomName : string) (maxUsers : option Q) (hasPassword : bool)
| RoomJoinError (e : JoinError)
| RoomJoinSuccess (roomName : string) (userCount : nat) (maxUsers : option Q)
| UserLeftRoom (username : string) (userCount : nat)
| UserJoinedRoom (username : string) (userCount : nat)
| RoomUserCount (count : nat) (maxUsers : option Q)
| ChatMessageEv (m : ChatMessage.t)
| DeleteError (e : DeleteErr)
| MessageDeleted (messageId : string)
| DeleteSuccess (messageId : string)
| MusicRoomList (l : list MusicRoomSummary.t)
| MusicRoomCreated (id name description : string) (maxUsers : Q)
                   (creator : string) (genres : list string) (createdAt : Z)
| MusicRoomListUpdate
| MusicRoomJoinError (e : JoinError)
| MusicRoomJoinSuccess (roomId roomName : string) (userCount : nat) (maxUsers : Q)
                       (currentTrack : option Track.t) (isPlaying : bool)
                       (playlist : list Track.t)
| MusicRoomUserLeft (username : string) (userCount : nat)
| MusicRoomUserJoined (username : string) (userCount : nat)
| MusicChatMessageEv (m : MusicMessage.t)
| PlaylistUpdate (playlist : list Track.t) (currentTrack : option Track.t)
                 (isPlaying : bool)
| TrackChanged (currentTrack : Track.t) (isPlaying : bool) (playStartTime : option Z)
| PlaybackToggled (isPlaying : bool) (playStartTime : option Z).

(** One command to socket.io (or to the file system), issued by the
    handler running for socket [sid]. *)
Inductive Output :=
| Emit (sid : string) (p : Payload)                  (* socket.emit *)
| ToOthers (sid : string) (room : string) (p : Payload)  (* socket.to(room).emit *)
| ToRoom (room : string) (p : Payload)               (* io.to(room).emit *)
| Broadcast (sid : string) (p : Payload)             (* socket.broadcast.emit *)
| SockJoin (sid : string) (room : string)            (* socket.join(room) *)
| SockLeave (sid : string) (room : string)           (* socket.leave(room) *)
| Unlink (filename : string).                        (* fs.unlink(uploads/filename) *)

(** ** Events received from clients *)

Inductive Request :=
| UserJoin (username : string)
| GetRoomList
| CreateRoom (roomName : string) (maxUsers : option Q) (password : option string)
| JoinRoom (roomName : string) (password : option string)
| LeaveRoom (roomName : string)
| ChatMessageReq (roomName : string) (message : option string)
                 (fileData : option FileData.t)
| DeleteMessage (roomName messageId : string)
| GetMusicRoomList
| CreateMusicRoom (roomName : string) (description : option string)
                  (maxUsers : option Q) (genres : option (list string))
| JoinMusicRoom (roomId : string)
| LeaveMusicRoom (roomId : string)
| MusicChatMessageReq (roomId : string) (message : option string)
                      (user : option string) (timestamp : option Z)
| MusicVoiceMessage (roomId : string) (user : option string)
                    (timestamp : option Z) (audioUrl : option string)
| MusicUploaded (roomId : string) (musicData : FileData.t)
| PlayTrack (roomId trackId : string)
| TogglePlayback (roomId : string)
| Disconnect.

Inductive Event :=
| Connect (sid : string)
| Req (sid : string) (env : Env) (r : Request).

(** ** The chat room handlers *)

(** ['user join'] *)
Definition user_join (st : Server) (sid : string) (c : Conn) (username : string)
  : Server * list Output :=
  (set_conn st sid (mkConn username (currentRoom c) (currentMusicRoom c)),
   [Emit sid (TestMessage "Server connection successful!")]).

(** [Array.from(m.values())] for a map with its keys in insertion order. *)
Definition map_values {V} (m : gmap string V) (order : list string) : list V :=
  omap (λ k, m !! k) order.

Definition room_summary (room : ChatRoom.t) : RoomSummary.t :=
  RoomSummary.mk
    (ChatRoom.name room)
    (size (ChatRoom.users room))
    (ChatRoom.maxUsers room)
    (truthy_ostr (ChatRoom.password room))
    (ChatRoom.creator room)
    (match last (ChatRoom.messages room) with
     | Some m => ChatMessage.message m
     | None => None
     end)
    (match last (ChatRoom.messages room) with
     | Some m => ChatMessage.timestamp m
     | None => ChatRoom.createdAt room
     end).

(** ['get room list'] *)
Definition get_room_list (st : Server) (sid : string) : Server * list Output :=
  (st, [Emit sid (RoomList (room_summary <$> map_values (rooms st) (roomOrder st)))]).

(** ['create room'] *)
Definition create_room (st : Server) (sid : string) (c : Conn) (env : Env)
    (roomName : string) (maxUsers : option Q) (password : option string)
  : Server * list Output :=
  match rooms st !! roomName with
  | None =>
      let room := ChatRoom.mk roomName ∅ [] (or_null_num maxUsers)
                              (or_null_str password) (currentUser c) (now env) in
      (mkServer (<[roomName := room]> (rooms st)) (roomOrder st ++ [roomName])
                (musicRooms st) (musicRoomOrder st) (conns st),
       [Emit sid (RoomCreated roomName maxUsers (truthy_ostr password))])
  | Some _ => (st, [Emit sid (RoomJoinError RoomAlreadyExists)])
  end.

(** The first guard of ['join room'] after the lookup:
    [room.password && room.creator !== currentUser], then
    [!password || password !== room.password]. *)
Definition password_refused (room : ChatRoom.t) (c : Conn) (password : option string)
  : bool :=
  truthy_ostr (ChatRoom.password room)
  && bool_decide (ChatRoom.creator room ≠ currentUser c)
  && (negb (truthy_ostr password) || bool_decide (password ≠ ChatRoom.password room)).

(** [room.maxUsers && room.users.size >= room.maxUsers] *)
Definition room_full (room : ChatRoom.t) : bool :=
  match ChatRoom.maxUsers room with
  | Some m => truthy_Q m && Qle_bool m (users_count (ChatRoom.users room))
  | None => false
  end.

(** The block [if (currentRoom) { const prevRoom = rooms.get(currentRoom);
    if (prevRoom) { ... } }] shared by ['join room'] and ['disconnect'];
    [leave_channel] tells whether [socket.leave] is called (the join
    handler does, the disconnect handler does not). *)
Definition quit_current_room (rs : gmap string ChatRoom.t) (sid : string) (c : Conn)
    (leave_channel : bool) : gmap string ChatRoom.t * list Output :=
  if truthy_str (currentRoom c) then
    match rs !! currentRoom c with
    | Some prevRoom =>
        let users' := ChatRoom.users prevRoom ∖ {[sid]} in
        (<[currentRoom c := ChatRoom.with_users prevRoom users']> rs,
         (if leave_channel then [SockLeave sid (currentRoom c)] else [])
         ++ [ToOthers sid (currentRoom c) (UserLeftRoom (currentUser c) (size users'))])
    | None => (rs, [])
    end
  else (rs, []).

(** ['join room'].  [room] is fetched before the previous room is left;
    when the previous room is the very room being joined both names
    denote one object, so the room is read again after that step. *)
Definition join_room (st : Server) (sid : string) (c : Conn)
    (roomName : string) (password : option string) : Server * list Output :=
  match rooms st !! roomName with
  | None => (st, [Emit sid (RoomJoinError RoomNotFound)])
  | Some room =>
      if password_refused room c password
      then (st, [Emit sid (RoomJoinError WrongPassword)])
      else if room_full room
      then (st, [Emit sid (RoomJoinError (RoomFull (default 0%Q (ChatRoom.maxUsers room))))])
      else
        let '(rs1, out1) := quit_current_room (rooms st) sid c true in
        let room1 := default room (rs1 !! roomName) in
        let room2 := ChatRoom.with_users room1 (ChatRoom.users room1 ∪ {[sid]}) in
        let n := size (ChatRoom.users room2) in
        (set_conn (set_rooms st (<[roomName := room2]> rs1)) sid
                  (mkConn (currentUser c) roomName (currentMusicRoom c)),
         out1
         ++ [SockJoin sid roomName;
             Emit sid (RoomJoinSuccess roomName n (ChatRoom.maxUsers room2));
             ToOthers sid roomName (UserJoinedRoom (currentUser c) n);
             Emit sid (RoomUserCount n (ChatRoom.maxUsers room2))]
         ++ ((λ m, Emit sid (ChatMessageEv (ChatMessage.replay m)))
               <$> ChatRoom.messages room2))
  end.

(** ['leave room'] *)
Definition leave_room (st : Server) (sid : string) (c : Conn) (roomName : string)
  : Server * list Output :=
  let '(rs1, out) :=
    match rooms st !! roomName with
    | Some room =>
        if bool_decide (sid ∈ ChatRoom.users room) then
          let users' := ChatRoom.users room ∖ {[sid]} in
          (<[roomName := ChatRoom.with_users room users']> (rooms st),
           [SockLeave sid roomName;
            ToOthers sid roomName (UserLeftRoom (currentUser c) (size users'))])
        else (rooms st, [])
    | None => (rooms st, [])
    end in
  (set_conn (set_rooms st rs1) sid (mkConn (currentUser c) "" (currentMusicRoom c)),
   out).

(** [room.messages.push(m); if (room.messages.length > 100)
    room.messages = room.messages.slice(-100)] *)
Definition push_trim {A} (ms : list A) (m : A) : list A :=
  let ms1 := ms ++ [m] in
  if (100 <? length ms1)%nat then drop (length ms1 - 100)%nat ms1 else ms1.

(** ['chat message'] *)
Definition chat_message (st : Server) (sid : string) (c : Conn) (env : Env)
    (roomName : string) (message : option string) (fileData : option FileData.t)
  : Server * list Output :=
  match rooms st !! roomName with
  | Some room =>
      if bool_decide (sid ∈ ChatRoom.users room) then
        let messageData :=
          ChatMessage.mk (fresh_id env) (currentUser c) message fileData (now env) false in
        (set_rooms st (<[roomName :=
            ChatRoom.with_messages room (push_trim (ChatRoom.messages room) messageData)]>
            (rooms st)),
         [ToRoom roomName (ChatMessageEv messageData)])
      else (st, [])
  | None => (st, [])
  end.

(** [room.messages.findIndex(msg => msg.id === messageId)] *)
Definition findIndex (messageId : string) (ms : list ChatMessage.t)
  : option (nat * ChatMessage.t) :=
  list_find (λ msg, ChatMessage.id msg = messageId) ms.

(** [message.fileData && message.fileData.filename]: the upload to remove. *)
Definition attached_file (m : ChatMessage.t) : list Output :=
  match ChatMessage.fileData m with
  | Some fd =>
      if truthy_str (FileData.filename fd) then [Unlink (FileData.filename fd)] else []
  | None => []
  end.

(** ['delete message'] *)
Definition delete_message (st : Server) (sid : string) (c : Conn)
    (roomName messageId : string) : Server * list Output :=
  match rooms st !! roomName with
  | None => (st, [Emit sid (DeleteError NotAuthorized)])
  | Some room =>
      if negb (bool_decide (sid ∈ ChatRoom.users room))
      then (st, [Emit sid (DeleteError NotAuthorized)])
      else
        match findIndex messageId (ChatRoom.messages room) with
        | None => (st, [Emit sid (DeleteError MessageNotFound)])
        | Some (messageIndex, message) =>
            if bool_decide (ChatMessage.username message ≠ currentUser c)
            then (st, [Emit sid (DeleteError NotAuthor)])
            else
              (set_rooms st (<[roomName :=
                  ChatRoom.with_messages room (delete messageIndex (ChatRoom.messages room))]>
                  (rooms st)),
               attached_file message
               ++ [ToRoom roomName (MessageDeleted messageId);
                   Emit sid (DeleteSuccess messageId)])
        end
  end.

(** ** The music room handlers *)

Definition music_room_summary (room : MusicRoom.t) : MusicRoomSummary.t :=
  MusicRoomSummary.mk
    (MusicRoom.id room) (MusicRoom.name room) (MusicRoom.description room)
    (size (MusicRoom.users room)) (length (MusicRoom.playlist room))
    (MusicRoom.maxUsers room)
    (if (0 <? size (MusicRoom.users room))%nat then "active" else "inactive")
    (MusicRoom.creator room) (MusicRoom.genres room)
    (MusicRoom.currentTrack room) (MusicRoom.isPlaying room)
    (MusicRoom.createdAt room).

Definition music_room_list (st : Server) : list MusicRoomSummary.t :=
  music_room_summary <$> map_values (musicRooms st) (musicRoomOrder st).

(** ['get music room list'] *)
Definition get_music_room_list (st : Server) (sid : string) : Server * list Output :=
  (st, [Emit sid (MusicRoomList (music_room_list st))]).

(** [roomName.toLowerCase().replace(/\s+/g, '-') + '-' + Date.now()] *)
Definition music_room_id (roomName : string) (env : Env) : string :=
  dash_blanks false (toLowerCase roomName) +:+ "-" +:+ pretty (now env).

(** ['create music room'] *)
Definition create_music_room (st : Server) (sid : string) (c : Conn) (env : Env)
    (roomName : string) (description : option string) (maxUsers : option Q)
    (genres : option (list string)) : Server * list Output :=
  let roomId := music_room_id roomName env in
  match musicRooms st !! roomId with
  | None =>
      let newRoom :=
        MusicRoom.mk roomId roomName
          (if truthy_ostr description
           then default "" description else "Collaborative music workspace")
          ∅
          (if truthy_oQ maxUsers then default 0%Q maxUsers else 10%Q)
          (currentUser c)
          (default ["Electronic"; "Hip-Hop"; "Rock"] genres)
          [] None 0%Z false None [] ∅ (now env) in
      let st' := mkServer (rooms st) (roomOrder st)
                          (<[roomId := newRoom]> (musicRooms st))
                          (musicRoomOrder st ++ [roomId]) (conns st) in
      (st',
       [Emit sid (MusicRoomCreated roomId roomName (MusicRoom.description newRoom)
                    (MusicRoom.maxUsers newRoom) (currentUser c)
                    (MusicRoom.genres newRoom) (MusicRoom.createdAt newRoom));
        Emit sid (MusicRoomList (music_room_list st'));
        Broadcast sid MusicRoomListUpdate])
  | Some _ => (st, [Emit sid (MusicRoomJoinError RoomAlreadyExists)])
  end.

(** The block [if (currentMusicRoom) { const prevRoom = ...; if (prevRoom)
    { ... } }] shared by ['join music room'] and ['disconnect']. *)
Definition quit_current_music_room (ms : gmap string MusicRoom.t) (sid : string)
    (c : Conn) (leave_channel : bool) : gmap string MusicRoom.t * list Output :=
  if truthy_str (currentMusicRoom c) then
    match ms !! currentMusicRoom c with
    | Some prevRoom =>
        let users' := MusicRoom.users prevRoom ∖ {[sid]} in
        (<[currentMusicRoom c := MusicRoom.with_users prevRoom users']> ms,
         (if leave_channel then [SockLeave sid (currentMusicRoom c)] else [])
         ++ [ToOthers sid (currentMusicRoom c)
               (MusicRoomUserLeft (currentUser c) (size users'))])
    | None => (ms, [])
    end
  else (ms, []).

(** ['join music room'] *)
Definition join_music_room (st : Server) (sid : string) (c : Conn) (roomId : string)
  : Server * list Output :=
  match musicRooms st !! roomId with
  | None => (st, [Emit sid (MusicRoomJoinError RoomNotFound)])
  | Some room =>
      if Qle_bool (MusicRoom.maxUsers room) (users_count (MusicRoom.users room))
      then (st, [Emit sid (MusicRoomJoinError (RoomFull (MusicRoom.maxUsers room)))])
      else
        let '(ms1, out1) := quit_current_music_room (musicRooms st) sid c true in
        let room1 := default room (ms1 !! roomId) in
        let room2 := MusicRoom.with_users room1 (MusicRoom.users room1 ∪ {[sid]}) in
        let n := size (MusicRoom.users room2) in
        (set_conn (set_musicRooms st (<[roomId := room2]> ms1)) sid
                  (mkConn (currentUser c) (currentRoom c) roomId),
         out1
         ++ [SockJoin sid roomId;
             Emit sid (MusicRoomJoinSuccess roomId (MusicRoom.name room2) n
                         (MusicRoom.maxUsers room2) (MusicRoom.currentTrack room2)
                         (MusicRoom.isPlaying room2) (MusicRoom.playlist room2));
             ToOthers sid roomId (MusicRoomUserJoined (currentUser c) n)]
         ++ ((λ m, Emit sid (MusicChatMessageEv (MusicMessage.replay m)))
               <$> MusicRoom.messages room2))
  end.

(** ['leave music room'] *)
Definition leave_music_room (st : Server) (sid : string) (c : Conn) (roomId : string)
  : Server * list Output :=
  let '(ms1, out) :=
    match musicRooms st !! roomId with
    | Some room =>
        if bool_decide (sid ∈ MusicRoom.users room) then
          let users' := MusicRoom.users room ∖ {[sid]} in
          (<[roomId := MusicRoom.with_users room users']> (musicRooms st),
           [SockLeave sid roomId;
            ToOthers sid roomId (MusicRoomUserLeft (currentUser c) (size users'))])
        else (musicRooms st, [])
    | None => (musicRooms st, [])
    end in
  (set_conn (set_musicRooms st ms1) sid (mkConn (currentUser c) (currentRoom c) ""),
   out).

(** [user || currentUser] *)
Definition user_or (user : option string) (c : Conn) : string :=
  if truthy_ostr user then default "" user else currentUser c.

(** [timestamp || Date.now()] *)
Definition timestamp_or (timestamp : option Z) (env : Env) : Z :=
  if truthy_onum timestamp then default 0%Z timestamp else now env.

(** ['music chat message'] *)
Definition music_chat_message (st : Server) (sid : string) (c : Conn) (env : Env)
    (roomId : string) (message : option string) (user : option string)
    (timestamp : option Z) : Server * list Output :=
  match musicRooms st !! roomId with
  | Some room =>
      if bool_decide (sid ∈ MusicRoom.users room) then
        let messageData :=
          MusicMessage.mk (fresh_id env) None (Some roomId) (user_or user c) message
                          None (timestamp_or timestamp env) (now env) (Some false) in
        (set_musicRooms st (<[roomId :=
            MusicRoom.with_messages room (push_trim (MusicRoom.messages room) messageData)]>
            (musicRooms st)),
         [ToRoom roomId (MusicChatMessageEv messageData)])
      else (st, [])
  | None => (st, [])
  end.

(** ['music voice message']: pushed without trimming. *)
Definition music_voice_message (st : Server) (sid : string) (c : Conn) (env : Env)
    (roomId : string) (user : option string) (timestamp : option Z)
    (audioUrl : option string) : Server * list Output :=
  match musicRooms st !! roomId with
  | Some room =>
      if bool_decide (sid ∈ MusicRoom.users room) then
        let voiceData :=
          MusicMessage.mk (fresh_id env) None (Some roomId) (user_or user c) None
                          (Some audioUrl) (timestamp_or timestamp env) (now env)
                          (Some false) in
        (set_musicRooms st (<[roomId :=
            MusicRoom.with_messages room (MusicRoom.messages room ++ [voiceData])]>
            (musicRooms st)),
         [ToRoom roomId (MusicChatMessageEv voiceData)])
      else (st, [])
  | None => (st, [])
  end.

Definition dquote : string := String "034"%char EmptyString.

(** ['music uploaded'] *)
Definition music_uploaded (st : Server) (sid : string) (c : Conn) (env : Env)
    (roomId : string) (musicData : FileData.t) : Server * list Output :=
  match musicRooms st !! roomId with
  | Some room =>
      if bool_decide (sid ∈ MusicRoom.users room) then
        let trackData :=
          Track.mk (fresh_id env) (strip_ext (FileData.originalname musicData))
                   (FileData.filename musicData) (FileData.originalname musicData)
                   (FileData.url musicData) (currentUser c) (now env) "0:00" 0%Z ∅ in
        let playlist' := MusicRoom.playlist room ++ [trackData] in
        let systemMessage :=
          MusicMessage.mk (pretty (now env) +:+ "_system") (Some "system") None "SYSTEM"
            (Some (currentUser c +:+ " uploaded " +:+ dquote
                   +:+ Track.title trackData +:+ dquote))
            None (now env) (now env) None in
        let room1 := MusicRoom.with_playlist room playlist' in
        let room2 :=
          MusicRoom.with_messages room1 (MusicRoom.messages room1 ++ [systemMessage]) in
        (set_musicRooms st (<[roomId := room2]> (musicRooms st)),
         [ToRoom roomId (PlaylistUpdate playlist' (MusicRoom.currentTrack room)
                           (MusicRoom.isPlaying room));
          ToRoom roomId (MusicChatMessageEv systemMessage)])
      else (st, [])
  | None => (st, [])
  end.

(** ['play track'] *)
Definition play_track (st : Server) (sid : string) (c : Conn) (env : Env)
    (roomId trackId : string) : Server * list Output :=
  match musicRooms st !! roomId with
  | Some room =>
      if bool_decide (sid ∈ MusicRoom.users room) then
        match List.find (λ t, bool_decide (Track.id t = trackId)) (MusicRoom.playlist room) with
        | Some track =>
            (set_musicRooms st (<[roomId :=
                MusicRoom.with_transport room (Some track) true (Some (now env))]>
                (musicRooms st)),
             [ToRoom roomId (TrackChanged track true (Some (now env)))])
        | None => (st, [])
        end
      else (st, [])
  | None => (st, [])
  end.

(** ['toggle playback'] *)
Definition toggle_playback (st : Server) (sid : string) (c : Conn) (env : Env)
    (roomId : string) : Server * list Output :=
  match musicRooms st !! roomId with
  | Some room =>
      if bool_decide (sid ∈ MusicRoom.users room) then
        let isPlaying' := negb (MusicRoom.isPlaying room) in
        let playStartTime' :=
          if isPlaying' then Some (now env) else MusicRoom.playStartTime room in
        (set_musicRooms st (<[roomId :=
            MusicRoom.with_transport room (MusicRoom.currentTrack room)
                                     isPlaying' playStartTime']>
            (musicRooms st)),
         [ToRoom roomId (PlaybackToggled isPlaying' playStartTime')])
      else (st, [])
  | None => (st, [])
  end.

(** ['disconnect']: the connection leaves the room each of its two
    references names; its closure variables die with it. *)
Definition disconnect (st : Server) (sid : string) (c : Conn) : Server * list Output :=
  let '(rs1, out1) := quit_current_room (rooms st) sid c false in
  let '(ms1, out2) := quit_current_music_room (musicRooms st) sid c false in
  (mkServer rs1 (roomOrder st) ms1 (musicRoomOrder st) (delete sid (conns st)),
   out1 ++ out2).

(** ** The server as a transition system *)

(** The handler registered for each event name. *)
Definition handle (st : Server) (sid : string) (c : Conn) (env : Env) (r : Request)
  : Server * list Output :=
  match r with
  | UserJoin username => user_join st sid c username
  | GetRoomList => get_room_list st sid
  | CreateRoom roomName maxUsers password =>
      create_room st sid c env roomName maxUsers password
  | JoinRoom roomName password => join_room st sid c roomName password
  | LeaveRoom roomName => leave_room st sid c roomName
  | ChatMessageReq roomName message fileData =>
      chat_message st sid c env roomName message fileData
  | DeleteMessage roomName messageId => delete_message st sid c roomName messageId
  | GetMusicRoomList => get_music_room_list st sid
  | CreateMusicRoom roomName description maxUsers genres =>
      create_music_room st sid c env roomName description maxUsers genres
  | JoinMusicRoom roomId => join_music_room st sid c roomId
  | LeaveMusicRoom roomId => leave_music_room st sid c roomId
  | MusicChatMessageReq roomId message user timestamp =>
      music_chat_message st sid c env roomId message user timestamp
  | MusicVoiceMessage roomId user timestamp audioUrl =>
      music_voice_message st sid c env roomId user timestamp audioUrl
  | MusicUploaded roomId musicData => music_uploaded st sid c env roomId musicData
  | PlayTrack roomId trackId => play_track st sid c env roomId trackId
  | TogglePlayback roomId => toggle_playback st sid c env roomId
  | Disconnect => disconnect st sid c
  end.

(** One event: a new connection starts with three empty closure
    variables; a request runs its handler with the sender's variables.
    socket.io never hands out an id in use and delivers nothing for a
    socket that is gone, so both are no-ops. *)
Definition step (st : Server) (e : Event) : Server * list Output :=
  match e with
  | Connect sid =>
      match conns st !! sid with
      | Some _ => (st, [])
      | None => (set_conn st sid (mkConn "" "" ""), [])
      end
  | Req sid env r =>
      match conns st !! sid with
      | Some c => handle st sid c env r
      | None => (st, [])
      end
  end.

(** The state after a sequence of events. *)
Definition run (st : Server) (es : list Event) : Server :=
  foldl (λ s e, (step s e).1) st es.

(** A state is reachable when some sequence of events leads to it from
    start-up. *)
Definition reachable (st : Server) : Prop := ∃ es, run init es = st.

(** ** The rooms of socket.io

    [io.to(room)] and [socket.to(room)] address the sockets that are in
    the socket.io room of that name, and chat rooms and music rooms
    share the one name space.  As socket.io documents it: a socket is
    put in the room named by its own id when it connects, [socket.join]
    and [socket.leave] add and remove it, and a socket that disconnects
    has left every room by the time its ['disconnect'] handler runs. *)
Definition Channels : Type := string → gset string.

Definition no_channels : Channels := λ _, ∅.

(** The effect of one command of a handler. *)
Definition channel_cmd (ch : Channels) (o : Output) : Channels :=
  match o with
  | SockJoin sid room => λ r, if bool_decide (r = room) then ch r ∪ {[sid]} else ch r
  | SockLeave sid room => λ r, if bool_decide (r = room) then ch r ∖ {[sid]} else ch r
  | _ => ch
  end.

(** The effect of one event. *)
Definition channels_step (st : Server) (ch : Channels) (e : Event) : Channels :=
  match e with
  | Connect sid =>
      match conns st !! sid with
      | Some _ => ch
      | None => channel_cmd ch (SockJoin sid sid)
      end
  | Req sid env r =>
      match conns st !! sid with
      | Some _ =>
          let ch1 := foldl channel_cmd ch (step st e).2 in
          match r with
          | Disconnect => λ room, ch1 room ∖ {[sid]}
          | _ => ch1
          end
      | None => ch
      end
  end.

(** The server and the socket.io rooms after a sequence of events from
    start-up. *)
Definition run_channels (es : list Event) : Server * Channels :=
  foldl (λ sc e, ((step sc.1 e).1, channels_step sc.1 sc.2 e)) (init, no_channels) es.

(** The sockets a command reaches. *)
Definition recipients (st : Server) (ch : Channels) (o : Output) : gset string :=
  match o with
  | Emit sid _ => {[sid]}
  | ToOthers sid room _ => ch room ∖ {[sid]}
  | ToRoom room _ => ch room
  | Broadcast sid _ => dom (conns st) ∖ {[sid]}
  | SockJoin _ _ | SockLeave _ _ | Unlink _ => ∅
  end.

(** The ids of the connections made in a sequence of events. *)
Definition connect_id (e : Event) : option string :=
  match e with Connect sid => Some sid | Req _ _ _ => None end.

Definition connect_ids (es : list Event) : list string := omap connect_id es.

(** ** Notions used to state the properties *)

(** [l.slice(-n)]: the last [n] entries of [l], all of them when there
    are fewer. *)
Definition last_n {A} (n : nat) (l : list A) : list A := drop (length l - n) l.

(** One ['chat message'] request: who sends it, what the environment
    supplies, and the text and attachment. *)
Definition Send : Type := string * Env * option string * option FileData.t.

Definition sender (s : Send) : string := s.1.1.1.

Definition send_event (roomName : string) (s : Send) : Event :=
  let '(sid, env, message, fileData) := s in
  Req sid env (ChatMessageReq roomName message fileData).

(** The entry an accepted request adds to the history. *)
Definition sent_message (st : Server) (s : Send) : ChatMessage.t :=
  let '(sid, env, message, fileData) := s in
  ChatMessage.mk (fresh_id env) (default "" (currentUser <$> conns st !! sid))
                 message fileData (now env) false.



(** Stored rooms keep what ['create room'] wrote: a password is a
    non-empty string or [null], a capacity a non-zero number or [null]. *)
Definition room_wf (room : ChatRoom.t) : Prop :=
  ChatRoom.password room ≠ Some ""
  ∧ ∀ m, ChatRoom.maxUsers room = Some m → ¬ (m == 0)%Q.

Definition rooms_wf (st : Server) : Prop :=
  ∀ name room, rooms st !! name = Some room → room_wf room.

(** When a ['join room'] request is to be refused, and with what, in the
    words of the specification: the room is missing; or it has a
    password, the requester is not its creator and the supplied password
    is absent or different; or, these checks passed, its capacity is set
    and already reached. *)
Inductive JoinRejected (st : Server) (c : Conn) (roomName : string)
    (password : option string) : JoinError → Prop :=
| rej_not_found :
    rooms st !! roomName = None →
    JoinRejected st c roomName password RoomNotFound
| rej_wrong_password room pw :
    rooms st !! roomName = Some room →
    ChatRoom.password room = Some pw →
    currentUser c ≠ ChatRoom.creator room →
    (password = None ∨ password ≠ Some pw) →
    JoinRejected st c roomName password WrongPassword
| rej_room_full room m :
    rooms st !! roomName = Some room →
    (∀ pw, ChatRoom.password room = Some pw →
           currentUser c = ChatRoom.creator room ∨ password = Some pw) →
    ChatRoom.maxUsers room = Some m →
    (m <= users_count (ChatRoom.users room))%Q →
    JoinRejected st c roomName password (RoomFull m).

(** The socket an event comes from. *)
Definition origin (e : Event) : string :=
  match e with Connect sid => sid | Req sid _ _ => sid end.

(** What an output carries to clients, if anything. *)
Definition payload_of (o : Output) : option Payload :=
  match o with
  | Emit _ p | ToOthers _ _ p | ToRoom _ p | Broadcast _ p => Some p
  | SockJoin _ _ | SockLeave _ _ | Unlink _ => None
  end.

(** How one event from socket [sid] may change the chat room stored under
    a name: a new room starts empty; an existing one keeps its capacity
    and password, loses at most [sid], gains at most [sid], and gains it
    only if it was not full. *)
Definition room_evolves (sid : string) (old : option ChatRoom.t) (new : ChatRoom.t) : Prop :=
  match old with
  | None => ChatRoom.users new = ∅ ∧ room_wf new
  | Some room =>
      ChatRoom.maxUsers new = ChatRoom.maxUsers room
      ∧ ChatRoom.password new = ChatRoom.password room
      ∧ ChatRoom.users room ∖ {[sid]} ⊆ ChatRoom.users new
      ∧ ChatRoom.users new ⊆ ChatRoom.users room ∪ {[sid]}
      ∧ (sid ∈ ChatRoom.users new → sid ∈ ChatRoom.users room ∨ room_full room = false)
  end.

(** The same for a music room. *)
Definition music_room_evolves (sid : string) (old : option MusicRoom.t) (new : MusicRoom.t)
  : Prop :=
  match old with
  | None => MusicRoom.users new = ∅
  | Some room =>
      MusicRoom.maxUsers new = MusicRoom.maxUsers room
      ∧ MusicRoom.users room ∖ {[sid]} ⊆ MusicRoom.users new
      ∧ MusicRoom.users new ⊆ MusicRoom.users room ∪ {[sid]}
      ∧ (sid ∈ MusicRoom.users new →
         sid ∈ MusicRoom.users room
         ∨ (users_count (MusicRoom.users room) < MusicRoom.maxUsers room)%Q)
  end.

(** No room with a positive capacity holds a whole occupant more than
    its capacity: the last join found the count below it. *)
Definition capacity_kept (st : Server) : Prop :=
  (∀ name room m, rooms st !! name = Some room → ChatRoom.maxUsers room = Some m →
     (0 < m)%Q → (users_count (ChatRoom.users room) < m + 1)%Q)
  ∧ (∀ id room, musicRooms st !! id = Some room → (0 < MusicRoom.maxUsers room)%Q →
     (users_count (MusicRoom.users room) < MusicRoom.maxUsers room + 1)%Q).

(** Every id in a room's [users] belongs to a live connection whose
    [currentRoom] names that room, and no room has the empty name (which
    [if (currentRoom)] could not tell from "no room"). *)
Definition tracked (st : Server) : Prop :=
  rooms st !! "" = None
  ∧ ∀ name room s, rooms st !! name = Some room → s ∈ ChatRoom.users room →
      ∃ c, conns st !! s = Some c ∧ currentRoom c = name.

(** Clients that never create a room with the empty name and only ask to
    leave the room their [currentRoom] names. *)
Definition orderly (st : Server) (e : Event) : Prop :=
  match e with
  | Req sid _ (CreateRoom roomName _ _) => roomName ≠ ""
  | Req sid _ (LeaveRoom roomName) =>
      ∀ c, conns st !! sid = Some c → currentRoom c = "" ∨ currentRoom c = roomName
  | _ => True
  end.

Fixpoint orderly_run (st : Server) (es : list Event) : Prop :=
  match es with
  | [] => True
  | e :: es' => orderly st e ∧ orderly_run (step st e).1 es'
  end.

(** ** Concrete sessions *)

Definition at_time (t : Z) : Env := mkEnv t "k3x9q2m1z".

(** "ann" creates the rooms "A" and "C" and joins "A"; "bob" is connected
    and in no room. *)
Definition in_room_A : list Event :=
  [Connect "x"; Connect "y";
   Req "x" (at_time 1) (UserJoin "ann");
   Req "y" (at_time 1) (UserJoin "bob");
   Req "x" (at_time 2) (CreateRoom "A" None None);
   Req "x" (at_time 3) (CreateRoom "C" None None);
   Req "x" (at_time 4) (JoinRoom "A" None)].

(** ... and then says two things in "A". *)
Definition two_lines : list Event :=
  in_room_A ++ [Req "x" (at_time 5) (ChatMessageReq "A" (Some "hello") None);
                Req "x" (at_time 6) (ChatMessageReq "A" (Some "again") None)].

Definition jam : string := music_room_id "Jam" (at_time 1000).

(** A music room with one member and one track, all set up within one
    tick of the clock. *)
Definition same_tick_session : list Event :=
  [Connect "x";
   Req "x" (at_time 1000) (CreateMusicRoom "Jam" None None None);
   Req "x" (at_time 1000) (JoinMusicRoom jam);
   Req "x" (at_time 1000)
       (MusicUploaded jam (FileData.mk "1000_a.mp3" "a.mp3" 10 "/uploads/music/1000_a.mp3"))].

(** ** Pure parts of the upload and download routes *)

(** The [filename] callback of the two multer stores:
    [timestamp + '_' + file.originalname], with [timestamp = Date.now()]. *)
Definition stored_filename (timestamp : Z) (originalname : string) : string :=
  pretty timestamp +:+ "_" +:+ originalname.

(** What follows the first underscore of a string, if it has one. *)
Fixpoint after_underscore (s : string) : option string :=
  match s with
  | EmptyString => None
  | String a s' => if bool_decide (a = "_"%char) then Some s' else after_underscore s'
  end.

(** [filename.substring(filename.indexOf('_') + 1)] of the download
    route; [indexOf] is [-1] when there is no underscore, and the whole
    name is kept. *)
Definition download_name (filename : string) : string :=
  default filename (after_underscore filename).

(** [/p1|p2|.../.test(s)] for literal alternatives: some alternative
    occurs somewhere in [s]. *)
Fixpoint occurs (pat s : string) : bool :=
  String.prefix pat s
  || match s with
     | EmptyString => false
     | String _ s' => occurs pat s'
     end.

Definition test_any (alternatives : list string) (s : string) : bool :=
  existsb (λ pat, occurs pat s) alternatives.

Definition upload_types : list string :=
  ["jpeg"; "jpg"; "png"; "gif"; "mp3"; "wav"; "ogg"; "m4a"; "webm"; "flac"; "aac"; "mpeg"].

Definition music_types : list string :=
  ["mp3"; "wav"; "ogg"; "m4a"; "webm"; "flac"; "aac"; "mpeg"].

(** The [fileFilter] of [upload]; [extname] is
    [path.extname(file.originalname)], computed by Node. *)
Definition upload_fileFilter (extname mimetype : string) : bool :=
  let extname_ok := test_any upload_types (toLowerCase extname) in
  let mimetype_ok := test_any upload_types mimetype
                     || String.prefix "audio/" mimetype
                     || String.prefix "image/" mimetype in
  mimetype_ok && extname_ok.

(** The [fileFilter] of [musicUpload]. *)
Definition music_fileFilter (extname mimetype : string) : bool :=
  let extname_ok := test_any music_types (toLowerCase extname) in
  let mimetype_ok := test_any music_types mimetype
                     || String.prefix "audio/" mimetype in
  mimetype_ok && extname_ok.

(** ** Further notions *)

(** A string of characters of the ASCII range (bytes below 128).  On
    such a string [toLowerCase] and the blank class [\s] of JavaScript
    are [toLowerCase] and [is_space] above. *)
Fixpoint ascii_only (s : string) : Prop :=
  match s with
  | EmptyString => True
  | String a s' => (nat_of_ascii a < 128)%nat ∧ ascii_only s'
  end.

(** No underscore among the characters of a string. *)
Fixpoint no_underscore (s : string) : Prop :=
  match s with
  | EmptyString => True
  | String a s' => a ≠ "_"%char ∧ no_underscore s'
  end.

Fixpoint before_underscore (s : string) : string :=
  match s with
  | EmptyString => EmptyString
  | String a s' => if bool_decide (a = "_"%char) then EmptyString
                   else String a (before_underscore s')
  end.

Fixpoint no_blank (s : string) : Prop :=
  match s with
  | EmptyString => True
  | String a s' => is_space a = false ∧ no_blank s'
  end.

Fixpoint no_capital (s : string) : Prop :=
  match s with
  | EmptyString => True
  | String a s' => lower_ascii a = a ∧ no_capital s'
  end.

Fixpoint no_dot (s : string) : Prop :=
  match s with
  | EmptyString => True
  | String a s' => a ≠ "."%char ∧ no_dot s'
  end.

(** What an event may do to a stored chat room: its settings stay, and
    its history loses entries, or gains one and is cut to 100. *)
Definition room_kept (room room' : ChatRoom.t) : Prop :=
  ChatRoom.name room' = ChatRoom.name room
  ∧ ChatRoom.maxUsers room' = ChatRoom.maxUsers room
  ∧ ChatRoom.password room' = ChatRoom.password room
  ∧ ChatRoom.creator room' = ChatRoom.creator room
  ∧ ChatRoom.createdAt room' = ChatRoom.createdAt room
  ∧ ((length (ChatRoom.messages room') ≤ length (ChatRoom.messages room))%nat
     ∨ (length (ChatRoom.messages room') ≤ 100)%nat).

(** The chat room store after an event: the same keys in the same
    order, each room kept; or one new, empty room under a new key. *)
Definition rooms_kept (st st' : Server) : Prop :=
  roomOrder st' = roomOrder st
  ∧ ∀ n, match rooms st !! n, rooms st' !! n with
         | Some room, Some room' => room_kept room room'
         | None, None => True
         | _, _ => False
         end.

Definition room_added (st st' : Server) : Prop :=
  ∃ n room, rooms st !! n = None
    ∧ roomOrder st' = roomOrder st ++ [n]
    ∧ rooms st' = <[n := room]> (rooms st)
    ∧ ChatRoom.name room = n
    ∧ ChatRoom.users room = ∅
    ∧ ChatRoom.messages room = [].

(** The keys of the chat room store, as the room list needs them. *)
Definition rooms_listed (st : Server) : Prop :=
  NoDup (roomOrder st)
  ∧ (∀ n, n ∈ roomOrder st ↔ is_Some (rooms st !! n))
  ∧ ∀ n room, rooms st !! n = Some room → ChatRoom.name room = n.

(** The chat message an output carries, if it is one. *)
Definition chat_message_of (o : Output) : option ChatMessage.t :=
  match payload_of o with
  | Some (ChatMessageEv m) => Some m
  | _ => None
  end.

(** The current track is one of the playlist, and a room that is
    playing has a start time. *)
Definition transport_ok (room : MusicRoom.t) : Prop :=
  (∀ t, MusicRoom.currentTrack room = Some t → t ∈ MusicRoom.playlist room)
  ∧ (MusicRoom.isPlaying room = true → is_Some (MusicRoom.playStartTime room)).

(** What an event may do to a stored music room: its settings stay, its
    playlist is only added to at the end, and [transport_ok] is kept. *)
Definition music_room_kept (room room' : MusicRoom.t) : Prop :=
  MusicRoom.id room' = MusicRoom.id room
  ∧ MusicRoom.name room' = MusicRoom.name room
  ∧ MusicRoom.maxUsers room' = MusicRoom.maxUsers room
  ∧ MusicRoom.creator room' = MusicRoom.creator room
  ∧ (∃ added, MusicRoom.playlist room' = MusicRoom.playlist room ++ added)
  ∧ (transport_ok room → transport_ok room').

Definition music_rooms_kept (st st' : Server) : Prop :=
  musicRoomOrder st' = musicRoomOrder st
  ∧ ∀ k, match musicRooms st !! k, musicRooms st' !! k with
         | Some room, Some room' => music_room_kept room room'
         | None, None => True
         | _, _ => False
         end.

Definition music_room_added (st st' : Server) : Prop :=
  ∃ k room, musicRooms st !! k = None
    ∧ musicRoomOrder st' = musicRoomOrder st ++ [k]
    ∧ musicRooms st' = <[k := room]> (musicRooms st)
    ∧ MusicRoom.id room = k
    ∧ MusicRoom.users room = ∅
    ∧ MusicRoom.playlist room = []
    ∧ MusicRoom.currentTrack room = None
    ∧ MusicRoom.isPlaying room = false.

(** One ['music voice message'] request. *)
Definition Voice : Type := string * Env * option string * option Z * option string.

Definition voice_sender (v : Voice) : string := v.1.1.1.1.

Definition voice_event (roomId : string) (v : Voice) : Event :=
  let '(sid, env, user, timestamp, audioUrl) := v in
  Req sid env (MusicVoiceMessage roomId user timestamp audioUrl).

(** The entry an accepted request adds to the history. *)
Definition voice_entry (st : Server) (roomId : string) (v : Voice) : MusicMessage.t :=
  let '(sid, env, user, timestamp, audioUrl) := v in
  MusicMessage.mk (fresh_id env) None (Some roomId)
    (user_or user (default (mkConn "" "" "") (conns st !! sid)))
    None (Some audioUrl) (timestamp_or timestamp env) (now env) (Some false).

(** The requests of the chat rooms, and those of the music rooms. *)
Definition chat_request (r : Request) : bool :=
  match r with
  | GetRoomList | CreateRoom _ _ _ | JoinRoom _ _ | LeaveRoom _
  | ChatMessageReq _ _ _ | DeleteMessage _ _ => true
  | _ => false
  end.

Definition music_request (r : Request) : bool :=
  match r with
  | GetMusicRoomList | CreateMusicRoom _ _ _ _ | JoinMusicRoom _ | LeaveMusicRoom _
  | MusicChatMessageReq _ _ _ _ | MusicVoiceMessage _ _ _ _ | MusicUploaded _ _
  | PlayTrack _ _ | TogglePlayback _ => true
  | _ => false
  end.

(** ** Properties *)

#[local] Set Warnings "-clear-no-such-hyp".

(** *** Running the server *)

Lemma step_req st sid c env r :
  conns st !! sid = Some c → step st (Req sid env r) = handle st sid c env r.
Proof. intros H. simpl. by rewrite H. Qed.

Lemma run_snoc st es e : run st (es ++ [e]) = (step (run st es) e).1.
Proof. unfold run. by rewrite foldl_app. Qed.

Lemma reachable_ind (P : Server → Prop) :
  P init → (∀ st e, reachable st → P st → P (step st e).1) →
  ∀ st, reachable st → P st.
Proof.
  intros H0 Hstep st [es <-].
  induction es as [|e es IH] using rev_ind; [done|].
  rewrite run_snoc. apply Hstep; [by exists es|done].
Qed.

(** *** How one event changes the rooms *)

Lemma room_evolves_refl sid room : room_evolves sid (Some room) room.
Proof. unfold room_evolves. set_solver. Qed.

Lemma or_null_str_wf o : or_null_str o ≠ Some "".
Proof.
  unfold or_null_str. destruct o as [s|]; cbn; [|done].
  unfold truthy_str. case_bool_decide; cbn; congruence.
Qed.

Lemma truthy_Q_true q : truthy_Q q = true ↔ ¬ (q == 0)%Q.
Proof.
  unfold truthy_Q. rewrite negb_true_iff, <- Qeq_bool_iff.
  destruct (Qeq_bool q 0); split; congruence.
Qed.

Lemma or_null_num_wf o m : or_null_num o = Some m → ¬ (m == 0)%Q.
Proof.
  unfold or_null_num. destruct o as [q|]; cbn; [|done].
  destruct (truthy_Q q) eqn:E; [|done]. intros [= <-]. by apply truthy_Q_true.
Qed.

Lemma Qle_bool_spec x y : BoolSpec (x <= y)%Q (y < x)%Q (Qle_bool x y).
Proof.
  destruct (Qle_bool x y) eqn:E; constructor; [by apply Qle_bool_iff|].
  apply Qnot_le_lt. intros H. apply Qle_bool_iff in H. congruence.
Qed.

(** Sizes as numbers. *)
Lemma users_count_mono (U V : gset string) :
  (size U ≤ size V)%nat → (users_count U <= users_count V)%Q.
Proof. intros H. unfold users_count. rewrite <- Zle_Qle. lia. Qed.

Lemma users_count_succ (U V : gset string) :
  (size U ≤ size V + 1)%nat → (users_count U <= users_count V + 1)%Q.
Proof.
  intros H. unfold users_count.
  change 1%Q with (inject_Z 1). rewrite <- inject_Z_plus, <- Zle_Qle. lia.
Qed.

Lemma users_count_empty : users_count ∅ = 0%Q.
Proof. unfold users_count. by rewrite size_empty. Qed.

Lemma users_count_whole (U : gset string) (z : Z) :
  (users_count U < inject_Z z + 1)%Q → Z.of_nat (size U) ≤ z.
Proof.
  unfold users_count. change 1%Q with (inject_Z 1).
  rewrite <- inject_Z_plus, <- Zlt_Qlt. lia.
Qed.

Lemma quit_current_room_none rs sid c b :
  currentRoom c = "" → quit_current_room rs sid c b = (rs, []).
Proof. intros H. unfold quit_current_room. by rewrite H. Qed.

Lemma quit_current_room_evolves rs sid c b name room' :
  (quit_current_room rs sid c b).1 !! name = Some room' →
  ∃ room, rs !! name = Some room
    ∧ ChatRoom.maxUsers room' = ChatRoom.maxUsers room
    ∧ ChatRoom.password room' = ChatRoom.password room
    ∧ ChatRoom.messages room' = ChatRoom.messages room
    ∧ (ChatRoom.users room' = ChatRoom.users room
       ∨ (name = currentRoom c ∧ ChatRoom.users room' = ChatRoom.users room ∖ {[sid]})).
Proof.
  unfold quit_current_room.
  destruct (truthy_str (currentRoom c)); [|cbn; eauto 10].
  destruct (rs !! currentRoom c) as [prev|] eqn:Hp; [|cbn; eauto 10].
  cbn. rewrite lookup_insert. case_decide as Hd.
  - intros [= <-]. subst name. exists prev. cbn. eauto 10.
  - eauto 10.
Qed.

Lemma quit_current_room_lookup rs sid c b name :
  (quit_current_room rs sid c b).1 !! name
  = if decide (name = currentRoom c ∧ currentRoom c ≠ "")
    then (λ r, ChatRoom.with_users r (ChatRoom.users r ∖ {[sid]})) <$> rs !! name
    else rs !! name.
Proof.
  unfold quit_current_room, truthy_str.
  case_bool_decide as He; cbn.
  { destruct (decide (_ ∧ _)) as [Hd|Hd]; [by destruct Hd|done]. }
  destruct (rs !! currentRoom c) as [prev|] eqn:Hp; cbn.
  - rewrite lookup_insert.
    destruct (decide (currentRoom c = name)) as [Hn|Hn];
      destruct (decide (_ ∧ _)) as [Hd|Hd].
    + subst. by rewrite Hp.
    + destruct Hd. done.
    + destruct Hd as [-> _]. done.
    + done.
  - destruct (decide (_ ∧ _)) as [Hd|Hd]; [|done]. destruct Hd as [-> _]. by rewrite Hp.
Qed.

Lemma quit_current_room_persists rs sid c b name :
  is_Some (rs !! name) → is_Some ((quit_current_room rs sid c b).1 !! name).
Proof.
  unfold quit_current_room. intros Hs.
  destruct (truthy_str (currentRoom c)); [|done].
  destruct (rs !! currentRoom c); [|done].
  cbn. rewrite lookup_insert. by case_decide.
Qed.

Lemma step_room_evolves st e name room' :
  rooms (step st e).1 !! name = Some room' →
  room_evolves (origin e) (rooms st !! name) room'.
Proof.
  destruct e as [sid|sid env r]; cbn [step origin].
  { destruct (conns st !! sid); cbn; intros ->; apply room_evolves_refl. }
  destruct (conns st !! sid) as [c|]; [|cbn; intros ->; apply room_evolves_refl].
  destruct r; cbn [handle].
  all: try (unfold user_join, get_room_list, get_music_room_list, create_music_room,
      join_music_room, leave_music_room, music_chat_message, music_voice_message,
      music_uploaded, play_track, toggle_playback;
    repeat case_match; cbn; intros ->; apply room_evolves_refl).
  - (* create room *)
    unfold create_room. destruct (rooms st !! roomName) as [room|] eqn:Hr.
    + cbn. intros ->. apply room_evolves_refl.
    + cbn. rewrite lookup_insert. case_decide as Hd.
      * intros [= <-]. subst. rewrite Hr. cbn.
        split; [done|]. split; cbn; [apply or_null_str_wf|apply or_null_num_wf].
      * intros ->. apply room_evolves_refl.
  - (* join room *)
    unfold join_room. destruct (rooms st !! roomName) as [room|] eqn:Hr;
      [|cbn; intros ->; apply room_evolves_refl].
    destruct (password_refused room c password);
      [cbn; intros ->; apply room_evolves_refl|].
    destruct (room_full room) eqn:Hf; [cbn; intros ->; apply room_evolves_refl|].
    destruct (quit_current_room (rooms st) sid c true) as [rs1 out1] eqn:Hq.
    cbn. rewrite lookup_insert. case_decide as Hd.
    + intros [= <-]. subst name. rewrite Hr. cbn.
      destruct (rs1 !! roomName) as [room1|] eqn:Hr1; cbn.
      * pose proof (quit_current_room_evolves (rooms st) sid c true roomName room1) as Hev.
        rewrite Hq in Hev. destruct (Hev Hr1) as (room0 & Hr0 & Hm & Hp & _ & Hu).
        assert (room0 = room) as -> by congruence.
        split_and!; [done|done| | |by right]; set_solver.
      * split_and!; [done|done| | |by right]; set_solver.
    + intros Hl.
      pose proof (quit_current_room_evolves (rooms st) sid c true name room') as Hev.
      rewrite Hq in Hev. destruct (Hev Hl) as (room0 & Hr0 & Hm & Hp & _ & Hu).
      rewrite Hr0. cbn. split_and!; [done|done|..]; set_solver.
  - (* leave room *)
    unfold leave_room. destruct (rooms st !! roomName) as [room|] eqn:Hr;
      [|cbn; intros ->; apply room_evolves_refl].
    case_bool_decide; [|cbn; intros ->; apply room_evolves_refl].
    cbn. rewrite lookup_insert. case_decide as Hd.
    + intros [= <-]. subst name. rewrite Hr. cbn. split_and!; [done|done|..]; set_solver.
    + intros ->. apply room_evolves_refl.
  - (* chat message *)
    unfold chat_message. destruct (rooms st !! roomName) as [room|] eqn:Hr;
      [|cbn; intros ->; apply room_evolves_refl].
    case_bool_decide; [|cbn; intros ->; apply room_evolves_refl].
    cbn. rewrite lookup_insert. case_decide as Hd.
    + intros [= <-]. subst name. rewrite Hr. cbn. split_and!; [done|done|..]; set_solver.
    + intros ->. apply room_evolves_refl.
  - (* delete message *)
    unfold delete_message. destruct (rooms st !! roomName) as [room|] eqn:Hr;
      [|cbn; intros ->; apply room_evolves_refl].
    case_bool_decide; cbn [negb]; [|cbn; intros ->; apply room_evolves_refl].
    destruct (findIndex messageId (ChatRoom.messages room)) as [[i m]|];
      [|cbn; intros ->; apply room_evolves_refl].
    case_bool_decide; [cbn; intros ->; apply room_evolves_refl|].
    cbn. rewrite lookup_insert. case_decide as Hd.
    + intros [= <-]. subst name. rewrite Hr. cbn. split_and!; [done|done|..]; set_solver.
    + intros ->. apply room_evolves_refl.
  - (* disconnect *)
    unfold disconnect.
    destruct (quit_current_room (rooms st) sid c false) as [rs1 out1] eqn:Hq.
    destruct (quit_current_music_room (musicRooms st) sid c false) as [ms1 out2].
    cbn. intros Hl.
    pose proof (quit_current_room_evolves (rooms st) sid c false name room') as Hev.
    rewrite Hq in Hev. destruct (Hev Hl) as (room0 & Hr0 & Hm & Hp & _ & Hu).
    rewrite Hr0. cbn. split_and!; [done|done|..]; set_solver.
Qed.

Ltac same_rooms := cbn; done.

Ltac inserted_room := cbn; rewrite lookup_insert; by case_decide.

Lemma step_room_persists st e name :
  is_Some (rooms st !! name) → is_Some (rooms (step st e).1 !! name).
Proof.
  intros Hs. destruct e as [sid|sid env r]; cbn [step].
  { by destruct (conns st !! sid). }
  destruct (conns st !! sid) as [c|]; [|done].
  destruct r; cbn [handle].
  all: try (unfold user_join, get_room_list, get_music_room_list, create_music_room,
      join_music_room, leave_music_room, music_chat_message, music_voice_message,
      music_uploaded, play_track, toggle_playback;
    repeat case_match; same_rooms).
  - unfold create_room. destruct (rooms st !! roomName); [same_rooms|inserted_room].
  - unfold join_room. destruct (rooms st !! roomName) as [room|]; [|same_rooms].
    destruct (password_refused room c password); [same_rooms|].
    destruct (room_full room); [same_rooms|].
    pose proof (quit_current_room_persists (rooms st) sid c true name Hs) as Hq.
    destruct (quit_current_room (rooms st) sid c true) as [rs1 out1].
    inserted_room.
  - unfold leave_room. destruct (rooms st !! roomName) as [room|]; [|same_rooms].
    case_bool_decide; [inserted_room|same_rooms].
  - unfold chat_message. destruct (rooms st !! roomName) as [room|]; [|same_rooms].
    case_bool_decide; [inserted_room|same_rooms].
  - unfold delete_message. destruct (rooms st !! roomName) as [room|]; [|same_rooms].
    case_bool_decide; cbn [negb]; [|same_rooms].
    destruct (findIndex messageId (ChatRoom.messages room)) as [[i m]|]; [|same_rooms].
    case_bool_decide; [same_rooms|inserted_room].
  - unfold disconnect.
    pose proof (quit_current_room_persists (rooms st) sid c false name Hs) as Hq.
    destruct (quit_current_room (rooms st) sid c false) as [rs1 out1].
    destruct (quit_current_music_room (musicRooms st) sid c false) as [ms1 out2].
    done.
Qed.

Ltac same_conn := cbn; rewrite ?lookup_insert_ne, ?lookup_delete_ne by done; done.

Lemma step_conns_other st e s :
  origin e ≠ s → conns (step st e).1 !! s = conns st !! s.
Proof.
  intros Hne. destruct e as [sid|sid env r]; cbn [step origin] in *.
  { destruct (conns st !! sid); same_conn. }
  destruct (conns st !! sid) as [c|]; [|done].
  destruct r; cbn [handle].
  all: try (unfold user_join, get_room_list, create_room, leave_room, chat_message,
      delete_message, get_music_room_list, create_music_room,
      leave_music_room, music_chat_message, music_voice_message,
      music_uploaded, play_track, toggle_playback;
    repeat case_match; same_conn).
  - unfold join_room. destruct (rooms st !! roomName) as [room|]; [|same_conn].
    destruct (password_refused room c password); [same_conn|].
    destruct (room_full room); [same_conn|].
    destruct (quit_current_room (rooms st) sid c true) as [rs1 out1]. same_conn.
  - unfold join_music_room. destruct (musicRooms st !! roomId) as [room|]; [|same_conn].
    case_match; [same_conn|].
    destruct (quit_current_music_room (musicRooms st) sid c true) as [ms1 out1]. same_conn.
  - unfold disconnect.
    destruct (quit_current_room (rooms st) sid c false) as [rs1 out1].
    destruct (quit_current_music_room (musicRooms st) sid c false) as [ms1 out2].
    same_conn.
Qed.

Lemma music_room_evolves_refl sid room : music_room_evolves sid (Some room) room.
Proof. unfold music_room_evolves. set_solver. Qed.

Lemma quit_current_music_room_evolves ms sid c b id room' :
  (quit_current_music_room ms sid c b).1 !! id = Some room' →
  ∃ room, ms !! id = Some room
    ∧ MusicRoom.maxUsers room' = MusicRoom.maxUsers room
    ∧ (MusicRoom.users room' = MusicRoom.users room
       ∨ (id = currentMusicRoom c ∧ MusicRoom.users room' = MusicRoom.users room ∖ {[sid]})).
Proof.
  unfold quit_current_music_room.
  destruct (truthy_str (currentMusicRoom c)); [|cbn; eauto 10].
  destruct (ms !! currentMusicRoom c) as [prev|] eqn:Hp; [|cbn; eauto 10].
  cbn. rewrite lookup_insert. case_decide as Hd.
  - intros [= <-]. subst id. exists prev. cbn. eauto 10.
  - eauto 10.
Qed.

Ltac same_music_room :=
  cbn; intros ->; apply music_room_evolves_refl.

Ltac updated_music_room Hr :=
  cbn; rewrite lookup_insert; case_decide;
  [ intros [= <-]; subst; rewrite Hr; cbn; split_and!; [done|set_solver..]
  | same_music_room ].

Lemma step_music_room_evolves st e id room' :
  musicRooms (step st e).1 !! id = Some room' →
  music_room_evolves (origin e) (musicRooms st !! id) room'.
Proof.
  destruct e as [sid|sid env r]; cbn [step origin].
  { destruct (conns st !! sid); same_music_room. }
  destruct (conns st !! sid) as [c|]; [|same_music_room].
  destruct r; cbn [handle].
  all: try (unfold user_join, get_room_list, create_room, join_room, leave_room,
      chat_message, delete_message, get_music_room_list;
    repeat case_match; same_music_room).
  - (* create music room *)
    unfold create_music_room.
    destruct (musicRooms st !! music_room_id roomName env) as [room|] eqn:Hr;
      [same_music_room|].
    cbn. rewrite lookup_insert. case_decide as Hd.
    + intros [= <-]. subst. by rewrite Hr.
    + same_music_room.
  - (* join music room *)
    unfold join_music_room. destruct (musicRooms st !! roomId) as [room|] eqn:Hr;
      [|same_music_room].
    destruct (Qle_bool_spec (MusicRoom.maxUsers room) (users_count (MusicRoom.users room)))
      as [Hf|Hf]; [same_music_room|].
    destruct (quit_current_music_room (musicRooms st) sid c true) as [ms1 out1] eqn:Hq.
    cbn. rewrite lookup_insert. case_decide as Hd.
    + intros [= <-]. subst id. rewrite Hr. cbn.
      destruct (ms1 !! roomId) as [room1|] eqn:Hr1; cbn.
      * pose proof (quit_current_music_room_evolves (musicRooms st) sid c true roomId room1)
          as Hev.
        rewrite Hq in Hev. destruct (Hev Hr1) as (room0 & Hr0 & Hm & Hu).
        assert (room0 = room) as -> by congruence.
        split_and!; [done| | |by right]; set_solver.
      * split_and!; [done| | |by right]; set_solver.
    + intros Hl.
      pose proof (quit_current_music_room_evolves (musicRooms st) sid c true id room') as Hev.
      rewrite Hq in Hev. destruct (Hev Hl) as (room0 & Hr0 & Hm & Hu).
      rewrite Hr0. cbn. split_and!; [done|..]; set_solver.
  - (* leave music room *)
    unfold leave_music_room. destruct (musicRooms st !! roomId) as [room|] eqn:Hr;
      [|same_music_room].
    case_bool_decide; [|same_music_room]. updated_music_room Hr.
  - (* music chat message *)
    unfold music_chat_message. destruct (musicRooms st !! roomId) as [room|] eqn:Hr;
      [|same_music_room].
    case_bool_decide; [|same_music_room]. updated_music_room Hr.
  - (* music voice message *)
    unfold music_voice_message. destruct (musicRooms st !! roomId) as [room|] eqn:Hr;
      [|same_music_room].
    case_bool_decide; [|same_music_room]. updated_music_room Hr.
  - (* music uploaded *)
    unfold music_uploaded. destruct (musicRooms st !! roomId) as [room|] eqn:Hr;
      [|same_music_room].
    case_bool_decide; [|same_music_room]. updated_music_room Hr.
  - (* play track *)
    unfold play_track. destruct (musicRooms st !! roomId) as [room|] eqn:Hr;
      [|same_music_room].
    case_bool_decide; [|same_music_room].
    destruct (find _ _); [|same_music_room]. updated_music_room Hr.
  - (* toggle playback *)
    unfold toggle_playback. destruct (musicRooms st !! roomId) as [room|] eqn:Hr;
      [|same_music_room].
    case_bool_decide; [|same_music_room]. updated_music_room Hr.
  - (* disconnect *)
    unfold disconnect.
    destruct (quit_current_room (rooms st) sid c false) as [rs1 out1].
    destruct (quit_current_music_room (musicRooms st) sid c false) as [ms1 out2] eqn:Hq.
    cbn. intros Hl.
    pose proof (quit_current_music_room_evolves (musicRooms st) sid c false id room') as Hev.
    rewrite Hq in Hev. destruct (Hev Hl) as (room0 & Hr0 & Hm & Hu).
    rewrite Hr0. cbn. split_and!; [done|..]; set_solver.
Qed.

(** *** Invariants of the reachable states *)

Lemma reachable_rooms_wf st : reachable st → rooms_wf st.
Proof.
  revert st. apply reachable_ind; [by intros ??; cbn; rewrite lookup_empty|].
  intros st e _ IH name room' Hl.
  pose proof (step_room_evolves _ _ _ _ Hl) as Hev.
  destruct (rooms st !! name) as [room|] eqn:Hr; cbn in Hev.
  - destruct Hev as (Hm & Hp & _). destruct (IH _ _ Hr) as [? Hnz].
    split; [congruence|]. rewrite Hm. apply Hnz.
  - by destruct Hev.
Qed.

Lemma size_add_le (U X : gset string) s :
  X ⊆ U ∪ {[s]} → (size X ≤ S (size U))%nat.
Proof.
  intros H. apply subseteq_size in H.
  pose proof (size_union_alt U {[s]}) as Hu.
  assert (size ({[s]} ∖ U : gset string) ≤ 1)%nat.
  { etrans; [apply (subseteq_size _ {[s]}); set_solver|]. by rewrite size_singleton. }
  lia.
Qed.

Lemma room_not_full room m :
  room_full room = false → ChatRoom.maxUsers room = Some m → (0 < m)%Q →
  (users_count (ChatRoom.users room) < m)%Q.
Proof.
  unfold room_full. intros Hf Hm Hpos. rewrite Hm in Hf.
  assert (truthy_Q m = true) as Ht.
  { apply truthy_Q_true. intros H0. rewrite H0 in Hpos. by apply Qlt_irrefl in Hpos. }
  rewrite Ht in Hf. cbn in Hf.
  destruct (Qle_bool_spec m (users_count (ChatRoom.users room))); [done|done].
Qed.

Lemma reachable_capacity_kept st : reachable st → capacity_kept st.
Proof.
  revert st. apply reachable_ind.
  { split; intros ??; cbn; rewrite lookup_empty; done. }
  intros st e _ [IHc IHm]. split.
  - intros name room' m Hl Hm Hpos.
    pose proof (step_room_evolves _ _ _ _ Hl) as Hev.
    destruct (rooms st !! name) as [room|] eqn:Hr; cbn in Hev.
    + destruct Hev as (Hm' & _ & _ & Hsub & Hnew). rewrite Hm in Hm'. symmetry in Hm'.
      pose proof (IHc _ _ _ Hr Hm' Hpos) as Hold.
      destruct (decide (origin e ∈ ChatRoom.users room')) as [Hin|Hin].
      * destruct (Hnew Hin) as [Hwas|Hfree].
        -- assert (ChatRoom.users room' ⊆ ChatRoom.users room) as Hs by set_solver.
           apply subseteq_size, users_count_mono in Hs. lra.
        -- pose proof (room_not_full _ _ Hfree Hm' Hpos).
           pose proof (size_add_le _ _ _ Hsub) as Hs.
           rewrite <- Nat.add_1_r in Hs. apply users_count_succ in Hs. lra.
      * assert (ChatRoom.users room' ⊆ ChatRoom.users room) as Hs by set_solver.
        apply subseteq_size, users_count_mono in Hs. lra.
    + destruct Hev as [-> _]. rewrite users_count_empty. lra.
  - intros id room' Hl Hpos.
    pose proof (step_music_room_evolves _ _ _ _ Hl) as Hev.
    destruct (musicRooms st !! id) as [room|] eqn:Hr; cbn in Hev.
    + destruct Hev as (Hm' & _ & Hsub & Hnew). rewrite Hm' in *.
      pose proof (IHm _ _ Hr Hpos) as Hold.
      destruct (decide (origin e ∈ MusicRoom.users room')) as [Hin|Hin].
      * destruct (Hnew Hin) as [Hwas|Hfree].
        -- assert (MusicRoom.users room' ⊆ MusicRoom.users room) as Hs by set_solver.
           apply subseteq_size, users_count_mono in Hs. lra.
        -- pose proof (size_add_le _ _ _ Hsub) as Hs.
           rewrite <- Nat.add_1_r in Hs. apply users_count_succ in Hs. lra.
      * assert (MusicRoom.users room' ⊆ MusicRoom.users room) as Hs by set_solver.
        apply subseteq_size, users_count_mono in Hs. lra.
    + rewrite Hev, users_count_empty. lra.
Qed.

(** *** Joining a chat room *)

Lemma password_refused_true room c password :
  room_wf room →
  password_refused room c password = true ↔
  ∃ pw, ChatRoom.password room = Some pw ∧ currentUser c ≠ ChatRoom.creator room
        ∧ password ≠ Some pw.
Proof.
  intros [Hpw _]. unfold password_refused.
  rewrite !andb_true_iff, orb_true_iff, negb_true_iff, !bool_decide_eq_true.
  destruct (ChatRoom.password room) as [pw|] eqn:E; simpl.
  - unfold truthy_str. rewrite negb_true_iff, bool_decide_eq_false. split.
    + intros [[_ Hcr] Hp]. exists pw. split_and!; [done|congruence|].
      destruct Hp as [Hp|Hp]; [|done]. intros ->. simpl in Hp.
      unfold truthy_str in Hp. apply negb_false_iff, bool_decide_eq_true in Hp. congruence.
    + intros (pw' & [= <-] & Hcr & Hp). split_and!; [congruence|congruence|by right].
  - split; [intros [[? _] _]; done|]. intros (? & ? & _); done.
Qed.

Lemma room_full_true room :
  room_wf room →
  room_full room = true ↔
  ∃ m, ChatRoom.maxUsers room = Some m ∧ (m <= users_count (ChatRoom.users room))%Q.
Proof.
  intros [_ Hm]. unfold room_full.
  destruct (ChatRoom.maxUsers room) as [m|] eqn:E.
  - rewrite andb_true_iff, truthy_Q_true, Qle_bool_iff.
    split; [intros [_ ?]; eauto|]. intros (? & [= <-] & ?). split; [by apply Hm|done].
  - split; [done|]. intros (? & ? & _); done.
Qed.

Lemma quit_current_room_no_error rs sid c b e to :
  Emit to (RoomJoinError e) ∉ (quit_current_room rs sid c b).2.
Proof.
  unfold quit_current_room.
  destruct (truthy_str (currentRoom c)); [|set_solver].
  destruct (rs !! currentRoom c); [|set_solver].
  destruct b; cbn; intros Hin;
    repeat (apply elem_of_cons in Hin as [Hin|Hin]; [discriminate|]);
    by apply elem_of_nil in Hin.
Qed.

Lemma join_room_accepted st sid c roomName password room :
  rooms st !! roomName = Some room →
  password_refused room c password = false → room_full room = false →
  ∃ st' room' out,
    join_room st sid c roomName password = (st', out)
    ∧ rooms st' !! roomName = Some room'
    ∧ sid ∈ ChatRoom.users room'
    ∧ (currentRoom <$> conns st' !! sid) = Some roomName
    ∧ Emit sid (RoomJoinSuccess roomName (size (ChatRoom.users room'))
                  (ChatRoom.maxUsers room')) ∈ out
    ∧ ∀ e to, Emit to (RoomJoinError e) ∉ out.
Proof.
  intros Hr Hp Hf. unfold join_room. rewrite Hr, Hp, Hf.
  pose proof (quit_current_room_no_error (rooms st) sid c true) as Hq.
  destruct (quit_current_room (rooms st) sid c true) as [rs1 out1].
  do 3 eexists. split; [done|]. cbn.
  rewrite !lookup_insert_eq. split_and!; [done| |done| |].
  - cbn. set_solver.
  - set_solver.
  - intros e to Hin. cbn in Hq. apply elem_of_app in Hin as [Hin|Hin].
    { by apply (Hq e to). }
    repeat (apply elem_of_cons in Hin as [Hin|Hin]; [discriminate|]).
    apply list_elem_of_fmap in Hin as (? & ? & _). discriminate.
Qed.

Lemma join_room_refused_password st sid c roomName password room :
  rooms st !! roomName = Some room → password_refused room c password = true →
  join_room st sid c roomName password = (st, [Emit sid (RoomJoinError WrongPassword)]).
Proof. intros Hr Hp. unfold join_room. by rewrite Hr, Hp. Qed.

Lemma join_room_refused_full st sid c roomName password room m :
  rooms st !! roomName = Some room → password_refused room c password = false →
  ChatRoom.maxUsers room = Some m → ¬ (m == 0)%Q →
  (m <= users_count (ChatRoom.users room))%Q →
  join_room st sid c roomName password = (st, [Emit sid (RoomJoinError (RoomFull m))]).
Proof.
  intros Hr Hp Hm Hnz Hle. unfold join_room. rewrite Hr, Hp.
  unfold room_full. rewrite Hm.
  apply truthy_Q_true in Hnz. rewrite Hnz. cbn.
  destruct (Qle_bool_spec m (users_count (ChatRoom.users room))); [done|lra].
Qed.

(** C1.  In a reachable state, a ['join room'] request is answered with
    a rejection, sent to the requester alone and leaving the server as
    it was, exactly when the specification says so ([JoinRejected]): the
    room does not exist; else it has a password, the requester is not
    its creator and the password supplied is absent or different; else
    its capacity is set and already reached; in that order.  When none
    of these applies the requester becomes a member of the room, its
    [currentRoom] names it, and it is told of the success. *)
Theorem join_room_rejected_exactly st sid c env roomName password :
  reachable st →
  conns st !! sid = Some c →
  let res := step st (Req sid env (JoinRoom roomName password)) in
  (∀ e, JoinRejected st c roomName password e ↔
        res = (st, [Emit sid (RoomJoinError e)]))
  ∧ ((∀ e, ¬ JoinRejected st c roomName password e) →
     ∃ room', rooms res.1 !! roomName = Some room'
       ∧ sid ∈ ChatRoom.users room'
       ∧ (currentRoom <$> conns res.1 !! sid) = Some roomName
       ∧ Emit sid (RoomJoinSuccess roomName (size (ChatRoom.users room'))
                     (ChatRoom.maxUsers room')) ∈ res.2
       ∧ ∀ e to, Emit to (RoomJoinError e) ∉ res.2).
Proof.
  intros Hreach Hc res. pose proof (reachable_rooms_wf _ Hreach) as Hwf.
  subst res. rewrite (step_req _ _ _ _ _ Hc). cbn [handle].
  destruct (rooms st !! roomName) as [room|] eqn:Hr.
  2:{ assert (Hres : join_room st sid c roomName password
                     = (st, [Emit sid (RoomJoinError RoomNotFound)])).
      { unfold join_room. by rewrite Hr. }
      rewrite Hres. split.
      - intros e. split.
        + inversion 1; congruence.
        + intros [= <-]. by constructor.
      - intros Hno. destruct (Hno RoomNotFound). by constructor. }
  pose proof (Hwf _ _ Hr) as Hw.
  destruct (password_refused room c password) eqn:Hp.
  { assert (Hres : join_room st sid c roomName password
                   = (st, [Emit sid (RoomJoinError WrongPassword)])).
    { unfold join_room. by rewrite Hr, Hp. }
    apply (password_refused_true _ _ _ Hw) in Hp as (pw & Hpw & Hcr & Hne).
    assert (JoinRejected st c roomName password WrongPassword) as Hrej.
    { econstructor; eauto. }
    rewrite Hres. split.
    - intros e. split.
      + inversion 1; subst; try congruence.
        match goal with H : ∀ pw, _ → _ ∨ _ |- _ =>
          destruct (H pw) as [?|?]; congruence end.
      + by intros [= <-].
    - intros Hno. by destruct (Hno _ Hrej). }
  assert (Hpass : ∀ pw, ChatRoom.password room = Some pw →
                        currentUser c = ChatRoom.creator room ∨ password = Some pw).
  { intros pw Hpw.
    destruct (decide (currentUser c = ChatRoom.creator room)); [by left|].
    destruct (decide (password = Some pw)); [by right|].
    assert (password_refused room c password = true); [|congruence].
    apply (password_refused_true _ _ _ Hw). eauto. }
  destruct (room_full room) eqn:Hf.
  { pose proof Hf as Hf'.
    apply (room_full_true _ Hw) in Hf' as (m & Hm & Hle).
    assert (Hres : join_room st sid c roomName password
                   = (st, [Emit sid (RoomJoinError (RoomFull m))])).
    { unfold join_room. by rewrite Hr, Hp, Hf, Hm. }
    assert (JoinRejected st c roomName password (RoomFull m)) as Hrej.
    { econstructor; eauto. }
    rewrite Hres. split.
    - intros e. split.
      + inversion 1; subst; try congruence.
        match goal with H : ChatRoom.password _ = Some ?pw |- _ =>
          destruct (Hpass pw) as [?|?]; [congruence..|] end.
        match goal with H : _ ∨ _ |- _ => destruct H; congruence end.
      + by intros [= <-].
    - intros Hno. by destruct (Hno _ Hrej). }
  destruct (join_room_accepted st sid c roomName password room Hr Hp Hf)
    as (st' & room' & out & Hres & Hr' & Hin & Hcur & Hok & Hnoerr).
  rewrite Hres. split.
  - intros e. split.
    + inversion 1; subst; try congruence.
      * assert (password_refused room c password = true); [|congruence].
        apply (password_refused_true _ _ _ Hw).
        match goal with H : _ ∨ _ |- _ => destruct H end; naive_solver.
      * assert (room_full room = true); [|congruence].
        apply (room_full_true _ Hw). naive_solver.
    + intros [= -> ->]. destruct (Hnoerr e sid). by left.
  - intros _. exists room'. done.
Qed.

(** The theorem at a request, by "bob", for a room that does not exist. *)
Lemma join_room_rejected_exactly_witness :
  let st := run init in_room_A in
  step st (Req "y" (at_time 9) (JoinRoom "B" None))
  = (st, [Emit "y" (RoomJoinError RoomNotFound)]).
Proof.
  intros st.
  apply (join_room_rejected_exactly st "y" (mkConn "bob" "" "") (at_time 9) "B" None).
  - by exists in_room_A.
  - by vm_compute.
  - constructor. by vm_compute.
Defined.

(** *** One chat room per connection *)

Ltac tracked_frame Htr :=
  let name := fresh "name" in let room := fresh "room" in let s := fresh "s" in
  let Hl := fresh "Hl" in let Hin := fresh "Hin" in
  intros name room s Hl Hin; cbn in *;
  destruct (Htr _ _ _ Hl Hin) as (? & ? & ?);
  rewrite ?lookup_insert; repeat case_decide; simplify_eq; eauto.

Lemma step_tracked st e : tracked st → orderly st e → tracked (step st e).1.
Proof.
  intros [H0 Htr] Hord. destruct e as [sid|sid env r]; cbn [step].
  { destruct (conns st !! sid) as [c|] eqn:Hc; [done|].
    split; [done|]. tracked_frame Htr. }
  destruct (conns st !! sid) as [c|] eqn:Hc; [|done].
  destruct r; cbn [handle].
  - (* user join *) split; [done|]. tracked_frame Htr.
  - done.
  - (* create room *)
    unfold create_room. destruct (rooms st !! roomName) as [room|] eqn:Hr; [done|].
    cbn in Hord. split; cbn.
    + by rewrite lookup_insert_ne.
    + intros name room s. rewrite lookup_insert.
      destruct (decide (roomName = name)) as [Hn|Hn].
      * intros [= <-]. cbn. set_solver.
      * apply Htr.
  - (* join room *)
    unfold join_room. destruct (rooms st !! roomName) as [room|] eqn:Hr; [|done].
    destruct (password_refused room c password); [done|].
    destruct (room_full room); [done|].
    pose proof (quit_current_room_lookup (rooms st) sid c true) as Hq.
    destruct (quit_current_room (rooms st) sid c true) as [rs1 out1]. cbn [fst] in Hq.
    assert (roomName ≠ "") as Hne by (intros ->; congruence).
    split; cbn.
    + rewrite lookup_insert_ne by done. rewrite Hq. destruct (decide (_ ∧ _)) as [Hd|Hd]; [|done].
      by rewrite H0.
    + intros name room' s. rewrite lookup_insert. destruct (decide (roomName = name)) as [Hn|Hn].
      * intros [= <-]. subst name. cbn. intros Hin.
        destruct (decide (s = sid)) as [->|Hs].
        { rewrite lookup_insert_eq. eauto. }
        rewrite lookup_insert_ne by done.
        assert (s ∈ ChatRoom.users room) as Hin0.
        { rewrite Hq in Hin. destruct (decide (_ ∧ _)); rewrite Hr in Hin; cbn in Hin; set_solver. }
        apply (Htr _ _ _ Hr Hin0).
      * rewrite Hq. destruct (decide (_ ∧ _)) as [Hd|Hd].
        -- destruct (rooms st !! name) as [room0|] eqn:Hr0; [|done].
           cbn. intros [= <-]. cbn. intros Hin.
           assert (s ≠ sid) by set_solver. rewrite lookup_insert_ne by done.
           apply (Htr _ _ _ Hr0). set_solver.
        -- intros Hl Hin. destruct (Htr _ _ _ Hl Hin) as (c0 & Hc0 & Hcur).
           destruct (decide (s = sid)) as [->|Hs]; [|rewrite lookup_insert_ne by done; eauto].
           assert (c0 = c) as -> by congruence. destruct Hd. split; [done|].
           rewrite Hcur. intros ->. congruence.
  - (* leave room *)
    unfold leave_room. cbn in Hord. specialize (Hord _ Hc).
    destruct (rooms st !! roomName) as [room|] eqn:Hr.
    + case_bool_decide as Hmem; cbn.
      * split; cbn.
        -- rewrite lookup_insert_ne; [done|]. intros ->. congruence.
        -- intros name room' s. rewrite lookup_insert. destruct (decide (roomName = name)) as [Hn|Hn].
           ++ intros [= <-]. subst name. cbn. intros Hin.
              assert (s ≠ sid) by set_solver. rewrite lookup_insert_ne by done.
              apply (Htr _ _ _ Hr). set_solver.
           ++ intros Hl Hin. destruct (Htr _ _ _ Hl Hin) as (c0 & Hc0 & Hcur).
              destruct (decide (s = sid)) as [->|Hs]; [|rewrite lookup_insert_ne by done; eauto].
              assert (c0 = c) as -> by congruence.
              destruct Hord as [Ho|Ho]; [|congruence].
              rewrite Ho in Hcur. subst name. congruence.
      * split; [done|]. cbn. intros name room' s Hl Hin.
        destruct (Htr _ _ _ Hl Hin) as (c0 & Hc0 & Hcur).
        destruct (decide (s = sid)) as [->|Hs]; [|rewrite lookup_insert_ne by done; eauto].
        assert (c0 = c) as -> by congruence.
        destruct Hord as [Ho|Ho].
        -- rewrite Ho in Hcur. subst name. congruence.
        -- assert (name = roomName) as -> by congruence.
           assert (room' = room) as -> by congruence. done.
    + split; [done|]. cbn. intros name room' s Hl Hin.
      destruct (Htr _ _ _ Hl Hin) as (c0 & Hc0 & Hcur).
      destruct (decide (s = sid)) as [->|Hs]; [|rewrite lookup_insert_ne by done; eauto].
      assert (c0 = c) as -> by congruence.
      destruct Hord as [Ho|Ho]; [rewrite Ho in Hcur; subst name|]; congruence.
  - (* chat message *)
    unfold chat_message. destruct (rooms st !! roomName) as [room|] eqn:Hr; [|done].
    case_bool_decide; [|done]. split; cbn.
    + rewrite lookup_insert_ne; [done|]. intros ->. congruence.
    + intros name room' s. rewrite lookup_insert. destruct (decide (roomName = name)) as [Hn|Hn]; [|apply Htr].
      intros [= <-]. subst name. cbn. apply (Htr _ _ _ Hr).
  - (* delete message *)
    unfold delete_message. destruct (rooms st !! roomName) as [room|] eqn:Hr; [|done].
    case_bool_decide; cbn [negb]; [|done].
    destruct (findIndex messageId (ChatRoom.messages room)) as [[i m]|]; [|done].
    case_bool_decide; [done|]. split; cbn.
    + rewrite lookup_insert_ne; [done|]. intros ->. congruence.
    + intros name room' s. rewrite lookup_insert. destruct (decide (roomName = name)) as [Hn|Hn]; [|apply Htr].
      intros [= <-]. subst name. cbn. apply (Htr _ _ _ Hr).
  - done.
  - unfold create_music_room. by case_match.
  - (* join music room *)
    unfold join_music_room. destruct (musicRooms st !! roomId) as [room|]; [|done].
    case_match; [done|].
    destruct (quit_current_music_room (musicRooms st) sid c true) as [ms1 out1].
    split; [done|]. tracked_frame Htr.
  - (* leave music room *)
    unfold leave_music_room.
    destruct (musicRooms st !! roomId) as [room|]; [case_bool_decide|];
      (split; [done|]; tracked_frame Htr).
  - unfold music_chat_message. by repeat case_match.
  - unfold music_voice_message. by repeat case_match.
  - unfold music_uploaded. by repeat case_match.
  - unfold play_track. by repeat case_match.
  - unfold toggle_playback. by repeat case_match.
  - (* disconnect *)
    unfold disconnect.
    pose proof (quit_current_room_lookup (rooms st) sid c false) as Hq.
    destruct (quit_current_room (rooms st) sid c false) as [rs1 out1]. cbn [fst] in Hq.
    destruct (quit_current_music_room (musicRooms st) sid c false) as [ms1 out2].
    split; cbn.
    + rewrite Hq. destruct (decide (_ ∧ _)); [by rewrite H0|done].
    + intros name room' s. rewrite Hq. destruct (decide (_ ∧ _)) as [Hd|Hd].
      * destruct (rooms st !! name) as [room0|] eqn:Hr0; [|done].
        cbn. intros [= <-]. cbn. intros Hin.
        assert (s ≠ sid) by set_solver. rewrite lookup_delete_ne by done.
        apply (Htr _ _ _ Hr0). set_solver.
      * intros Hl Hin. destruct (Htr _ _ _ Hl Hin) as (c0 & Hc0 & Hcur).
        destruct (decide (s = sid)) as [->|Hs]; [|rewrite lookup_delete_ne by done; eauto].
        assert (c0 = c) as -> by congruence. destruct Hd. split; [done|].
        rewrite Hcur. intros ->. congruence.
Qed.

Lemma orderly_run_tracked es : ∀ st, tracked st → orderly_run st es → tracked (run st es).
Proof.
  induction es as [|e es IH]; intros st Ht Ho; [done|].
  destruct Ho as [Ho1 Ho2].
  change (run st (e :: es)) with (run (step st e).1 es).
  apply IH; [by apply step_tracked|done].
Qed.

(** As long as no chat room is given the empty name and every ['leave
    room'] names the room its sender's [currentRoom] refers to, an id is
    in the [users] of at most one chat room. *)
Lemma one_room_when_orderly es A B roomA roomB s :
  orderly_run init es →
  rooms (run init es) !! A = Some roomA → rooms (run init es) !! B = Some roomB →
  s ∈ ChatRoom.users roomA → s ∈ ChatRoom.users roomB → A = B.
Proof.
  intros Ho HA HB HinA HinB.
  assert (tracked init) as Hi by (split; [done|]; intros ???; cbn; by rewrite lookup_empty).
  destruct (orderly_run_tracked es init Hi Ho) as [_ Htr].
  destruct (Htr _ _ _ HA HinA) as (c & Hc & <-).
  destruct (Htr _ _ _ HB HinB) as (c' & Hc' & <-). congruence.
Qed.

(** The empty name, by itself, is enough to break it: [currentRoom] then
    holds a name and still tests false. *)
Lemma empty_room_name_keeps_old_room :
  let st := run init [Connect "x";
                      Req "x" (at_time 1) (CreateRoom "" None None);
                      Req "x" (at_time 2) (CreateRoom "C" None None);
                      Req "x" (at_time 3) (JoinRoom "" None);
                      Req "x" (at_time 4) (JoinRoom "C" None)] in
  (elements <$> (ChatRoom.users <$> rooms st !! "")) = Some ["x"]
  ∧ (elements <$> (ChatRoom.users <$> rooms st !! "C")) = Some ["x"].
Proof. split; by vm_compute. Qed.

(** C2.  On the code a connection can be in the [users] of two chat
    rooms.  "x" is in room "A" and asks to leave "B", which does not
    exist; ['leave room'] empties [currentRoom] all the same, so the
    ['join room'] for "C" that follows finds no previous room to take
    "x" out of: "x" is then in "A" and in "C", and nothing was sent to
    "A". *)
Theorem join_after_foreign_leave_keeps_old_room :
  let st := run init (in_room_A ++ [Req "x" (at_time 5) (LeaveRoom "B")]) in
  let res := step st (Req "x" (at_time 6) (JoinRoom "C" None)) in
  (∃ roomA, rooms st !! "A" = Some roomA ∧ "x" ∈ ChatRoom.users roomA)
  ∧ (∃ roomA roomC,
       rooms res.1 !! "A" = Some roomA ∧ rooms res.1 !! "C" = Some roomC
       ∧ "x" ∈ ChatRoom.users roomA ∧ "x" ∈ ChatRoom.users roomC)
  ∧ res.2 = [SockJoin "x" "C";
             Emit "x" (RoomJoinSuccess "C" 1 None);
             ToOthers "x" "C" (UserJoinedRoom "ann" 1);
             Emit "x" (RoomUserCount 1 None)].
Proof.
  cbv zeta. split_and!.
  - eexists. split; [vm_compute; reflexivity|].
    apply (bool_decide_unpack _). by vm_compute.
  - eexists _, _. split_and!; [vm_compute; reflexivity..| |];
      apply (bool_decide_unpack _); by vm_compute.
  - by vm_compute.
Qed.

(** *** Capacity *)

(** C3, as amended.  In every reachable state a chat room whose
    [maxUsers] is set to a positive number, and a music room whose
    [maxUsers] is positive, has fewer than [maxUsers + 1] occupants,
    hence at most [maxUsers] when [maxUsers] is a whole number; a join
    request that finds such a room with its capacity reached is refused
    and changes nothing: a music room answers [RoomFull]; a chat room
    answers [RoomFull] when the password check, which comes first, lets
    the requester through, and [WrongPassword] otherwise. *)
Theorem capacity_never_exceeded st :
  reachable st →
  (∀ name room m,
     rooms st !! name = Some room → ChatRoom.maxUsers room = Some m → (0 < m)%Q →
     (users_count (ChatRoom.users room) < m + 1)%Q
     ∧ (∀ z : Z, (m == inject_Z z)%Q → Z.of_nat (size (ChatRoom.users room)) ≤ z)
     ∧ ∀ sid c env password,
         conns st !! sid = Some c → (m <= users_count (ChatRoom.users room))%Q →
         ∃ e, step st (Req sid env (JoinRoom name password))
              = (st, [Emit sid (RoomJoinError e)])
            ∧ (e = WrongPassword ∨ e = RoomFull m)
            ∧ (e = RoomFull m ↔
               ∀ pw, ChatRoom.password room = Some pw →
                     currentUser c = ChatRoom.creator room ∨ password = Some pw))
  ∧ (∀ id room,
       musicRooms st !! id = Some room → (0 < MusicRoom.maxUsers room)%Q →
       (users_count (MusicRoom.users room) < MusicRoom.maxUsers room + 1)%Q
       ∧ (∀ z : Z, (MusicRoom.maxUsers room == inject_Z z)%Q →
                   Z.of_nat (size (MusicRoom.users room)) ≤ z)
       ∧ ∀ sid c env,
           conns st !! sid = Some c →
           (MusicRoom.maxUsers room <= users_count (MusicRoom.users room))%Q →
           step st (Req sid env (JoinMusicRoom id))
           = (st, [Emit sid (MusicRoomJoinError (RoomFull (MusicRoom.maxUsers room)))])).
Proof.
  intros Hreach. destruct (reachable_capacity_kept _ Hreach) as [Hc Hm].
  pose proof (reachable_rooms_wf _ Hreach) as Hwf. split.
  - intros name room m Hr Hmax Hpos.
    pose proof (Hc _ _ _ Hr Hmax Hpos) as Hlt.
    split; [done|]. split.
    { intros z Hz. apply users_count_whole. by rewrite <- Hz. }
    intros sid c env password Hconn Hfull. rewrite (step_req _ _ _ _ _ Hconn). cbn [handle].
    assert (Hnz : ¬ (m == 0)%Q).
    { intros H0. rewrite H0 in Hpos. by apply Qlt_irrefl in Hpos. }
    destruct (password_refused room c password) eqn:Hp.
    + exists WrongPassword. split; [by eapply join_room_refused_password|].
      split; [by left|]. split; [done|]. intros Hpass.
      apply (password_refused_true _ _ _ (Hwf _ _ Hr)) in Hp as (pw & Hpw & Hcr & Hne).
      destruct (Hpass _ Hpw); congruence.
    + exists (RoomFull m). split; [by eapply join_room_refused_full|].
      split; [by right|]. split; [|done]. intros _ pw Hpw.
      destruct (decide (currentUser c = ChatRoom.creator room)); [by left|].
      destruct (decide (password = Some pw)); [by right|].
      assert (password_refused room c password = true); [|congruence].
      apply (password_refused_true _ _ _ (Hwf _ _ Hr)). eauto.
  - intros id room Hr Hpos.
    pose proof (Hm _ _ Hr Hpos) as Hlt.
    split; [done|]. split.
    { intros z Hz. apply users_count_whole. by rewrite <- Hz. }
    intros sid c env Hconn Hfull. rewrite (step_req _ _ _ _ _ Hconn). cbn [handle].
    unfold join_music_room. rewrite Hr.
    destruct (Qle_bool_spec (MusicRoom.maxUsers room) (users_count (MusicRoom.users room)));
      [done|lra].
Qed.

(** The theorem at a full room of capacity one. *)
Lemma capacity_never_exceeded_witness :
  let st := run init [Connect "x"; Connect "y";
                      Req "x" (at_time 3) (CreateRoom "den" (Some 1%Q) None);
                      Req "x" (at_time 4) (JoinRoom "den" None)] in
  step st (Req "y" (at_time 5) (JoinRoom "den" None))
  = (st, [Emit "y" (RoomJoinError (RoomFull 1%Q))]).
Proof.
  intros st.
  assert (Hreach : reachable st) by (eexists; reflexivity).
  destruct (capacity_never_exceeded st Hreach) as [Hchat _].
  destruct (Hchat "den" (ChatRoom.mk "den" {["x"]} [] (Some 1%Q) None "" 3) 1%Q)
    as (_ & _ & Hjoin); [by vm_compute|done|reflexivity|].
  destruct (Hjoin "y" (mkConn "" "" "") (at_time 5) None) as (e & Hstep & _ & Hiff);
    [by vm_compute|by vm_compute|].
  rewrite Hstep. assert (e = RoomFull 1%Q) as ->; [|done].
  apply Hiff. intros pw. discriminate.
Defined.

(** C3 as stated fails three times over.  A room created with
    [maxUsers = -1] has its capacity set and, empty, already holds more
    than that.  A room created with [maxUsers = 2.5] lets a third
    occupant in, since two are fewer than 2.5.  And a full room that has
    a password turns away a stranger with the wrong password by
    [WrongPassword], not by [RoomFull]. *)
Lemma capacity_claim_fails :
  (let st := run init [Connect "x";
                       Req "x" (at_time 5) (CreateRoom "lobby" (Some (-1)%Q) None)] in
   ∃ room, rooms st !! "lobby" = Some room
     ∧ ChatRoom.maxUsers room = Some (-1)%Q
     ∧ ¬ (users_count (ChatRoom.users room) <= -1)%Q)
  ∧ (let st := run init [Connect "x"; Connect "y"; Connect "z";
                         Req "x" (at_time 1) (CreateRoom "trio" (Some (5 # 2)%Q) None);
                         Req "x" (at_time 2) (JoinRoom "trio" None);
                         Req "y" (at_time 3) (JoinRoom "trio" None);
                         Req "z" (at_time 4) (JoinRoom "trio" None)] in
     ∃ room, rooms st !! "trio" = Some room
       ∧ ChatRoom.maxUsers room = Some (5 # 2)%Q
       ∧ ChatRoom.users room = {["x"; "y"; "z"]}
       ∧ size (ChatRoom.users room) = 3%nat
       ∧ ¬ (users_count (ChatRoom.users room) <= 5 # 2)%Q)
  ∧ (let st := run init [Connect "x"; Connect "y";
                         Req "x" (at_time 1) (UserJoin "ann");
                         Req "y" (at_time 2) (UserJoin "bob");
                         Req "x" (at_time 3) (CreateRoom "den" (Some 1%Q) (Some "pw"));
                         Req "x" (at_time 4) (JoinRoom "den" None)] in
     ∃ room, rooms st !! "den" = Some room
       ∧ ChatRoom.maxUsers room = Some 1%Q
       ∧ size (ChatRoom.users room) = 1%nat
       ∧ step st (Req "y" (at_time 5) (JoinRoom "den" (Some "guess")))
         = (st, [Emit "y" (RoomJoinError WrongPassword)])).
Proof.
  split_and!.
  - eexists. split; [vm_compute; reflexivity|]. split; [reflexivity|].
    vm_compute. intros H. by apply H.
  - eexists. split; [vm_compute; reflexivity|]. split; [reflexivity|].
    split; [apply (bool_decide_unpack _); by vm_compute|].
    split; [by vm_compute|]. vm_compute. intros H. by apply H.
  - eexists. split; [vm_compute; reflexivity|]. split; [reflexivity|].
    split; by vm_compute.
Qed.

(** *** The bounded history *)

Lemma length_last_n {A} n (l : list A) : length (last_n n l) = (length l `min` n)%nat.
Proof. unfold last_n. rewrite length_drop. lia. Qed.

Lemma last_n_all {A} n (l : list A) : (length l ≤ n)%nat → last_n n l = l.
Proof. intros H. unfold last_n. by replace (length l - n)%nat with 0%nat by lia. Qed.

Lemma push_trim_last_n {A} (l : list A) m : push_trim l m = last_n 100 (l ++ [m]).
Proof.
  unfold push_trim. destruct (100 <? length (l ++ [m]))%nat eqn:E; [done|].
  apply Nat.ltb_ge in E. by rewrite last_n_all.
Qed.

Lemma last_n_snoc {A} n (l : list A) m : last_n (S n) (l ++ [m]) = last_n n l ++ [m].
Proof.
  unfold last_n. rewrite length_app. simpl.
  replace (length l + 1 - S n)%nat with (length l - n)%nat by lia.
  rewrite drop_app_le by lia. done.
Qed.

Lemma last_n_last_n {A} k n (l : list A) : (k ≤ n)%nat → last_n k (last_n n l) = last_n k l.
Proof.
  intros H. unfold last_n at 1. rewrite length_last_n. unfold last_n.
  rewrite drop_drop. f_equal. lia.
Qed.

Lemma foldl_push_trim {A} (h : list A) ms :
  ms ≠ [] → foldl push_trim h ms = last_n 100 (h ++ ms).
Proof.
  induction ms as [|m ms IH] using rev_ind; [done|]. intros _.
  rewrite foldl_app. simpl. rewrite push_trim_last_n.
  destruct (decide (ms = [])) as [->|Hne]; [done|].
  rewrite IH by done. rewrite (assoc_L (++)).
  rewrite !(last_n_snoc 99). by rewrite last_n_last_n by lia.
Qed.

Lemma chat_message_accepted st sid c env roomName room message fileData :
  conns st !! sid = Some c → rooms st !! roomName = Some room →
  sid ∈ ChatRoom.users room →
  step st (Req sid env (ChatMessageReq roomName message fileData))
  = let m := ChatMessage.mk (fresh_id env) (currentUser c) message fileData (now env) false in
    (set_rooms st (<[roomName :=
       ChatRoom.with_messages room (push_trim (ChatRoom.messages room) m)]> (rooms st)),
     [ToRoom roomName (ChatMessageEv m)]).
Proof.
  intros Hc Hr Hin. rewrite (step_req _ _ _ _ _ Hc). simpl. unfold chat_message.
  by rewrite Hr, bool_decide_eq_true_2.
Qed.

Lemma run_sends st roomName room (sends : list Send) :
  rooms st !! roomName = Some room →
  (∀ s, s ∈ sends → is_Some (conns st !! sender s) ∧ sender s ∈ ChatRoom.users room) →
  run st (send_event roomName <$> sends)
  = set_rooms st (<[roomName := ChatRoom.with_messages room
       (foldl push_trim (ChatRoom.messages room) (sent_message st <$> sends))]> (rooms st)).
Proof.
  revert st room. induction sends as [|s sends IH]; intros st room Hr Hs.
  - simpl. destruct st, room; simpl in *. unfold set_rooms. simpl.
    f_equal. symmetry. by apply insert_id.
  - destruct (Hs s) as [[c Hc] Hin]; [left|].
    destruct s as [[[sid env] message] fileData]. unfold sender in Hc, Hin.
    cbn [fst] in Hc, Hin.
    rewrite fmap_cons. unfold run. cbn [foldl send_event].
    rewrite (chat_message_accepted _ _ _ _ _ _ _ _ Hc Hr Hin). cbn [fst].
    match goal with |- foldl _ ?s _ = _ =>
      change (run s (send_event roomName <$> sends) =
              set_rooms st (<[roomName := ChatRoom.with_messages room
                (foldl push_trim (ChatRoom.messages room)
                   (sent_message st <$> (sid, env, message, fileData) :: sends))]> (rooms st)))
    end.
    set (m := ChatMessage.mk (fresh_id env) (currentUser c) message fileData (now env) false).
    rewrite (IH _ (ChatRoom.with_messages room (push_trim (ChatRoom.messages room) m))).
    + unfold set_rooms. cbn. rewrite insert_insert_eq, Hc. done.
    + cbn. by rewrite lookup_insert_eq.
    + cbn. intros s' Hs'. apply Hs. by right.
Qed.

(** C4.  After any non-empty sequence of ['chat message'] requests that
    a chat room accepts (each sender is connected and one of its
    [users]), the room's history is the last 100 entries of what it held
    before followed by the messages sent, in the order sent; so it never
    has more than 100 entries, the oldest go first, and a history that
    started empty holds everything sent as long as that is at most 100
    messages. *)
Theorem chat_history_keeps_last_100 st roomName room (sends : list Send) :
  rooms st !! roomName = Some room →
  (∀ s, s ∈ sends → is_Some (conns st !! sender s) ∧ sender s ∈ ChatRoom.users room) →
  sends ≠ [] →
  ∃ room', rooms (run st (send_event roomName <$> sends)) !! roomName = Some room'
    ∧ ChatRoom.messages room'
      = last_n 100 (ChatRoom.messages room ++ (sent_message st <$> sends))
    ∧ (length (ChatRoom.messages room') ≤ 100)%nat
    ∧ (ChatRoom.messages room = [] → (length sends ≤ 100)%nat →
       ChatRoom.messages room' = sent_message st <$> sends).
Proof.
  intros Hr Hs Hne. rewrite (run_sends _ _ _ _ Hr Hs). simpl.
  rewrite lookup_insert_eq. eexists. split; [done|]. simpl.
  rewrite foldl_push_trim by (by destruct sends).
  split_and!; [done| |].
  - rewrite length_last_n. lia.
  - intros -> Hlen. simpl. apply last_n_all. by rewrite length_fmap.
Qed.

(** The theorem at two messages sent to an empty room. *)
Lemma chat_history_keeps_last_100_witness :
  let st := run init in_room_A in
  let sends : list Send := [("x", at_time 5, Some "hello", None);
                            ("x", at_time 6, Some "again", None)] in
  ∃ room', rooms (run st (send_event "A" <$> sends)) !! "A" = Some room'
    ∧ ChatRoom.messages room' = sent_message st <$> sends.
Proof.
  intros st sends.
  destruct (chat_history_keeps_last_100 st "A"
              (ChatRoom.mk "A" {["x"]} [] None None "ann" 2) sends)
    as (room' & Hr & _ & _ & Hall).
  - by vm_compute.
  - intros s Hs. assert (sender s = "x") as ->.
    { repeat (apply elem_of_cons in Hs as [->|Hs]; [done|]). by apply elem_of_nil in Hs. }
    split; [eexists; vm_compute; reflexivity|]. cbn. set_solver.
  - done.
  - exists room'. split; [done|]. apply Hall; [done|]. cbn. lia.
Defined.

(** *** The ids of the messages *)

Lemma after_underscore_app s t :
  no_underscore s → after_underscore (s +:+ "_" +:+ t) = Some t.
Proof.
  induction s as [|a s IH]; simpl;
    [done|].
  intros [Ha Hs]. rewrite bool_decide_eq_false_2 by done. by apply IH.
Qed.

Lemma pretty_N_go_no_underscore x s :
  no_underscore s → no_underscore (pretty_N_go x s).
Proof.
  revert s. induction (N.lt_wf_0 x) as [x _ IH]; intros s Hs.
  assert (x = 0 ∨ 0 < x)%N as [->|?] by lia.
  - by rewrite pretty_N_go_0.
  - rewrite pretty_N_go_step by done. apply IH.
    { by apply N.div_lt. }
    split; [|done]. unfold pretty_N_char. by repeat case_match.
Qed.

Lemma pretty_Z_no_underscore (z : Z) : no_underscore (pretty z).
Proof.
  assert (∀ p : positive, no_underscore (pretty p)) as Hp.
  { intros p. unfold pretty, pretty_positive, pretty, pretty_N.
    case_decide; [done|]. by apply pretty_N_go_no_underscore. }
  destruct z as [|p|p]; unfold pretty, pretty_Z; [done|apply Hp|].
  split; [done|apply Hp].
Qed.

Lemma before_underscore_app s t :
  no_underscore s → before_underscore (s +:+ "_" +:+ t) = s.
Proof.
  induction s as [|a s IH]; simpl; [done|].
  intros [Ha Hs]. rewrite bool_decide_eq_false_2 by done. f_equal. by apply IH.
Qed.







(** *** Deleting a message *)

Lemma findIndex_None mid (ms : list ChatMessage.t) :
  findIndex mid ms = None ↔ ∀ m, m ∈ ms → ChatMessage.id m ≠ mid.
Proof.
  unfold findIndex. rewrite list_find_None, Forall_forall. done.
Qed.

Lemma findIndex_first mid (l1 l2 : list ChatMessage.t) m :
  (∀ x, x ∈ l1 → ChatMessage.id x ≠ mid) → ChatMessage.id m = mid →
  findIndex mid (l1 ++ m :: l2) = Some (length l1, m).
Proof.
  intros Hl1 Hm. unfold findIndex. apply list_find_Some. split_and!.
  - by rewrite list_lookup_middle.
  - done.
  - intros j y Hj Hlt. rewrite lookup_app_l in Hj by done.
    apply Hl1. eapply list_elem_of_lookup_2. done.
Qed.

Lemma delete_message_not_found st sid c env roomName messageId room :
  conns st !! sid = Some c →
  rooms st !! roomName = Some room → sid ∈ ChatRoom.users room →
  (∀ m, m ∈ ChatRoom.messages room → ChatMessage.id m ≠ messageId) →
  step st (Req sid env (DeleteMessage roomName messageId))
  = (st, [Emit sid (DeleteError MessageNotFound)]).
Proof.
  intros Hc Hr Hin Hnone. rewrite (step_req _ _ _ _ _ Hc). simpl.
  unfold delete_message. rewrite Hr, bool_decide_eq_true_2 by done. simpl.
  apply findIndex_None in Hnone. by rewrite Hnone.
Qed.


Lemma delete_middle {A} (l1 l2 : list A) x : delete (length l1) (l1 ++ x :: l2) = l1 ++ l2.
Proof. induction l1; simpl; [done|]. by f_equal. Qed.

(** C5.  A ['delete message'] request fails with [NotAuthorized] when
    the requester is not among the room's [users] (or there is no such
    room); otherwise with [MessageNotFound] when no entry of the history
    has the id; otherwise with [NotAuthor] when the first entry with
    that id was written under another name than the requester's
    [currentUser].  In each case the one thing sent is the error, to the
    requester, and the server state, histories included, is what it
    was. *)
Theorem delete_message_failures st sid c env roomName messageId :
  conns st !! sid = Some c →
  let res := step st (Req sid env (DeleteMessage roomName messageId)) in
  ((∀ room, rooms st !! roomName = Some room → sid ∉ ChatRoom.users room) →
     res = (st, [Emit sid (DeleteError NotAuthorized)]))
  ∧ (∀ room, rooms st !! roomName = Some room → sid ∈ ChatRoom.users room →
     (∀ m, m ∈ ChatRoom.messages room → ChatMessage.id m ≠ messageId) →
     res = (st, [Emit sid (DeleteError MessageNotFound)]))
  ∧ (∀ room l1 m l2, rooms st !! roomName = Some room → sid ∈ ChatRoom.users room →
     ChatRoom.messages room = l1 ++ m :: l2 →
     (∀ x, x ∈ l1 → ChatMessage.id x ≠ messageId) →
     ChatMessage.id m = messageId →
     ChatMessage.username m ≠ currentUser c →
     res = (st, [Emit sid (DeleteError NotAuthor)])).
Proof.
  intros Hc res. subst res. rewrite (step_req _ _ _ _ _ Hc). simpl.
  unfold delete_message. split_and!.
  - intros Hno. destruct (rooms st !! roomName) as [room|] eqn:Hr; [|done].
    rewrite bool_decide_eq_false_2; [done|]. by apply Hno.
  - intros room Hr Hin Hnone.
    pose proof (delete_message_not_found _ _ _ env _ _ _ Hc Hr Hin Hnone) as H.
    by rewrite (step_req _ _ _ _ _ Hc) in H.
  - intros room l1 m l2 Hr Hin Hms Hl1 Hm Hne.
    rewrite Hr, bool_decide_eq_true_2 by done. simpl.
    rewrite Hms, (findIndex_first _ _ _ _ Hl1 Hm).
    by rewrite bool_decide_eq_true_2.
Qed.

(** The theorem at "bob", who is not in room "A". *)
Lemma delete_message_failures_witness :
  let st := run init in_room_A in
  step st (Req "y" (at_time 9) (DeleteMessage "A" "1_k3x9q2m1z"))
  = (st, [Emit "y" (DeleteError NotAuthorized)]).
Proof.
  intros st.
  destruct (delete_message_failures st "y" (mkConn "bob" "" "") (at_time 9) "A" "1_k3x9q2m1z")
    as (Hna & _ & _); [by vm_compute|].
  apply Hna. intros room Hr. vm_compute in Hr. injection Hr as <-.
  apply (bool_decide_unpack _). by vm_compute.
Defined.




(** *** Requests by non-members *)

(** C7.  A ['chat message'] request for a room that does not exist, or
    of which the sender is not an occupant, does nothing: the server
    state is unchanged and nothing is sent to anybody. *)
Theorem chat_message_non_occupant_dropped st sid env roomName message fileData :
  (∀ room, rooms st !! roomName = Some room → sid ∉ ChatRoom.users room) →
  step st (Req sid env (ChatMessageReq roomName message fileData)) = (st, []).
Proof.
  intros Hno. simpl. destruct (conns st !! sid) as [c|]; [|done].
  simpl. unfold chat_message.
  destruct (rooms st !! roomName) as [room|] eqn:Hr; [|done].
  rewrite bool_decide_eq_false_2; [done|]. by apply Hno.
Qed.

(** The theorem at "bob", who is not in room "A". *)
Lemma chat_message_non_occupant_dropped_witness :
  let st := run init in_room_A in
  step st (Req "y" (at_time 9) (ChatMessageReq "A" (Some "hello") None)) = (st, []).
Proof.
  intros st. apply chat_message_non_occupant_dropped.
  intros room Hr. vm_compute in Hr. injection Hr as <-.
  apply (bool_decide_unpack _). by vm_compute.
Defined.

(** C8.  A ['leave room'] request for a room the sender is not in is not
    a no-op on the code.  "x" is in room "A" and asks to leave "B", which
    does not exist: no room changes and nothing is sent, but the
    connection's [currentRoom] goes from "A" to empty, so the server
    state is not what it was. *)
Theorem leave_by_non_member_clears_reference :
  let st := run init in_room_A in
  let res := step st (Req "x" (at_time 5) (LeaveRoom "B")) in
  rooms st !! "B" = None
  ∧ conns st !! "x" = Some (mkConn "ann" "A" "")
  ∧ conns res.1 !! "x" = Some (mkConn "ann" "" "")
  ∧ res.1 ≠ st
  ∧ rooms res.1 = rooms st
  ∧ res.2 = [].
Proof.
  cbv zeta. split_and!; by vm_compute.
Qed.

(** *** Who is in a socket.io room *)

Lemma channel_cmds_untouched out : ∀ ch k,
  (∀ s, SockJoin s k ∉ out) → (∀ s, SockLeave s k ∉ out) →
  foldl channel_cmd ch out k = ch k.
Proof.
  induction out as [|o out IH]; intros ch k Hj Hl; [done|].
  cbn [foldl]. rewrite IH.
  - destruct o; cbn; try done; case_bool_decide; try done; subst.
    + destruct (Hj sid). by left.
    + destruct (Hl sid). by left.
  - intros s Hin. apply (Hj s). by right.
  - intros s Hin. apply (Hl s). by right.
Qed.

Lemma channel_cmds_mono out : ∀ ch k s,
  SockLeave s k ∉ out → s ∈ ch k → s ∈ foldl channel_cmd ch out k.
Proof.
  induction out as [|o out IH]; intros ch k s Hl Hin; [done|].
  cbn [foldl]. apply IH.
  - intros H. apply Hl. by right.
  - destruct o; cbn; try done; case_bool_decide; try done; subst.
    + set_solver.
    + apply elem_of_difference. split; [done|].
      intros ->%elem_of_singleton. apply Hl. by left.
Qed.

Lemma channel_cmds_joined out1 out2 ch k s :
  SockLeave s k ∉ out2 → s ∈ foldl channel_cmd ch (out1 ++ SockJoin s k :: out2) k.
Proof.
  intros Hl. rewrite foldl_app. cbn [foldl]. apply channel_cmds_mono; [done|].
  cbn. rewrite bool_decide_eq_true_2 by done. set_solver.
Qed.

Lemma quit_current_room_channel rs sid c b k :
  rs !! k = None →
  (∀ s, SockJoin s k ∉ (quit_current_room rs sid c b).2)
  ∧ (∀ s, SockLeave s k ∉ (quit_current_room rs sid c b).2).
Proof.
  intros Hk. unfold quit_current_room.
  destruct (truthy_str (currentRoom c)); [|set_solver].
  destruct (rs !! currentRoom c) eqn:Hp; [|set_solver].
  assert (currentRoom c ≠ k) by congruence.
  destruct b; cbn; set_solver.
Qed.

Lemma quit_current_music_room_channel ms sid c b k :
  (∀ s, SockJoin s k ∉ (quit_current_music_room ms sid c b).2)
  ∧ (∀ s, SockLeave s k ∈ (quit_current_music_room ms sid c b).2 →
          s = sid ∧ ∀ room', (quit_current_music_room ms sid c b).1 !! k = Some room' →
                             sid ∉ MusicRoom.users room')
  ∧ (∀ room', (quit_current_music_room ms sid c b).1 !! k = Some room' →
       ∃ room, ms !! k = Some room ∧ MusicRoom.users room' ⊆ MusicRoom.users room).
Proof.
  unfold quit_current_music_room.
  destruct (truthy_str (currentMusicRoom c)); [|cbn; split_and!; [set_solver..|eauto]].
  destruct (ms !! currentMusicRoom c) as [prev|] eqn:Hp;
    [|cbn; split_and!; [set_solver..|eauto]].
  cbn. split_and!.
  - destruct b; set_solver.
  - intros s Hin.
    assert (s = sid ∧ k = currentMusicRoom c) as [-> ->] by (destruct b; set_solver).
    split; [done|]. intros room'. rewrite lookup_insert_eq. intros [= <-]. cbn. set_solver.
  - intros room'. rewrite lookup_insert. case_decide as Hd.
    + intros [= <-]. subst k. exists prev. split; [done|]. cbn. set_solver.
    + eauto.
Qed.

(** One request and the socket.io room named [k], when no chat room has
    that name: who is in the music room [k] afterwards is in the
    socket.io room too, unless it was in the one and not in the other
    before. *)
Lemma handle_channel st sid c env r ch k :
  rooms st !! k = None →
  ∀ room' s,
    musicRooms (handle st sid c env r).1 !! k = Some room' → s ∈ MusicRoom.users room' →
    s ∈ foldl channel_cmd ch (handle st sid c env r).2 k
    ∨ ∃ room, musicRooms st !! k = Some room ∧ s ∈ MusicRoom.users room ∧ s ∉ ch k.
Proof.
  intros Hk.
  assert (Hgen : ∀ res : Server * list Output,
    (∀ room' s, musicRooms res.1 !! k = Some room' → s ∈ MusicRoom.users room' →
       s ∈ foldl channel_cmd ch res.2 k
       ∨ ((∃ room, musicRooms st !! k = Some room ∧ s ∈ MusicRoom.users room)
          ∧ SockLeave s k ∉ res.2)) →
    ∀ room' s, musicRooms res.1 !! k = Some room' → s ∈ MusicRoom.users room' →
      s ∈ foldl channel_cmd ch res.2 k
      ∨ ∃ room, musicRooms st !! k = Some room ∧ s ∈ MusicRoom.users room ∧ s ∉ ch k).
  { intros res H room' s Hr Hin.
    destruct (H room' s Hr Hin) as [?|[(room & Hr0 & Hin0) Hno]]; [by left|].
    destruct (decide (s ∈ ch k)); [left; by apply channel_cmds_mono|right; eauto]. }
  apply Hgen. clear Hgen.
  assert (Hsame : ∀ out, (∀ s, SockLeave s k ∉ out) →
    ∀ room' s, musicRooms st !! k = Some room' → s ∈ MusicRoom.users room' →
       s ∈ foldl channel_cmd ch out k
       ∨ ((∃ room, musicRooms st !! k = Some room ∧ s ∈ MusicRoom.users room)
          ∧ SockLeave s k ∉ out)).
  { intros out Hno room' s Hr Hin. right. split; [eauto|apply Hno]. }
  assert (Hupd : ∀ roomId room room2 out,
    musicRooms st !! roomId = Some room →
    MusicRoom.users room2 = MusicRoom.users room →
    (∀ s, SockLeave s k ∉ out) →
    ∀ room' s, <[roomId := room2]> (musicRooms st) !! k = Some room' →
       s ∈ MusicRoom.users room' →
       s ∈ foldl channel_cmd ch out k
       ∨ ((∃ room, musicRooms st !! k = Some room ∧ s ∈ MusicRoom.users room)
          ∧ SockLeave s k ∉ out)).
  { intros roomId room room2 out Hr Hu Hno room' s Hl Hin. right. split; [|apply Hno].
    rewrite lookup_insert in Hl. case_decide as Hd; [|eauto].
    injection Hl as <-. subst k. exists room. split; [done|]. by rewrite <- Hu. }
  destruct r; cbn [handle].
  - (* user join *) apply Hsame. set_solver.
  - (* get room list *) apply Hsame. set_solver.
  - (* create room *)
    unfold create_room. destruct (rooms st !! roomName); apply Hsame; set_solver.
  - (* join room *)
    unfold join_room. destruct (rooms st !! roomName) as [room|] eqn:Hr;
      [|apply Hsame; set_solver].
    destruct (password_refused room c password); [apply Hsame; set_solver|].
    destruct (room_full room); [apply Hsame; set_solver|].
    pose proof (quit_current_room_channel (rooms st) sid c true k Hk) as [_ Hq].
    destruct (quit_current_room (rooms st) sid c true) as [rs1 out1].
    assert (roomName ≠ k) by congruence.
    apply Hsame. intros s. cbn in Hq. specialize (Hq s). set_solver.
  - (* leave room *)
    unfold leave_room. destruct (rooms st !! roomName) as [room|] eqn:Hr;
      [|apply Hsame; set_solver].
    assert (roomName ≠ k) by congruence.
    case_bool_decide; apply Hsame; set_solver.
  - (* chat message *)
    unfold chat_message. destruct (rooms st !! roomName) as [room|];
      [|apply Hsame; set_solver].
    case_bool_decide; apply Hsame; set_solver.
  - (* delete message *)
    unfold delete_message. destruct (rooms st !! roomName) as [room|];
      [|apply Hsame; set_solver].
    case_bool_decide; cbn [negb]; [|apply Hsame; set_solver].
    destruct (findIndex messageId (ChatRoom.messages room)) as [[i m]|];
      [|apply Hsame; set_solver].
    case_bool_decide; [apply Hsame; set_solver|].
    apply Hsame. unfold attached_file. repeat case_match; set_solver.
  - (* get music room list *) apply Hsame. set_solver.
  - (* create music room *)
    unfold create_music_room.
    destruct (musicRooms st !! music_room_id roomName env) as [room|] eqn:Hr;
      [apply Hsame; set_solver|].
    cbn. intros room' s. rewrite lookup_insert. case_decide as Hd.
    + intros [= <-]. cbn. set_solver.
    + intros Hl Hin. right. split; [eauto|set_solver].
  - (* join music room *)
    unfold join_music_room. destruct (musicRooms st !! roomId) as [room|] eqn:Hr;
      [|apply Hsame; set_solver].
    case_match; [apply Hsame; set_solver|].
    pose proof (quit_current_music_room_channel (musicRooms st) sid c true k)
      as (_ & Hql & Hqu).
    pose proof (quit_current_music_room_channel (musicRooms st) sid c true roomId)
      as (_ & _ & Hqr).
    destruct (quit_current_music_room (musicRooms st) sid c true) as [ms1 out1].
    cbn [fst snd] in *. intros room' s. cbn. rewrite lookup_insert. case_decide as Hd.
    + intros [= <-]. subst k. cbn. intros Hin.
      destruct (decide (s = sid)) as [->|Hne].
      { left. apply channel_cmds_joined. set_solver. }
      right. split.
      * exists room. split; [done|].
        destruct (ms1 !! roomId) as [room1|] eqn:Hr1; cbn in Hin; [|set_solver].
        destruct (Hqr room1 eq_refl) as (room0 & Hr0 & Hsub).
        assert (room0 = room) as -> by congruence. set_solver.
      * intros Hl. apply elem_of_app in Hl as [Hl|Hl]; [|set_solver].
        destruct (Hql s Hl) as [-> _]. done.
    + intros Hl Hin. right. destruct (Hqu room' Hl) as (room0 & Hr0 & Hsub). split.
      * exists room0. split; [done|set_solver].
      * intros Hl'. apply elem_of_app in Hl' as [Hl'|Hl']; [|set_solver].
        destruct (Hql s Hl') as [-> Hout]. by apply (Hout room').
  - (* leave music room *)
    unfold leave_music_room. destruct (musicRooms st !! roomId) as [room|] eqn:Hr;
      [|apply Hsame; set_solver].
    case_bool_decide; [|apply Hsame; set_solver].
    cbn. intros room' s. rewrite lookup_insert. case_decide as Hd.
    + intros [= <-]. subst k. cbn. intros Hin. right. split; [|set_solver].
      exists room. split; [done|set_solver].
    + intros Hl Hin. right. split; [eauto|set_solver].
  - (* music chat message *)
    unfold music_chat_message. destruct (musicRooms st !! roomId) as [room|] eqn:Hr;
      [|apply Hsame; set_solver].
    case_bool_decide; [|apply Hsame; set_solver].
    apply (Hupd roomId room); [done|done|set_solver].
  - (* music voice message *)
    unfold music_voice_message. destruct (musicRooms st !! roomId) as [room|] eqn:Hr;
      [|apply Hsame; set_solver].
    case_bool_decide; [|apply Hsame; set_solver].
    apply (Hupd roomId room); [done|done|set_solver].
  - (* music uploaded *)
    unfold music_uploaded. destruct (musicRooms st !! roomId) as [room|] eqn:Hr;
      [|apply Hsame; set_solver].
    case_bool_decide; [|apply Hsame; set_solver].
    apply (Hupd roomId room); [done|done|set_solver].
  - (* play track *)
    unfold play_track. destruct (musicRooms st !! roomId) as [room|] eqn:Hr;
      [|apply Hsame; set_solver].
    case_bool_decide; [|apply Hsame; set_solver].
    destruct (find _ _); [|apply Hsame; set_solver].
    apply (Hupd roomId room); [done|done|set_solver].
  - (* toggle playback *)
    unfold toggle_playback. destruct (musicRooms st !! roomId) as [room|] eqn:Hr;
      [|apply Hsame; set_solver].
    case_bool_decide; [|apply Hsame; set_solver].
    apply (Hupd roomId room); [done|done|set_solver].
  - (* disconnect *)
    unfold disconnect.
    pose proof (quit_current_room_channel (rooms st) sid c false k Hk) as [_ Hq].
    pose proof (quit_current_music_room_channel (musicRooms st) sid c false k)
      as (_ & Hql & Hqu).
    destruct (quit_current_room (rooms st) sid c false) as [rs1 out1].
    destruct (quit_current_music_room (musicRooms st) sid c false) as [ms1 out2].
    cbn [fst snd] in *. intros room' s Hl Hin. right.
    destruct (Hqu room' Hl) as (room0 & Hr0 & Hsub). split.
    + exists room0. split; [done|set_solver].
    + intros Hl'. apply elem_of_app in Hl' as [Hl'|Hl']; [by apply (Hq s)|].
      destruct (Hql s Hl') as [-> Hout]. by apply (Hout room').
Qed.

Lemma run_channels_snoc es e :
  run_channels (es ++ [e])
  = ((step (run_channels es).1 e).1,
     channels_step (run_channels es).1 (run_channels es).2 e).
Proof. unfold run_channels. by rewrite foldl_app. Qed.

Lemma run_channels_fst es : (run_channels es).1 = run init es.
Proof.
  induction es as [|e es IH] using rev_ind; [done|].
  rewrite run_channels_snoc, run_snoc. cbn. by rewrite IH.
Qed.

Lemma connect_ids_snoc es e : connect_ids (es ++ [e]) = connect_ids es ++ connect_ids [e].
Proof. unfold connect_ids. by rewrite omap_app. Qed.

(** Who is connected, and who is in a music room, has connected. *)
Lemma connected_ids es s : is_Some (conns (run init es) !! s) → s ∈ connect_ids es.
Proof.
  induction es as [|e es IH] using rev_ind.
  { cbn. rewrite lookup_empty. by intros [? ?]. }
  rewrite run_snoc, connect_ids_snoc. intros Hs. apply elem_of_app.
  destruct (decide (origin e = s)) as [<-|Hne].
  - destruct e as [sid|sid env r]; cbn [origin] in *.
    + right. cbn. by left.
    + left. apply IH. cbn [step] in Hs.
      destruct (conns (run init es) !! sid) eqn:E; [eauto|]. cbn in Hs. by rewrite E in Hs.
  - left. apply IH. by rewrite step_conns_other in Hs.
Qed.

Lemma occupants_connected es : ∀ k room s,
  musicRooms (run init es) !! k = Some room → s ∈ MusicRoom.users room →
  s ∈ connect_ids es.
Proof.
  induction es as [|e es IH] using rev_ind.
  { intros k room s. cbn. by rewrite lookup_empty. }
  intros k room' s. rewrite run_snoc, connect_ids_snoc. intros Hl Hin. apply elem_of_app.
  pose proof (step_music_room_evolves _ _ _ _ Hl) as Hev.
  destruct (musicRooms (run init es) !! k) as [room|] eqn:Hr; cbn in Hev.
  2:{ rewrite Hev in Hin. set_solver. }
  destruct Hev as (_ & _ & Hsub & _).
  destruct (decide (s ∈ MusicRoom.users room)); [left; by eapply IH|].
  assert (s = origin e) as -> by set_solver.
  destruct e as [sid|sid env r]; cbn [origin] in *.
  - right. cbn. by left.
  - left. cbn [step] in Hl. destruct (conns (run init es) !! sid) eqn:E.
    + apply connected_ids. eauto.
    + cbn in Hl. rewrite Hr in Hl. by injection Hl as <-.
Qed.

(** As long as no chat room is named like the music room [k] and no
    socket id is handed out twice, the occupants of [k] that are still
    connected are in the socket.io room [k]. *)
Lemma occupants_in_channel es k :
  NoDup (connect_ids es) → rooms (run init es) !! k = None →
  ∀ room s, musicRooms (run init es) !! k = Some room → s ∈ MusicRoom.users room →
    is_Some (conns (run init es) !! s) → s ∈ (run_channels es).2 k.
Proof.
  induction es as [|e es IH] using rev_ind.
  { intros _ _ room s. cbn. by rewrite lookup_empty. }
  rewrite connect_ids_snoc, run_snoc, run_channels_snoc, run_channels_fst. cbn [snd].
  intros Hnd Hk room' s Hl Hin Hconn.
  apply NoDup_app in Hnd as (Hnd & Hfresh & _).
  assert (Hk0 : rooms (run init es) !! k = None).
  { destruct (rooms (run init es) !! k) eqn:E; [|done].
    destruct (step_room_persists (run init es) e k) as [? H']; [eauto|congruence]. }
  specialize (IH Hnd Hk0).
  set (st := run init es) in *. set (ch := (run_channels es).2) in *.
  destruct e as [sid|sid env r]; cbn [step channels_step] in *.
  - destruct (conns st !! sid) as [c0|] eqn:Hc; cbn in *; [by eapply IH|].
    destruct (decide (s = sid)) as [->|Hne].
    + exfalso. apply (Hfresh sid); [|by left]. by eapply occupants_connected.
    + rewrite lookup_insert_ne in Hconn by done.
      case_bool_decide; [|by eapply IH]. apply elem_of_union. left. by eapply IH.
  - destruct (conns st !! sid) as [c|] eqn:Hc; [|by eapply IH].
    assert (Hin1 : s ∈ foldl channel_cmd ch (handle st sid c env r).2 k).
    { destruct (handle_channel st sid c env r ch k Hk0 room' s Hl Hin)
        as [?|(room & Hr & Hin0 & Hout)]; [done|].
      destruct Hout. eapply IH; [done..|].
      destruct (decide (sid = s)) as [<-|Hne]; [eauto|].
      pose proof (step_conns_other st (Req sid env r) s Hne) as Hso.
      cbn [step] in Hso. rewrite Hc in Hso. by rewrite <- Hso. }
    destruct r; try exact Hin1.
    apply elem_of_difference. split; [exact Hin1|]. intros ->%elem_of_singleton.
    cbn [handle] in Hconn. unfold disconnect in Hconn.
    destruct (quit_current_room (rooms st) sid c false) as [rs1 out1].
    destruct (quit_current_music_room (musicRooms st) sid c false) as [ms1 out2].
    cbn in Hconn. rewrite lookup_delete_eq in Hconn. by destruct Hconn.
Qed.

(** *** Playback *)

Lemma toggle_playback_occupant st sid c env roomId room :
  conns st !! sid = Some c → musicRooms st !! roomId = Some room →
  sid ∈ MusicRoom.users room →
  step st (Req sid env (TogglePlayback roomId))
  = let flipped := negb (MusicRoom.isPlaying room) in
    let stamp := if flipped then Some (now env) else MusicRoom.playStartTime room in
    (set_musicRooms st (<[roomId :=
        MusicRoom.with_transport room (MusicRoom.currentTrack room) flipped stamp]>
        (musicRooms st)),
     [ToRoom roomId (PlaybackToggled flipped stamp)]).
Proof.
  intros Hc Hr Hin. rewrite (step_req _ _ _ _ _ Hc). cbn [handle].
  unfold toggle_playback. by rewrite Hr, bool_decide_eq_true_2.
Qed.

Lemma play_track_occupant st sid c env roomId room trackId track :
  conns st !! sid = Some c → musicRooms st !! roomId = Some room →
  sid ∈ MusicRoom.users room →
  List.find (λ t, bool_decide (Track.id t = trackId)) (MusicRoom.playlist room) = Some track →
  step st (Req sid env (PlayTrack roomId trackId))
  = (set_musicRooms st (<[roomId :=
        MusicRoom.with_transport room (Some track) true (Some (now env))]> (musicRooms st)),
     [ToRoom roomId (TrackChanged track true (Some (now env)))]).
Proof.
  intros Hc Hr Hin Hf. rewrite (step_req _ _ _ _ _ Hc). cbn [handle].
  unfold play_track. by rewrite Hr, bool_decide_eq_true_2, Hf.
Qed.

(** C9, as amended.  A ['toggle playback'] request by an occupant of a
    music room flips [isPlaying]; when the flip is to playing,
    [playStartTime] becomes the clock reading of the request, otherwise
    it is kept; the occupants are unchanged and the new flag and stamp
    are sent once, with [io.to(roomId).emit].  After ['play track']
    (stamp [t1]), a toggle (pause) and a second toggle (resume, stamp
    [t2]), [t1] and [t2] are the clock readings of the first and the
    third request, so [t1 < t2] exactly when the clock advanced between
    them.  What is sent reaches every occupant that is still connected,
    provided no chat room has the id of the music room for its name and
    socket.io has handed out no socket id twice. *)
Theorem toggle_playback_restamps st sid c roomId room :
  conns st !! sid = Some c → musicRooms st !! roomId = Some room →
  sid ∈ MusicRoom.users room →
  (∀ env, ∃ room',
     let res := step st (Req sid env (TogglePlayback roomId)) in
     musicRooms res.1 !! roomId = Some room'
     ∧ MusicRoom.isPlaying room' = negb (MusicRoom.isPlaying room)
     ∧ (MusicRoom.isPlaying room' = true → MusicRoom.playStartTime room' = Some (now env))
     ∧ (MusicRoom.isPlaying room' = false →
        MusicRoom.playStartTime room' = MusicRoom.playStartTime room)
     ∧ MusicRoom.users room' = MusicRoom.users room
     ∧ res.2 = [ToRoom roomId (PlaybackToggled (MusicRoom.isPlaying room')
                                               (MusicRoom.playStartTime room'))])
  ∧ (∀ env1 env2 env3 trackId track,
       List.find (λ t, bool_decide (Track.id t = trackId)) (MusicRoom.playlist room)
       = Some track →
       let st1 := (step st (Req sid env1 (PlayTrack roomId trackId))).1 in
       let st2 := (step st1 (Req sid env2 (TogglePlayback roomId))).1 in
       let st3 := (step st2 (Req sid env3 (TogglePlayback roomId))).1 in
       ∃ r1 r2 r3,
         musicRooms st1 !! roomId = Some r1 ∧ musicRooms st2 !! roomId = Some r2
         ∧ musicRooms st3 !! roomId = Some r3
         ∧ MusicRoom.isPlaying r1 = true ∧ MusicRoom.playStartTime r1 = Some (now env1)
         ∧ MusicRoom.isPlaying r2 = false
         ∧ MusicRoom.isPlaying r3 = true ∧ MusicRoom.playStartTime r3 = Some (now env3)
         ∧ (now env1 < now env3 ↔
            ∃ t1 t2, MusicRoom.playStartTime r1 = Some t1
                     ∧ MusicRoom.playStartTime r3 = Some t2 ∧ t1 < t2))
  ∧ (∀ es env s,
       run init es = st → NoDup (connect_ids es) → rooms st !! roomId = None →
       s ∈ MusicRoom.users room → is_Some (conns st !! s) →
       ∀ o, o ∈ (step st (Req sid env (TogglePlayback roomId))).2 →
            s ∈ recipients st (run_channels es).2 o).
Proof.
  intros Hc Hr Hin. split_and!.
  - intros env. rewrite (toggle_playback_occupant _ _ _ _ _ _ Hc Hr Hin). cbn.
    rewrite lookup_insert_eq. eexists. split; [done|]. cbn.
    destruct (MusicRoom.isPlaying room); cbn; split_and!; done.
  - intros env1 env2 env3 trackId track Hf st1 st2 st3.
    subst st3 st2 st1.
    rewrite (play_track_occupant _ _ _ _ _ _ _ _ Hc Hr Hin Hf). cbn [fst].
    set (r1 := MusicRoom.with_transport room (Some track) true (Some (now env1))).
    set (st1 := set_musicRooms st _).
    assert (Hr1 : musicRooms st1 !! roomId = Some r1) by (cbn; by rewrite lookup_insert_eq).
    rewrite (toggle_playback_occupant st1 _ _ _ _ r1 Hc Hr1 Hin). cbn [fst].
    set (r2 := MusicRoom.with_transport r1 _ _ _).
    set (st2 := set_musicRooms st1 _).
    assert (Hr2 : musicRooms st2 !! roomId = Some r2) by (cbn; by rewrite lookup_insert_eq).
    rewrite (toggle_playback_occupant st2 _ _ _ _ r2 Hc Hr2 Hin). cbn [fst].
    set (r3 := MusicRoom.with_transport r2 _ _ _).
    exists r1, r2, r3. split_and!; try done.
    + cbn. by rewrite lookup_insert_eq.
    + split.
      * intros Hlt. exists (now env1), (now env3). done.
      * intros (t1 & t2 & [= <-] & [= <-] & Hlt). done.
  - intros es env s Hes Hnd Hk Hs Hconn o.
    rewrite (toggle_playback_occupant _ _ _ _ _ _ Hc Hr Hin). cbn [snd].
    intros ->%list_elem_of_singleton. cbn [recipients]. subst st.
    by eapply occupants_in_channel.
Qed.

(** The theorem at a room that is not playing. *)
Lemma toggle_playback_restamps_witness :
  let st := run init same_tick_session in
  (∃ room', musicRooms (step st (Req "x" (at_time 2000) (TogglePlayback jam))).1 !! jam
            = Some room'
     ∧ MusicRoom.isPlaying room' = true
     ∧ MusicRoom.playStartTime room' = Some 2000)
  ∧ "x" ∈ recipients st (run_channels same_tick_session).2
            (ToRoom jam (PlaybackToggled true (Some 2000))).
Proof.
  intros st.
  assert (∃ room, musicRooms st !! jam = Some room ∧ "x" ∈ MusicRoom.users room
                  ∧ MusicRoom.isPlaying room = false) as (room & Hr & Hin & Hp).
  { eexists. split; [vm_compute; reflexivity|].
    split; [apply (bool_decide_unpack _); by vm_compute|reflexivity]. }
  destruct (toggle_playback_restamps st "x" (mkConn "" "" jam) jam room)
    as (Htoggle & _ & Hsent); [by vm_compute|exact Hr|exact Hin|].
  split.
  - destruct (Htoggle (at_time 2000)) as (room' & Hr' & Hflip & Hstamp & _).
    exists room'. split; [exact Hr'|]. rewrite Hp in Hflip. split; [exact Hflip|].
    by apply Hstamp.
  - apply (Hsent same_tick_session (at_time 2000) "x"); [done| |by vm_compute|exact Hin| |].
    + change (NoDup ["x"]). apply NoDup_singleton.
    + eexists. vm_compute. reflexivity.
    + assert ((step st (Req "x" (at_time 2000) (TogglePlayback jam))).2
              = [ToRoom jam (PlaybackToggled true (Some 2000))]) as ->
        by (vm_compute; reflexivity).
      by left.
Defined.

(** C9 as stated asks for [t1 < t2] outright.  The three requests can be
    handled within one tick of [Date.now()], and then the two stamps are
    equal. *)
Lemma resume_stamp_not_strictly_later :
  let st0 := run init same_tick_session in
  let track := fresh_id (at_time 1000) in
  let st1 := (step st0 (Req "x" (at_time 1000) (PlayTrack jam track))).1 in
  let st2 := (step st1 (Req "x" (at_time 1000) (TogglePlayback jam))).1 in
  let st3 := (step st2 (Req "x" (at_time 1000) (TogglePlayback jam))).1 in
  (MusicRoom.isPlaying <$> musicRooms st1 !! jam) = Some true
  ∧ (MusicRoom.isPlaying <$> musicRooms st2 !! jam) = Some false
  ∧ (MusicRoom.isPlaying <$> musicRooms st3 !! jam) = Some true
  ∧ ∃ t1 t2, (MusicRoom.playStartTime <$> musicRooms st1 !! jam) = Some (Some t1)
      ∧ (MusicRoom.playStartTime <$> musicRooms st3 !! jam) = Some (Some t2)
      ∧ ¬ (t1 < t2).
Proof.
  cbv zeta. split_and!; [by vm_compute..|].
  exists 1000, 1000. split_and!; [by vm_compute..|lia].
Qed.

(** Without the proviso an occupant can miss what is sent.  "x" and "y"
    are in a music room; "x" creates a chat room with the music room's
    id for its name, joins it and leaves it, and [socket.leave] takes it
    out of the one socket.io room of that name: "x" is still an occupant
    of the music room, and what "y" toggles reaches "y" alone. *)
Lemma occupant_outside_channel :
  let es := [Connect "x"; Connect "y";
             Req "x" (at_time 1000) (CreateMusicRoom "Jam" None None None);
             Req "x" (at_time 1001) (JoinMusicRoom jam);
             Req "y" (at_time 1002) (JoinMusicRoom jam);
             Req "x" (at_time 1003) (CreateRoom jam None None);
             Req "x" (at_time 1004) (JoinRoom jam None);
             Req "x" (at_time 1005) (LeaveRoom jam)] in
  let st := run init es in
  let sent := ToRoom jam (PlaybackToggled true (Some 1006)) in
  (MusicRoom.users <$> musicRooms st !! jam) = Some {["x"; "y"]}
  ∧ is_Some (conns st !! "x")
  ∧ (step st (Req "y" (at_time 1006) (TogglePlayback jam))).2 = [sent]
  ∧ ("x" ∉ recipients st (run_channels es).2 sent)
  ∧ ("y" ∈ recipients st (run_channels es).2 sent).
Proof.
  cbv zeta. split_and!.
  - apply (bool_decide_unpack _). by vm_compute.
  - eexists. vm_compute. reflexivity.
  - vm_compute. reflexivity.
  - apply (bool_decide_unpack _). by vm_compute.
  - apply (bool_decide_unpack _). by vm_compute.
Qed.

(** *** The stale occupant *)

(** An id left in a room's set by a connection that is gone stays there
    as long as socket.io does not hand the same id out again. *)
Lemma stranded_forever s A es : ∀ st room,
  conns st !! s = None → rooms st !! A = Some room → s ∈ ChatRoom.users room →
  Connect s ∉ es →
  ∃ room', rooms (run st es) !! A = Some room' ∧ s ∈ ChatRoom.users room'.
Proof.
  induction es as [|e es IH]; intros st room Hc Hr Hin Hno; [by exists room|].
  change (run st (e :: es)) with (run (step st e).1 es).
  destruct (decide (origin e = s)) as [He|He].
  - destruct e as [sid|sid env r]; cbn in He; subst sid.
    { destruct Hno. by left. }
    cbn [step]. rewrite Hc. cbn [fst]. apply (IH st room); try done.
    intros ?. apply Hno. by right.
  - destruct (step_room_persists st e A) as [room' Hr']; [by rewrite Hr|].
    pose proof (step_room_evolves _ _ _ _ Hr') as Hev. rewrite Hr in Hev.
    destruct Hev as (_ & _ & Hkeep & _).
    apply (IH _ room'); try done.
    + by rewrite step_conns_other.
    + set_solver.
    + intros ?. apply Hno. by right.
Qed.

Lemma quit_current_music_room_payload ms sid c b o u n :
  o ∈ (quit_current_music_room ms sid c b).2 → payload_of o ≠ Some (UserLeftRoom u n).
Proof.
  unfold quit_current_music_room.
  destruct (truthy_str (currentMusicRoom c)); [|by intros ?%elem_of_nil].
  destruct (ms !! currentMusicRoom c); [|by intros ?%elem_of_nil].
  destruct b; cbn; intros Hin;
    repeat (apply elem_of_cons in Hin as [->|Hin]; [done|]);
    by apply elem_of_nil in Hin.
Qed.

(** C10.  ['leave room'] empties [currentRoom] whatever it is asked to
    leave.  So when a connection [s] that is among the [users] of room
    [A] asks to leave any other name [B], it stays in [A]'s set and its
    [currentRoom] is empty.  Its disconnect, coming next, then changes
    no chat room and sends no ['user left room'] to anybody; and [s]
    stays in [A]'s set after any further events, as long as socket.io
    does not give the id [s] to a new connection. *)
Theorem leave_other_room_strands_occupant st s c env A B roomA :
  conns st !! s = Some c →
  rooms st !! A = Some roomA → s ∈ ChatRoom.users roomA →
  B ≠ A →
  let st1 := (step st (Req s env (LeaveRoom B))).1 in
  rooms st1 !! A = Some roomA
  ∧ (currentRoom <$> conns st1 !! s) = Some ""
  ∧ ∀ env2,
      let res2 := step st1 (Req s env2 Disconnect) in
      rooms res2.1 = rooms st1
      ∧ (∀ o u n, o ∈ res2.2 → payload_of o ≠ Some (UserLeftRoom u n))
      ∧ conns res2.1 !! s = None
      ∧ ∀ es, Connect s ∉ es →
          ∃ roomA', rooms (run res2.1 es) !! A = Some roomA' ∧ s ∈ ChatRoom.users roomA'.
Proof.
  intros Hc Hr Hin Hne st1.
  assert (Hst1 : rooms st1 !! A = Some roomA
                 ∧ conns st1 !! s = Some (mkConn (currentUser c) "" (currentMusicRoom c))).
  { subst st1. rewrite (step_req _ _ _ _ _ Hc). cbn [handle]. unfold leave_room.
    destruct (rooms st !! B) as [roomB|] eqn:HB; [case_bool_decide|]; cbn;
      rewrite ?lookup_insert_eq, ?lookup_insert_ne by done; done. }
  destruct Hst1 as [Hr1 Hc1]. split; [done|]. split; [by rewrite Hc1|].
  intros env2 res2.
  assert (Hres2 : rooms res2.1 = rooms st1
                  ∧ (∀ o u n, o ∈ res2.2 → payload_of o ≠ Some (UserLeftRoom u n))
                  ∧ conns res2.1 !! s = None).
  { subst res2. rewrite (step_req _ _ _ _ _ Hc1). cbn [handle]. unfold disconnect.
    rewrite quit_current_room_none by done.
    pose proof (quit_current_music_room_payload (musicRooms st1) s
                  (mkConn (currentUser c) "" (currentMusicRoom c)) false) as Hq.
    destruct (quit_current_music_room _ _ _ _) as [ms1 out2].
    cbn. split; [done|]. split; [|by rewrite lookup_delete_eq].
    intros o u n Ho. by apply Hq. }
  destruct Hres2 as (Hrs & Hout & Hgone). split_and!; try done.
  intros es Hes. apply (stranded_forever s A es res2.1 roomA); try done.
  by rewrite Hrs.
Qed.

(** The theorem at "x" in room "A": after its departure "bob" comes and
    goes, and "x" is still listed. *)
Lemma leave_other_room_strands_occupant_witness :
  let st := run init in_room_A in
  let st1 := (step st (Req "x" (at_time 5) (LeaveRoom "B"))).1 in
  let res2 := step st1 (Req "x" (at_time 6) Disconnect) in
  rooms res2.1 = rooms st1
  ∧ conns res2.1 !! "x" = None
  ∧ ∃ roomA, rooms (run res2.1 [Req "y" (at_time 7) (JoinRoom "A" None);
                               Req "y" (at_time 8) (LeaveRoom "A")]) !! "A" = Some roomA
             ∧ "x" ∈ ChatRoom.users roomA.
Proof.
  intros st st1 res2.
  destruct (leave_other_room_strands_occupant st "x" (mkConn "ann" "A" "") (at_time 5)
              "A" "B" (ChatRoom.mk "A" {["x"]} [] None None "ann" 2))
    as (_ & _ & Hdisc); [by vm_compute|by vm_compute|cbn; set_solver|done|].
  destruct (Hdisc (at_time 6)) as (Hrooms & _ & Hgone & Hstays).
  split; [exact Hrooms|]. split; [exact Hgone|].
  apply Hstays. intros Hin.
  repeat (apply elem_of_cons in Hin as [Hin|Hin]; [discriminate|]).
  by apply elem_of_nil in Hin.
Defined.

(** ** Further properties *)

(** *** File names, ids and titles *)

Lemma after_underscore_none s : no_underscore s → after_underscore s = None.
Proof.
  induction s as [|a s IH]; simpl; [done|].
  intros [Ha Hs]. rewrite bool_decide_eq_false_2 by done. by apply IH.
Qed.

(** X1.  The download route gives an upload stored by either multer store
    its original name back, underscores in that name included. *)
Theorem download_name_of_stored timestamp originalname :
  download_name (stored_filename timestamp originalname) = originalname.
Proof.
  unfold download_name, stored_filename.
  by rewrite after_underscore_app by apply pretty_Z_no_underscore.
Qed.

Lemma download_name_without_underscore filename :
  no_underscore filename → download_name filename = filename.
Proof. intros H. unfold download_name. by rewrite after_underscore_none. Qed.

(** X2.  Two ids made by [Date.now() + '_' + suffix] are equal only when both
    the clock reading and the random suffix are: ids made at different
    readings, or with different suffixes, never clash. *)
Theorem fresh_id_inj env1 env2 :
  fresh_id env1 = fresh_id env2 → now env1 = now env2 ∧ rnd env1 = rnd env2.
Proof.
  unfold fresh_id. intros H. split.
  - apply (inj pretty).
    rewrite <- (before_underscore_app (pretty (now env1)) (rnd env1))
      by apply pretty_Z_no_underscore.
    rewrite H. by apply before_underscore_app, pretty_Z_no_underscore.
  - assert (Some (rnd env1) = Some (rnd env2)) as [= Hr]; [|done].
    rewrite <- (after_underscore_app (pretty (now env1)) (rnd env1))
      by apply pretty_Z_no_underscore.
    rewrite H. by apply after_underscore_app, pretty_Z_no_underscore.
Qed.

Lemma music_room_id_time roomName env1 env2 :
  music_room_id roomName env1 = music_room_id roomName env2 ↔ now env1 = now env2.
Proof.
  unfold music_room_id. split; [|by intros ->].
  intros H. apply (inj (String.append _)) in H. apply (inj (String.append _)) in H.
  by apply (inj pretty).
Qed.

Lemma lower_ascii_idemp a : lower_ascii (lower_ascii a) = lower_ascii a.
Proof.
  destruct a as [[] [] [] [] [] [] [] []]; reflexivity.
Qed.

Lemma lower_ascii_space a : is_space (lower_ascii a) = is_space a.
Proof.
  destruct a as [[] [] [] [] [] [] [] []]; reflexivity.
Qed.

Lemma dash_blanks_no_blank b s : no_blank (dash_blanks b s).
Proof.
  revert b. induction s as [|a s IH]; intros b; simpl; [done|].
  destruct (is_space a) eqn:Ha; [destruct b; simpl; auto|simpl; auto].
Qed.

Lemma dash_blanks_no_capital b s : no_capital s → no_capital (dash_blanks b s).
Proof.
  revert b. induction s as [|a s IH]; intros b; simpl; [done|].
  intros [Ha Hs]. destruct (is_space a); [destruct b; simpl; auto|simpl; auto].
Qed.

Lemma toLowerCase_no_capital s : no_capital (toLowerCase s).
Proof. induction s as [|a s IH]; simpl; [done|]. split; [apply lower_ascii_idemp|done]. Qed.

Lemma toLowerCase_id s : no_capital s → toLowerCase s = s.
Proof. induction s as [|a s IH]; simpl; [done|]. intros [-> ?]. f_equal. auto. Qed.

Lemma dash_blanks_id b s : no_blank s → dash_blanks b s = s.
Proof.
  revert b. induction s as [|a s IH]; intros b; simpl; [done|].
  intros [-> ?]. f_equal. auto.
Qed.

(** The theorem at a concrete input. *)
Lemma fresh_id_inj_witness :
  now (at_time 5) = now (mkEnv 5 "k3x9q2m1z") ∧ rnd (at_time 5) = rnd (mkEnv 5 "k3x9q2m1z").
Proof. apply (fresh_id_inj (at_time 5) (mkEnv 5 "k3x9q2m1z")). reflexivity. Defined.

Lemma lower_ascii_ascii a :
  (nat_of_ascii a < 128)%nat → (nat_of_ascii (lower_ascii a) < 128)%nat.
Proof.
  destruct a as [[] [] [] [] [] [] [] []]; vm_compute; lia.
Qed.

Lemma toLowerCase_ascii s : ascii_only s → ascii_only (toLowerCase s).
Proof.
  induction s as [|a s IH]; simpl; [done|].
  intros [Ha Hs]. split; [by apply lower_ascii_ascii|by apply IH].
Qed.

Lemma dash_blanks_ascii b s : ascii_only s → ascii_only (dash_blanks b s).
Proof.
  revert b. induction s as [|a s IH]; intros b; simpl; [done|].
  intros [Ha Hs]. destruct (is_space a), b; simpl; try (by apply IH).
  - split; [vm_compute; lia|by apply IH].
  - split; [done|by apply IH].
  - split; [done|by apply IH].
Qed.

(** X3.  For a room name of ASCII characters, the name part of a music
    room id is again of ASCII characters, in lower case and without a
    blank, and making an id from it again changes nothing. *)
Theorem music_room_id_normal roomName env :
  ascii_only roomName →
  let slug := dash_blanks false (toLowerCase roomName) in
  music_room_id roomName env = slug +:+ "-" +:+ pretty (now env)
  ∧ ascii_only slug ∧ no_blank slug ∧ no_capital slug
  ∧ music_room_id slug env = music_room_id roomName env.
Proof.
  intros Hascii slug. split_and!; [done| |apply dash_blanks_no_blank| |].
  - by apply dash_blanks_ascii, toLowerCase_ascii.
  - apply dash_blanks_no_capital, toLowerCase_no_capital.
  - unfold music_room_id. fold slug. f_equal.
    rewrite toLowerCase_id by apply dash_blanks_no_capital, toLowerCase_no_capital.
    apply dash_blanks_id, dash_blanks_no_blank.
Qed.

(** The theorem at a concrete input. *)
Lemma music_room_id_normal_witness :
  music_room_id "My  Late Jam" (at_time 1000) = "my-late-jam-1000"
  ∧ music_room_id "my-late-jam" (at_time 1000) = music_room_id "My  Late Jam" (at_time 1000).
Proof.
  destruct (music_room_id_normal "My  Late Jam" (at_time 1000)) as (Hid & _ & _ & _ & Hagain).
  { cbn [ascii_only]. repeat split; vm_compute; lia. }
  split; [by rewrite Hid|exact Hagain].
Defined.

Lemma ext_chars_false_dot s t : ext_chars (s +:+ "." +:+ t) = false.
Proof.
  induction s as [|a s IH]; simpl.
  - done.
  - rewrite IH. by rewrite andb_false_r.
Qed.

(** X4.  The title of a track is the uploaded file's name without its last
    extension, whatever dots the rest of the name has. *)
Theorem strip_ext_drops_last_extension name ext :
  ext ≠ "" → ext_chars ext = true → strip_ext (name +:+ "." +:+ ext) = name.
Proof.
  intros Hne Hext. induction name as [|a name IH]; simpl.
  - change ("" +:+ ext) with ext.
    rewrite bool_decide_eq_false_2 by done. by rewrite Hext.
  - rewrite IH. rewrite ext_chars_false_dot. by rewrite andb_false_r.
Qed.

(** The theorem at a concrete input. *)
Lemma strip_ext_drops_last_extension_witness : strip_ext "a.b.mp3" = "a.b".
Proof. apply (strip_ext_drops_last_extension "a.b" "mp3"); [done|reflexivity]. Defined.

Lemma strip_ext_without_dot s : no_dot s → strip_ext s = s.
Proof.
  induction s as [|a s IH]; simpl; [done|]. intros [Ha Hs].
  rewrite bool_decide_eq_false_2 by done. simpl. f_equal. auto.
Qed.

Lemma test_any_mono alts1 alts2 s :
  alts1 ⊆ alts2 → test_any alts1 s = true → test_any alts2 s = true.
Proof.
  unfold test_any. rewrite !existsb_exists. intros Hsub (p & Hin & Hp).
  exists p. split; [|done]. apply list_elem_of_In, Hsub, list_elem_of_In, Hin.
Qed.

Lemma music_types_upload_types : music_types ⊆ upload_types.
Proof.
  intros p Hp. unfold music_types in Hp. unfold upload_types.
  repeat (apply elem_of_cons in Hp as [->|Hp]; [set_solver|]).
  by apply elem_of_nil in Hp.
Qed.

(** X5.  Whatever the music upload accepts, the chat upload accepts too. *)
Theorem music_fileFilter_stricter extname mimetype :
  music_fileFilter extname mimetype = true → upload_fileFilter extname mimetype = true.
Proof.
  unfold music_fileFilter, upload_fileFilter.
  rewrite !andb_true_iff, !orb_true_iff.
  pose proof music_types_upload_types as Hsub.
  intros [[Hm|Hm] He]; (split; [|by eapply test_any_mono]).
  - left; left. by eapply test_any_mono.
  - left; by right.
Qed.

(** The theorem at a concrete input. *)
Lemma music_fileFilter_stricter_witness : upload_fileFilter ".MP3" "audio/mpeg" = true.
Proof. apply music_fileFilter_stricter. reflexivity. Defined.

Lemma prefix_app p s : String.prefix p (p +:+ s) = true.
Proof.
  induction p as [|a p IH]; simpl; [by destruct s|].
  destruct (ascii_dec a a); [done|congruence].
Qed.

Lemma occurs_prefix pat s : String.prefix pat s = true → occurs pat s = true.
Proof. intros H. destruct s; cbn [occurs]; by rewrite H. Qed.

Lemma occurs_middle pat pre post : occurs pat (pre +:+ pat +:+ post) = true.
Proof.
  induction pre as [|a pre IH].
  - change ("" +:+ pat +:+ post) with (pat +:+ post).
    apply occurs_prefix, prefix_app.
  - simpl. rewrite IH. apply orb_true_r.
Qed.

Lemma toLowerCase_app s t : toLowerCase (s +:+ t) = toLowerCase s +:+ toLowerCase t.
Proof. induction s as [|a s IH]; simpl; [done|]. by rewrite IH. Qed.

Lemma test_any_occurs alts type pre post :
  type ∈ alts → toLowerCase type = type →
  test_any alts (toLowerCase (pre +:+ type +:+ post)) = true.
Proof.
  intros Hin Hlow. unfold test_any. apply existsb_exists. exists type.
  split; [by apply list_elem_of_In|].
  rewrite !toLowerCase_app, Hlow. apply occurs_middle.
Qed.

Lemma upload_types_lower type : type ∈ upload_types → toLowerCase type = type.
Proof.
  unfold upload_types. intros Ht.
  repeat (apply elem_of_cons in Ht as [->|Ht]; [done|]). by apply elem_of_nil in Ht.
Qed.

(** X6.  The tests are unanchored: an extension passes as soon as an allowed
    type occurs anywhere in it, whatever stands before and after, and
    every [audio/...] type passes whatever follows the slash. *)
Theorem fileFilter_unanchored pre type post subtype :
  type ∈ music_types →
  music_fileFilter (pre +:+ type +:+ post) ("audio/" +:+ subtype) = true
  ∧ upload_fileFilter (pre +:+ type +:+ post) ("audio/" +:+ subtype) = true.
Proof.
  intros Ht. pose proof (music_types_upload_types _ Ht) as Ht'.
  unfold music_fileFilter, upload_fileFilter.
  rewrite !andb_true_iff, !orb_true_iff, !prefix_app.
  split; (split; [auto|]); apply test_any_occurs; auto using upload_types_lower.
Qed.

(** The theorem at a concrete input. *)
Lemma fileFilter_unanchored_witness :
  music_fileFilter ".mp3x" "audio/whatever" = true.
Proof.
  destruct (fileFilter_unanchored "." "mp3" "x" "whatever") as [H _]; [|exact H].
  unfold music_types. set_solver.
Defined.

(** *** The chat room store *)

Lemma room_kept_refl room : room_kept room room.
Proof. unfold room_kept. split_and!; try done. by left. Qed.

Lemma rooms_kept_same st st' :
  rooms st' = rooms st → roomOrder st' = roomOrder st → rooms_kept st st'.
Proof.
  intros Hr Ho. split; [done|]. intros n. rewrite Hr.
  destruct (rooms st !! n); [apply room_kept_refl|done].
Qed.

Lemma rooms_kept_insert st st' n room room' :
  rooms st !! n = Some room → room_kept room room' →
  rooms st' = <[n := room']> (rooms st) → roomOrder st' = roomOrder st →
  rooms_kept st st'.
Proof.
  intros Hl Hk Hr Ho. split; [done|]. intros k. rewrite Hr, lookup_insert.
  destruct (decide (n = k)) as [<-|Hne].
  - by rewrite Hl.
  - destruct (rooms st !! k); [apply room_kept_refl|done].
Qed.

Lemma quit_current_room_kept st sid c b k :
  match rooms st !! k, (quit_current_room (rooms st) sid c b).1 !! k with
  | Some room, Some room' =>
      room_kept room room' ∧ ChatRoom.messages room' = ChatRoom.messages room
  | None, None => True
  | _, _ => False
  end.
Proof.
  rewrite quit_current_room_lookup.
  destruct (decide (_ ∧ _)); destruct (rooms st !! k) as [room|]; cbn; try done;
    (split; [|done]); unfold room_kept; cbn; split_and!; try done; by left.
Qed.

Lemma length_push_trim {A} (l : list A) m : (length (push_trim l m) ≤ 100)%nat.
Proof. rewrite push_trim_last_n, length_last_n. lia. Qed.

Lemma length_delete_le {A} (l : list A) i : (length (delete i l) ≤ length l)%nat.
Proof.
  revert i. induction l as [|x l IH]; intros [|i]; simpl; try lia.
  specialize (IH i). lia.
Qed.

Ltac kept_same := apply rooms_kept_same; reflexivity.

Lemma step_rooms_shape st e :
  rooms_kept st (step st e).1 ∨ room_added st (step st e).1.
Proof.
  destruct e as [sid|sid env r]; cbn [step].
  { left. destruct (conns st !! sid); kept_same. }
  destruct (conns st !! sid) as [c|]; [|left; kept_same].
  destruct r; cbn [handle].
  all: try (left; unfold user_join, get_room_list, get_music_room_list, create_music_room,
      join_music_room, leave_music_room, music_chat_message, music_voice_message,
      music_uploaded, play_track, toggle_playback;
    repeat case_match; kept_same).
  - (* create room *)
    unfold create_room. destruct (rooms st !! roomName) as [room|] eqn:Hr;
      [left; kept_same|].
    right. eexists _, _. cbn. split_and!; done.
  - (* join room *)
    left. unfold join_room. destruct (rooms st !! roomName) as [room|] eqn:Hr;
      [|kept_same].
    destruct (password_refused room c password); [kept_same|].
    destruct (room_full room); [kept_same|].
    pose proof (quit_current_room_kept st sid c true) as Hq.
    destruct (quit_current_room (rooms st) sid c true) as [rs1 out1].
    split; [done|]. intros k. cbn. specialize (Hq k). cbn in Hq.
    rewrite lookup_insert. destruct (decide (roomName = k)) as [<-|Hne]; [|
      destruct (rooms st !! k), (rs1 !! k); naive_solver].
    rewrite Hr in *. destruct (rs1 !! roomName) as [room1|]; [|done]. cbn.
    destruct Hq as [(?&?&?&?&?&?) ?]. split_and!; try done.
    all: try (left; cbn; lia).
  - (* leave room *)
    left. unfold leave_room. destruct (rooms st !! roomName) as [room|] eqn:Hr;
      [|kept_same].
    case_bool_decide; [|kept_same].
    eapply rooms_kept_insert; [done| |done..].
    unfold room_kept; cbn; split_and!; try done; by left.
  - (* chat message *)
    left. unfold chat_message. destruct (rooms st !! roomName) as [room|] eqn:Hr;
      [|kept_same].
    case_bool_decide; [|kept_same].
    eapply rooms_kept_insert; [done| |done..].
    split_and!; try done. right. cbn. apply length_push_trim.
  - (* delete message *)
    left. unfold delete_message. destruct (rooms st !! roomName) as [room|] eqn:Hr;
      [|kept_same].
    case_bool_decide; cbn [negb]; [|kept_same].
    destruct (findIndex messageId (ChatRoom.messages room)) as [[i m]|]; [|kept_same].
    case_bool_decide; [kept_same|].
    eapply rooms_kept_insert; [done| |done..].
    split_and!; try done. left. cbn. apply length_delete_le.
  - (* disconnect *)
    left. unfold disconnect.
    pose proof (quit_current_room_kept st sid c false) as Hq.
    destruct (quit_current_room (rooms st) sid c false) as [rs1 out1].
    destruct (quit_current_music_room (musicRooms st) sid c false) as [ms1 out2].
    split; [done|]. intros k. cbn. specialize (Hq k). cbn in Hq.
    destruct (rooms st !! k), (rs1 !! k); naive_solver.
Qed.

Lemma run_cons st e es : run st (e :: es) = run (step st e).1 es.
Proof. done. Qed.

Lemma step_room_kept st e n room :
  rooms st !! n = Some room →
  ∃ room', rooms (step st e).1 !! n = Some room' ∧ room_kept room room'.
Proof.
  intros Hr. destruct (step_rooms_shape st e) as [[_ Hk]|(k & new & Hnone & _ & Hrs & _)].
  - specialize (Hk n). rewrite Hr in Hk.
    destruct (rooms (step st e).1 !! n) as [room'|]; [eauto|done].
  - exists room. rewrite Hrs, lookup_insert_ne by congruence.
    split; [done|apply room_kept_refl].
Qed.

(** X7.  A chat room, once created, is never removed, renamed or
    reconfigured. *)
Theorem room_settings_never_change es : ∀ st n room,
  rooms st !! n = Some room →
  ∃ room', rooms (run st es) !! n = Some room'
    ∧ ChatRoom.name room' = ChatRoom.name room
    ∧ ChatRoom.creator room' = ChatRoom.creator room
    ∧ ChatRoom.password room' = ChatRoom.password room
    ∧ ChatRoom.maxUsers room' = ChatRoom.maxUsers room
    ∧ ChatRoom.createdAt room' = ChatRoom.createdAt room.
Proof.
  induction es as [|e es IH]; intros st n room Hr; [by exists room|].
  rewrite run_cons.
  destruct (step_room_kept st e n room Hr) as (room1 & Hr1 & Hn & Hm & Hp & Hc & Ht & _).
  destruct (IH _ _ _ Hr1) as (room' & Hr' & ? & ? & ? & ? & ?).
  exists room'. split_and!; congruence.
Qed.

(** The theorem at a concrete input. *)
Lemma room_settings_never_change_witness :
  ∃ room', rooms (run (run init in_room_A)
                    [Req "y" (at_time 7) (JoinRoom "A" None);
                     Req "x" (at_time 8) Disconnect]) !! "A" = Some room'
    ∧ ChatRoom.creator room' = "ann".
Proof.
  destruct (room_settings_never_change
              [Req "y" (at_time 7) (JoinRoom "A" None); Req "x" (at_time 8) Disconnect]
              (run init in_room_A) "A" (ChatRoom.mk "A" {["x"]} [] None None "ann" 2))
    as (room' & Hr & _ & Hc & _); [by vm_compute|].
  exists room'. split; [exact Hr|exact Hc].
Defined.

(** X8.  The history of a chat room never holds more than 100 entries. *)
Theorem chat_history_at_most_100 st n room :
  reachable st → rooms st !! n = Some room →
  (length (ChatRoom.messages room) ≤ 100)%nat.
Proof.
  intros Hreach. revert st Hreach n room. apply (reachable_ind (λ st, ∀ n room,
    rooms st !! n = Some room → (length (ChatRoom.messages room) ≤ 100)%nat)).
  { intros n room. cbn. by rewrite lookup_empty. }
  intros st e _ IH n room' Hr'.
  destruct (step_rooms_shape st e) as [[_ Hk]|(k & new & Hnone & _ & Hrs & _ & _ & Hms)].
  - specialize (Hk n). rewrite Hr' in Hk.
    destruct (rooms st !! n) as [room|] eqn:Hr; [|done].
    destruct Hk as (_ & _ & _ & _ & _ & [Hle|Hle]); [|done].
    specialize (IH _ _ Hr). lia.
  - rewrite Hrs, lookup_insert in Hr'. destruct (decide (k = n)).
    + injection Hr' as <-. rewrite Hms. cbn. lia.
    + by eapply IH.
Qed.

(** The theorem at a concrete input. *)
Lemma chat_history_at_most_100_witness :
  ∃ room, rooms (run init two_lines) !! "A" = Some room
    ∧ (length (ChatRoom.messages room) ≤ 100)%nat.
Proof.
  eexists. split; [vm_compute; reflexivity|].
  eapply (chat_history_at_most_100 (run init two_lines) "A");
    [by exists two_lines|vm_compute; reflexivity].
Defined.

Lemma reachable_rooms_listed st : reachable st → rooms_listed st.
Proof.
  revert st. apply reachable_ind.
  { split_and!; [constructor| |intros ??; cbn; by rewrite lookup_empty].
    intros n. cbn. rewrite lookup_empty. split; [by intros ?%elem_of_nil|by intros [? ?]]. }
  intros st e _ (Hnd & Hdom & Hname).
  destruct (step_rooms_shape st e) as [[Ho Hk]|(k & new & Hnone & Ho & Hrs & Hn & _)].
  - unfold rooms_listed. rewrite Ho. split_and!; [done| |].
    + intros n. rewrite Hdom. specialize (Hk n).
      destruct (rooms st !! n), (rooms (step st e).1 !! n); try done;
        split; intros [? ?]; eauto; done.
    + intros n room' Hr'. specialize (Hk n). rewrite Hr' in Hk.
      destruct (rooms st !! n) as [room|] eqn:Hr; [|done].
      destruct Hk as (-> & _). by apply Hname.
  - unfold rooms_listed. rewrite Ho, Hrs. split_and!.
    + apply NoDup_app. split_and!; [done| |apply NoDup_singleton].
      intros n Hin ->%list_elem_of_singleton. apply Hdom in Hin as [? ?]. congruence.
    + intros n. rewrite elem_of_app, list_elem_of_singleton, Hdom, lookup_insert.
      destruct (decide (k = n)) as [->|Hne]; [split; eauto|].
      split; [intros [?|?]; [done|congruence]|by left].
    + intros n room'. rewrite lookup_insert. destruct (decide (k = n)) as [->|Hne].
      * by intros [= <-].
      * apply Hname.
Qed.

(** *** Rooms and their members *)

Lemma map_values_all_present (m : gmap string ChatRoom.t) (order : list string) :
  (∀ n, n ∈ order → ∃ room, m !! n = Some room ∧ ChatRoom.name room = n) →
  RoomSummary.name <$> (room_summary <$> map_values m order) = order.
Proof.
  unfold map_values. induction order as [|k order IH]; intros H; [done|].
  destruct (H k) as (room & Hr & Hn); [by left|].
  cbn. rewrite Hr. cbn. rewrite Hn. f_equal. apply IH. intros n Hin. apply H. by right.
Qed.

Lemma map_values_elem (m : gmap string ChatRoom.t) (order : list string) n room :
  n ∈ order → m !! n = Some room → room ∈ map_values m order.
Proof.
  intros Hin Hr. unfold map_values. apply list_elem_of_omap. eauto.
Qed.

(** X9.  ['get room list'] changes nothing and answers the requester with one
    entry per stored room, in the order of creation: no room is missing,
    none is listed twice, and each entry is the summary of the room
    stored under its name. *)
Theorem room_list_lists_every_room_once st sid c env :
  reachable st → conns st !! sid = Some c →
  ∃ l, step st (Req sid env GetRoomList) = (st, [Emit sid (RoomList l)])
    ∧ NoDup (RoomSummary.name <$> l)
    ∧ (∀ n, n ∈ (RoomSummary.name <$> l) ↔ is_Some (rooms st !! n))
    ∧ (∀ n room, rooms st !! n = Some room → room_summary room ∈ l)
    ∧ length l = size (rooms st).
Proof.
  intros Hreach Hc. destruct (reachable_rooms_listed _ Hreach) as (Hnd & Hdom & Hname).
  rewrite (step_req _ _ _ _ _ Hc). cbn [handle]. unfold get_room_list.
  eexists. split; [done|].
  assert (Hnames : RoomSummary.name <$>
                     (room_summary <$> map_values (rooms st) (roomOrder st))
                   = roomOrder st).
  { apply map_values_all_present. intros n [room Hr]%Hdom. eauto. }
  rewrite Hnames. split_and!; [done|done| |].
  - intros n room Hr. apply list_elem_of_fmap_2, (map_values_elem _ _ n); [|done].
    apply Hdom. eauto.
  - rewrite <- (length_fmap RoomSummary.name), Hnames.
    rewrite <- size_dom, <- (size_list_to_set (C:=gset string)) by done.
    f_equal. apply set_eq. intros n.
    rewrite elem_of_list_to_set, Hdom, elem_of_dom. done.
Qed.

(** The theorem at a concrete input. *)
Lemma room_list_lists_every_room_once_witness :
  ∃ l, step (run init in_room_A) (Req "y" (at_time 9) GetRoomList)
       = (run init in_room_A, [Emit "y" (RoomList l)])
    ∧ length l = 2%nat.
Proof.
  destruct (room_list_lists_every_room_once (run init in_room_A) "y"
              (mkConn "bob" "" "") (at_time 9)) as (l & Hstep & _ & _ & _ & Hlen);
    [by exists in_room_A|by vm_compute|].
  exists l. split; [exact Hstep|]. rewrite Hlen. by vm_compute.
Defined.

(** X10.  Whoever creates a room can enter it without the password, and is
    alone in it: creating a room does not join it. *)
Theorem creator_joins_own_room st sid c env env' roomName maxUsers password :
  conns st !! sid = Some c →
  rooms st !! roomName = None →
  (∀ m, maxUsers = Some m → (0 <= m)%Q) →
  let created := step st (Req sid env (CreateRoom roomName maxUsers password)) in
  let joined := step created.1 (Req sid env' (JoinRoom roomName None)) in
  created.2 = [Emit sid (RoomCreated roomName maxUsers (truthy_ostr password))]
  ∧ (∃ room, rooms created.1 !! roomName = Some room
       ∧ ChatRoom.users room = ∅ ∧ ChatRoom.messages room = []
       ∧ ChatRoom.creator room = currentUser c)
  ∧ (∃ room', rooms joined.1 !! roomName = Some room'
       ∧ ChatRoom.users room' = {[sid]}
       ∧ Emit sid (RoomJoinSuccess roomName 1 (ChatRoom.maxUsers room')) ∈ joined.2).
Proof.
  intros Hc Hr Hmax created joined.
  assert (Hcreated : created =
    (mkServer (<[roomName := ChatRoom.mk roomName ∅ [] (or_null_num maxUsers)
                               (or_null_str password) (currentUser c) (now env)]> (rooms st))
              (roomOrder st ++ [roomName]) (musicRooms st) (musicRoomOrder st) (conns st),
     [Emit sid (RoomCreated roomName maxUsers (truthy_ostr password))])).
  { subst created. rewrite (step_req _ _ _ _ _ Hc). cbn [handle]. unfold create_room.
    by rewrite Hr. }
  split; [by rewrite Hcreated|]. split.
  { rewrite Hcreated. cbn. rewrite lookup_insert_eq. eexists. split; [done|]. done. }
  subst joined. rewrite Hcreated. cbn [fst].
  set (room := ChatRoom.mk roomName ∅ [] (or_null_num maxUsers)
                           (or_null_str password) (currentUser c) (now env)).
  set (st1 := mkServer _ _ _ _ _).
  assert (Hr1 : rooms st1 !! roomName = Some room) by (cbn; by rewrite lookup_insert_eq).
  assert (Hc1 : conns st1 !! sid = Some c) by done.
  rewrite (step_req _ _ _ _ _ Hc1). cbn [handle]. unfold join_room. rewrite Hr1.
  assert (password_refused room c None = false) as ->.
  { unfold password_refused. cbn. rewrite (bool_decide_eq_false_2 (_ ≠ _)) by (intros ?; done).
    by rewrite andb_false_r. }
  assert (room_full room = false) as ->.
  { unfold room_full. cbn. unfold or_null_num. destruct maxUsers as [m|]; cbn; [|done].
    specialize (Hmax m eq_refl).
    destruct (truthy_Q m) eqn:Ht; cbn; [|done]. rewrite Ht. cbn.
    apply truthy_Q_true in Ht. rewrite users_count_empty.
    destruct (Qle_bool_spec m 0) as [Hle|Hlt]; [|done].
    destruct Ht. by apply Qle_antisym. }
  pose proof (quit_current_room_lookup (rooms st1) sid c true roomName) as Hq.
  destruct (quit_current_room (rooms st1) sid c true) as [rs1 out1]. cbn [fst] in Hq.
  cbn. rewrite lookup_insert_eq.
  assert (Husers : ChatRoom.users (default room (rs1 !! roomName)) ∪ {[sid]} = ({[sid]} : gset string)).
  { rewrite Hq. destruct (decide (_ ∧ _)); rewrite Hr1; cbn; set_solver. }
  eexists. split; [done|]. cbn. rewrite Husers. split; [done|].
  rewrite size_singleton. set_solver.
Qed.

(** The theorem at a concrete input. *)
Lemma creator_joins_own_room_witness :
  let st := run init in_room_A in
  let created := step st (Req "y" (at_time 7) (CreateRoom "den" (Some 1%Q) (Some "pw"))) in
  let joined := step created.1 (Req "y" (at_time 8) (JoinRoom "den" None)) in
  ∃ room', rooms joined.1 !! "den" = Some room' ∧ ChatRoom.users room' = {["y"]}.
Proof.
  intros st created joined.
  destruct (creator_joins_own_room st "y" (mkConn "bob" "" "") (at_time 7) (at_time 8)
              "den" (Some 1%Q) (Some "pw")) as (_ & _ & room' & Hr & Hu & _);
    [by vm_compute|by vm_compute|intros m [= <-]; by vm_compute|].
  exists room'. split; [exact Hr|exact Hu].
Defined.

Lemma quit_current_room_no_chat rs sid c b o :
  o ∈ (quit_current_room rs sid c b).2 → chat_message_of o = None.
Proof.
  unfold quit_current_room.
  destruct (truthy_str (currentRoom c)); [|by intros ?%elem_of_nil].
  destruct (rs !! currentRoom c); [|by intros ?%elem_of_nil].
  destruct b; cbn; intros Hin;
    repeat (apply elem_of_cons in Hin as [->|Hin]; [done|]);
    by apply elem_of_nil in Hin.
Qed.

(** X11.  An accepted ['join room'] sends the room's whole history, oldest
    first and every entry flagged [isPrevious], to the one who joins and
    to nobody else; these are the last things it sends, and the history
    itself is left as it was. *)
Theorem join_room_replays_history st sid c env roomName password room :
  conns st !! sid = Some c →
  rooms st !! roomName = Some room →
  password_refused room c password = false → room_full room = false →
  let res := step st (Req sid env (JoinRoom roomName password)) in
  ∃ before room',
    res.2 = before ++ ((λ m, Emit sid (ChatMessageEv (ChatMessage.replay m)))
                         <$> ChatRoom.messages room)
    ∧ (∀ o, o ∈ before → chat_message_of o = None)
    ∧ rooms res.1 !! roomName = Some room'
    ∧ ChatRoom.messages room' = ChatRoom.messages room
    ∧ (∀ m, m ∈ ChatRoom.messages room → ChatMessage.isPrevious (ChatMessage.replay m) = true).
Proof.
  intros Hc Hr Hp Hf res. subst res. rewrite (step_req _ _ _ _ _ Hc). cbn [handle].
  unfold join_room. rewrite Hr, Hp, Hf.
  pose proof (quit_current_room_no_chat (rooms st) sid c true) as Hq.
  pose proof (quit_current_room_kept st sid c true roomName) as Hk. rewrite Hr in Hk.
  destruct (quit_current_room (rooms st) sid c true) as [rs1 out1]. cbn [fst snd] in *.
  destruct (rs1 !! roomName) as [room1|] eqn:Hr1; [|done]. destruct Hk as [_ Hms].
  cbn [default]. cbn [snd fst].
  eexists (out1 ++ [_; _; _; _]), _. split_and!.
  - cbn. rewrite Hms. by rewrite <- !app_assoc.
  - intros o [Ho|Ho]%elem_of_app; [by apply Hq|].
    repeat (apply elem_of_cons in Ho as [->|Ho]; [done|]). by apply elem_of_nil in Ho.
  - cbn. by rewrite lookup_insert_eq.
  - done.
  - done.
Qed.

(** The theorem at a concrete input. *)
Lemma join_room_replays_history_witness :
  let st := run init two_lines in
  ∃ before, (step st (Req "y" (at_time 9) (JoinRoom "A" None))).2
    = before ++ [Emit "y" (ChatMessageEv (ChatMessage.mk (fresh_id (at_time 5)) "ann"
                                            (Some "hello") None 5 true));
                 Emit "y" (ChatMessageEv (ChatMessage.mk (fresh_id (at_time 6)) "ann"
                                            (Some "again") None 6 true))].
Proof.
  intros st.
  set (m1 := ChatMessage.mk (fresh_id (at_time 5)) "ann" (Some "hello") None 5 false).
  set (m2 := ChatMessage.mk (fresh_id (at_time 6)) "ann" (Some "again") None 6 false).
  destruct (join_room_replays_history st "y" (mkConn "bob" "" "") (at_time 9) "A" None
              (ChatRoom.mk "A" {["x"]} [m1; m2] None None "ann" 2))
    as (before & _ & Hout & _); [by vm_compute..|].
  exists before. exact Hout.
Defined.

(** X12.  Joining a room and leaving it again puts the server back where it
    was, for a connection that was in no room before. *)
Theorem join_then_leave_restores st sid c env env' roomName password room :
  conns st !! sid = Some c → currentRoom c = "" →
  rooms st !! roomName = Some room → sid ∉ ChatRoom.users room →
  password_refused room c password = false → room_full room = false →
  run st [Req sid env (JoinRoom roomName password); Req sid env' (LeaveRoom roomName)] = st.
Proof.
  intros Hc Hcur Hr Hnin Hp Hf. unfold run. cbn [foldl].
  rewrite (step_req _ _ _ _ _ Hc). cbn [handle]. unfold join_room.
  rewrite Hr, Hp, Hf, quit_current_room_none by done. cbn [fst]. rewrite Hr. cbn [default].
  set (st1 := set_conn _ _ _).
  assert (Hc1 : conns st1 !! sid = Some (mkConn (currentUser c) roomName (currentMusicRoom c)))
    by (cbn; by rewrite lookup_insert_eq).
  rewrite (step_req _ _ _ _ _ Hc1). cbn [handle]. unfold leave_room. cbn.
  rewrite lookup_insert_eq. cbn. rewrite bool_decide_eq_true_2 by set_solver. cbn.
  rewrite !insert_insert_eq.
  assert ((ChatRoom.users room ∪ {[sid]}) ∖ {[sid]} = ChatRoom.users room) as -> by set_solver.
  assert (ChatRoom.with_users (ChatRoom.with_users room (ChatRoom.users room ∪ {[sid]}))
            (ChatRoom.users room) = room) as -> by (by destruct room).
  rewrite (insert_id (rooms st)) by done.
  subst st1. unfold set_conn, set_rooms. cbn. rewrite insert_insert_eq.
  rewrite (insert_id (conns st)); [by destruct st|].
  rewrite Hc. destruct c; cbn in *. by subst.
Qed.

(** The theorem at a concrete input. *)
Lemma join_then_leave_restores_witness :
  let st := run init in_room_A in
  run st [Req "y" (at_time 7) (JoinRoom "A" None); Req "y" (at_time 8) (LeaveRoom "A")] = st.
Proof.
  intros st.
  apply (join_then_leave_restores st "y" (mkConn "bob" "" "") (at_time 7) (at_time 8)
           "A" None (ChatRoom.mk "A" {["x"]} [] None None "ann" 2));
    [by vm_compute|done|by vm_compute| |done|done].
  apply (bool_decide_unpack _). by vm_compute.
Defined.

(** X13.  Leaving a room takes the right to post and to delete there with it;
    the others stay, and are told the new count. *)
Theorem left_member_cannot_post st sid c env roomName room :
  conns st !! sid = Some c →
  rooms st !! roomName = Some room → sid ∈ ChatRoom.users room →
  let left := step st (Req sid env (LeaveRoom roomName)) in
  left.2 = [SockLeave sid roomName;
            ToOthers sid roomName
              (UserLeftRoom (currentUser c) (size (ChatRoom.users room) - 1))]
  ∧ (∃ room', rooms left.1 !! roomName = Some room'
       ∧ ChatRoom.users room' = ChatRoom.users room ∖ {[sid]})
  ∧ (∀ env' message fileData,
       step left.1 (Req sid env' (ChatMessageReq roomName message fileData)) = (left.1, []))
  ∧ (∀ env' messageId,
       step left.1 (Req sid env' (DeleteMessage roomName messageId))
       = (left.1, [Emit sid (DeleteError NotAuthorized)])).
Proof.
  intros Hc Hr Hin left.
  assert (Hleft : left =
    (set_conn (set_rooms st (<[roomName := ChatRoom.with_users room
                                (ChatRoom.users room ∖ {[sid]})]> (rooms st)))
              sid (mkConn (currentUser c) "" (currentMusicRoom c)),
     [SockLeave sid roomName;
      ToOthers sid roomName
        (UserLeftRoom (currentUser c) (size (ChatRoom.users room ∖ {[sid]})))])).
  { subst left. rewrite (step_req _ _ _ _ _ Hc). cbn [handle]. unfold leave_room.
    by rewrite Hr, bool_decide_eq_true_2. }
  assert (size (ChatRoom.users room ∖ {[sid]}) = (size (ChatRoom.users room) - 1)%nat) as Hsz.
  { rewrite size_difference by set_solver. by rewrite size_singleton. }
  rewrite Hleft. cbn [fst snd]. split; [by rewrite Hsz|].
  set (room' := ChatRoom.with_users room (ChatRoom.users room ∖ {[sid]})).
  set (st1 := set_conn _ _ _).
  assert (Hr1 : rooms st1 !! roomName = Some room') by (cbn; by rewrite lookup_insert_eq).
  assert (Hc1 : conns st1 !! sid = Some (mkConn (currentUser c) "" (currentMusicRoom c)))
    by (cbn; by rewrite lookup_insert_eq).
  assert (Hout : sid ∉ ChatRoom.users room') by (cbn; set_solver).
  split_and!.
  - by exists room'.
  - intros env' message fileData. rewrite (step_req _ _ _ _ _ Hc1). cbn [handle].
    unfold chat_message. rewrite Hr1. by rewrite bool_decide_eq_false_2.
  - intros env' messageId. rewrite (step_req _ _ _ _ _ Hc1). cbn [handle].
    unfold delete_message. rewrite Hr1. by rewrite bool_decide_eq_false_2.
Qed.

(** The theorem at a concrete input. *)
Lemma left_member_cannot_post_witness :
  let st := run init in_room_A in
  let left := step st (Req "x" (at_time 7) (LeaveRoom "A")) in
  step left.1 (Req "x" (at_time 8) (ChatMessageReq "A" (Some "hello") None)) = (left.1, []).
Proof.
  intros st left.
  destruct (left_member_cannot_post st "x" (mkConn "ann" "A" "") (at_time 7) "A"
              (ChatRoom.mk "A" {["x"]} [] None None "ann" 2)) as (_ & _ & Hpost & _);
    [by vm_compute|by vm_compute|cbn; set_solver|].
  apply Hpost.
Defined.

(** *** Messages and sessions *)

Lemma findIndex_last mid (l : list ChatMessage.t) m :
  (∀ x, x ∈ l → ChatMessage.id x ≠ mid) → ChatMessage.id m = mid →
  findIndex mid (l ++ [m]) = Some (length l, m).
Proof. apply findIndex_first. Qed.

(** X14.  A message can be taken back by its sender at once: sending it and
    deleting it by its id puts the server back where it was, as long as
    the history had room for it and no entry had the same id. *)
Theorem send_then_delete_restores st sid c env env' roomName room message fileData :
  conns st !! sid = Some c →
  rooms st !! roomName = Some room → sid ∈ ChatRoom.users room →
  (length (ChatRoom.messages room) < 100)%nat →
  (∀ m, m ∈ ChatRoom.messages room → ChatMessage.id m ≠ fresh_id env) →
  let sent := step st (Req sid env (ChatMessageReq roomName message fileData)) in
  let deleted := step sent.1 (Req sid env' (DeleteMessage roomName (fresh_id env))) in
  deleted.1 = st
  ∧ Emit sid (DeleteSuccess (fresh_id env)) ∈ deleted.2
  ∧ ToRoom roomName (MessageDeleted (fresh_id env)) ∈ deleted.2.
Proof.
  intros Hc Hr Hin Hlen Hfresh sent deleted.
  set (m := ChatMessage.mk (fresh_id env) (currentUser c) message fileData (now env) false).
  assert (Hsent : sent.1 = set_rooms st (<[roomName := ChatRoom.with_messages room
                                            (ChatRoom.messages room ++ [m])]> (rooms st))).
  { subst sent. rewrite (chat_message_accepted _ _ _ _ _ _ _ _ Hc Hr Hin). cbn [fst].
    fold m. unfold push_trim. rewrite length_app. cbn [length].
    destruct (Nat.ltb_spec 100 (length (ChatRoom.messages room) + 1)); [lia|done]. }
  subst deleted. rewrite Hsent.
  set (room1 := ChatRoom.with_messages room (ChatRoom.messages room ++ [m])).
  set (st1 := set_rooms st _).
  assert (Hr1 : rooms st1 !! roomName = Some room1) by (cbn; by rewrite lookup_insert_eq).
  assert (Hc1 : conns st1 !! sid = Some c) by done.
  rewrite (step_req _ _ _ _ _ Hc1). cbn [handle]. unfold delete_message.
  rewrite Hr1. rewrite (bool_decide_eq_true_2 (sid ∈ ChatRoom.users room1)) by done.
  cbn [negb]. cbn [room1 ChatRoom.with_messages ChatRoom.messages].
  rewrite (findIndex_last _ _ m Hfresh eq_refl).
  rewrite bool_decide_eq_false_2 by (intros ?; done).
  cbn [fst snd]. split_and!.
  - rewrite (delete_middle (ChatRoom.messages room) [] m).
    rewrite app_nil_r. subst st1. unfold set_rooms. cbn. rewrite insert_insert_eq.
    assert (ChatRoom.with_messages room1 (ChatRoom.messages room) = room) as ->
      by (by destruct room).
    rewrite insert_id by done. by destruct st.
  - apply elem_of_app. right. set_solver.
  - apply elem_of_app. right. set_solver.
Qed.

(** The theorem at a concrete input. *)
Lemma send_then_delete_restores_witness :
  let st := run init in_room_A in
  let sent := step st (Req "x" (at_time 7) (ChatMessageReq "A" (Some "oops") None)) in
  (step sent.1 (Req "x" (at_time 8) (DeleteMessage "A" (fresh_id (at_time 7))))).1 = st.
Proof.
  intros st sent.
  apply (send_then_delete_restores st "x" (mkConn "ann" "A" "") (at_time 7) (at_time 8) "A"
           (ChatRoom.mk "A" {["x"]} [] None None "ann" 2) (Some "oops") None);
    [by vm_compute|by vm_compute|cbn; set_solver|cbn; lia|].
  intros m Hm. by apply elem_of_nil in Hm.
Defined.

(** X15.  Deleting is allowed by name alone: an occupant who announces the
    author's name can delete the author's message. *)
Theorem delete_follows_display_name st sid c env env' roomName room l1 m l2 :
  conns st !! sid = Some c →
  rooms st !! roomName = Some room → sid ∈ ChatRoom.users room →
  ChatRoom.messages room = l1 ++ m :: l2 →
  (∀ x, x ∈ l1 → ChatMessage.id x ≠ ChatMessage.id m) →
  let renamed := step st (Req sid env (UserJoin (ChatMessage.username m))) in
  let deleted := step renamed.1 (Req sid env' (DeleteMessage roomName (ChatMessage.id m))) in
  rooms renamed.1 = rooms st
  ∧ (∃ room', rooms deleted.1 !! roomName = Some room'
       ∧ ChatRoom.messages room' = l1 ++ l2)
  ∧ Emit sid (DeleteSuccess (ChatMessage.id m)) ∈ deleted.2.
Proof.
  intros Hc Hr Hin Hms Hl1 renamed deleted.
  assert (Hren : renamed.1 = set_conn st sid (mkConn (ChatMessage.username m)
                                                     (currentRoom c) (currentMusicRoom c))).
  { subst renamed. by rewrite (step_req _ _ _ _ _ Hc). }
  split; [by rewrite Hren|].
  subst deleted. rewrite Hren. set (st1 := set_conn _ _ _).
  assert (Hc1 : conns st1 !! sid = Some (mkConn (ChatMessage.username m)
                                                (currentRoom c) (currentMusicRoom c)))
    by (cbn; by rewrite lookup_insert_eq).
  assert (Hr1 : rooms st1 !! roomName = Some room) by done.
  rewrite (step_req _ _ _ _ _ Hc1). cbn [handle]. unfold delete_message.
  rewrite Hr1, bool_decide_eq_true_2 by done. cbn [negb].
  rewrite Hms, (findIndex_first _ _ _ _ Hl1 eq_refl).
  rewrite bool_decide_eq_false_2 by (intros ?; done). cbn [fst snd]. split.
  - cbn. rewrite lookup_insert_eq. eexists. split; [done|]. cbn. apply delete_middle.
  - apply elem_of_app. right. set_solver.
Qed.

(** The theorem at a concrete input. *)
Lemma delete_follows_display_name_witness :
  let st := run init (two_lines ++ [Req "y" (at_time 7) (JoinRoom "A" None)]) in
  let renamed := step st (Req "y" (at_time 8) (UserJoin "ann")) in
  let deleted := step renamed.1 (Req "y" (at_time 9) (DeleteMessage "A" (fresh_id (at_time 5)))) in
  ∃ room', rooms deleted.1 !! "A" = Some room'
    ∧ ChatRoom.messages room'
      = [ChatMessage.mk (fresh_id (at_time 6)) "ann" (Some "again") None 6 false].
Proof.
  intros st renamed deleted.
  set (m1 := ChatMessage.mk (fresh_id (at_time 5)) "ann" (Some "hello") None 5 false).
  set (m2 := ChatMessage.mk (fresh_id (at_time 6)) "ann" (Some "again") None 6 false).
  destruct (delete_follows_display_name st "y" (mkConn "bob" "A" "") (at_time 8) (at_time 9)
              "A" (ChatRoom.mk "A" {["x"; "y"]} [m1; m2] None None "ann" 2) [] m1 [m2])
    as (_ & (room' & Hr & Hms) & _);
    [by vm_compute|by vm_compute|cbn; set_solver|done
    |by intros x Hx; apply elem_of_nil in Hx|].
  exists room'. split; [exact Hr|exact Hms].
Defined.

(** X16.  When every id in the occupant set of a chat room belongs to a
    live connection whose [currentRoom] names that room, and no chat
    room has the empty name ([tracked]: with a room named [''] the test
    [if (currentRoom)] fails for its occupants), a disconnect leaves the
    connection in no chat room, tells its room, and ends the session:
    nothing it sends afterwards is handled. *)
Theorem disconnect_leaves_every_room st s c env :
  tracked st → conns st !! s = Some c →
  let gone := step st (Req s env Disconnect) in
  (∀ n room, rooms gone.1 !! n = Some room → s ∉ ChatRoom.users room)
  ∧ (∀ room, rooms st !! currentRoom c = Some room → s ∈ ChatRoom.users room →
       ToOthers s (currentRoom c)
         (UserLeftRoom (currentUser c) (size (ChatRoom.users room) - 1)) ∈ gone.2)
  ∧ conns gone.1 !! s = None
  ∧ ∀ env' r, step gone.1 (Req s env' r) = (gone.1, []).
Proof.
  intros [H0 Htr] Hc gone. subst gone. rewrite (step_req _ _ _ _ _ Hc). cbn [handle].
  unfold disconnect.
  pose proof (quit_current_room_lookup (rooms st) s c false) as Hq.
  assert (Hout : ∀ room, rooms st !! currentRoom c = Some room → s ∈ ChatRoom.users room →
            ToOthers s (currentRoom c)
              (UserLeftRoom (currentUser c) (size (ChatRoom.users room) - 1))
            ∈ (quit_current_room (rooms st) s c false).2).
  { intros room Hr Hin. unfold quit_current_room, truthy_str.
    rewrite bool_decide_eq_false_2 by (intros Heq; rewrite Heq in Hr; congruence).
    cbn. rewrite Hr. cbn.
    rewrite size_difference by set_solver. rewrite size_singleton. set_solver. }
  destruct (quit_current_room (rooms st) s c false) as [rs1 out1]. cbn [fst snd] in *.
  destruct (quit_current_music_room (musicRooms st) s c false) as [ms1 out2].
  cbn [fst snd]. split_and!.
  - intros n room'. cbn. rewrite Hq. destruct (decide (_ ∧ _)) as [Hd|Hd].
    + destruct (rooms st !! n) as [room|]; [|done]. cbn. intros [= <-]. cbn. set_solver.
    + intros Hr Hin. destruct (Htr _ _ _ Hr Hin) as (c0 & Hc0 & Hcur).
      assert (c0 = c) as -> by congruence. apply Hd. split; [done|].
      rewrite Hcur. intros ->. congruence.
  - intros room Hr Hin. apply elem_of_app. left. by apply Hout.
  - cbn. by rewrite lookup_delete_eq.
  - intros env' r. cbn. by rewrite lookup_delete_eq.
Qed.

(** The theorem at a concrete input. *)
Lemma disconnect_leaves_every_room_witness :
  let st := run init in_room_A in
  let gone := step st (Req "x" (at_time 9) Disconnect) in
  tracked st
  ∧ conns gone.1 !! "x" = None
  ∧ ∃ room, rooms gone.1 !! "A" = Some room ∧ "x" ∉ ChatRoom.users room.
Proof.
  intros st gone.
  assert (Ht : tracked st).
  { apply (orderly_run_tracked in_room_A init).
    - split; [done|]. intros ???. cbn. by rewrite lookup_empty.
    - cbn. split_and!; done. }
  destruct (disconnect_leaves_every_room st "x" (mkConn "ann" "A" "") (at_time 9) Ht)
    as (Hno & _ & Hconn & _); [by vm_compute|].
  split; [exact Ht|]. split; [exact Hconn|].
  assert (Hr : is_Some (rooms gone.1 !! "A")) by (eexists; vm_compute; reflexivity).
  destruct Hr as [room Hr]. exists room. split; [exact Hr|]. exact (Hno "A" room Hr).
Defined.

(** *** The music room store *)

Lemma music_room_kept_refl room : music_room_kept room room.
Proof. unfold music_room_kept. split_and!; try done. exists []. by rewrite app_nil_r. Qed.

Lemma music_rooms_kept_same st st' :
  musicRooms st' = musicRooms st → musicRoomOrder st' = musicRoomOrder st →
  music_rooms_kept st st'.
Proof.
  intros Hr Ho. split; [done|]. intros n. rewrite Hr.
  destruct (musicRooms st !! n); [apply music_room_kept_refl|done].
Qed.

Lemma music_rooms_kept_insert st st' k room room' :
  musicRooms st !! k = Some room → music_room_kept room room' →
  musicRooms st' = <[k := room']> (musicRooms st) →
  musicRoomOrder st' = musicRoomOrder st →
  music_rooms_kept st st'.
Proof.
  intros Hl Hk Hr Ho. split; [done|]. intros k'. rewrite Hr, lookup_insert.
  destruct (decide (k = k')) as [<-|Hne].
  - by rewrite Hl.
  - destruct (musicRooms st !! k'); [apply music_room_kept_refl|done].
Qed.

Lemma quit_current_music_room_lookup ms sid c b k :
  (quit_current_music_room ms sid c b).1 !! k
  = if decide (k = currentMusicRoom c ∧ currentMusicRoom c ≠ "")
    then (λ r, MusicRoom.with_users r (MusicRoom.users r ∖ {[sid]})) <$> ms !! k
    else ms !! k.
Proof.
  unfold quit_current_music_room, truthy_str.
  case_bool_decide as He; cbn.
  { destruct (decide (_ ∧ _)) as [Hd|Hd]; [by destruct Hd|done]. }
  destruct (ms !! currentMusicRoom c) as [prev|] eqn:Hp; cbn.
  - rewrite lookup_insert.
    destruct (decide (currentMusicRoom c = k)) as [Hn|Hn];
      destruct (decide (_ ∧ _)) as [Hd|Hd].
    + subst. by rewrite Hp.
    + destruct Hd. done.
    + destruct Hd as [-> _]. done.
    + done.
  - destruct (decide (_ ∧ _)) as [Hd|Hd]; [|done]. destruct Hd as [-> _]. by rewrite Hp.
Qed.

Ltac music_same := apply music_rooms_kept_same; reflexivity.

Ltac music_users_only :=
  unfold music_room_kept, transport_ok; cbn; split_and!; try done;
  exists []; by rewrite app_nil_r.

Lemma quit_current_music_room_kept st sid c b k :
  match musicRooms st !! k, (quit_current_music_room (musicRooms st) sid c b).1 !! k with
  | Some room, Some room' =>
      music_room_kept room room' ∧ MusicRoom.messages room' = MusicRoom.messages room
      ∧ MusicRoom.users room' ⊆ MusicRoom.users room
  | None, None => True
  | _, _ => False
  end.
Proof.
  rewrite quit_current_music_room_lookup.
  destruct (decide (_ ∧ _)); destruct (musicRooms st !! k) as [room|]; cbn; try done;
    (split; [music_users_only|split; [done|set_solver]]).
Qed.

Lemma find_elem_of {A} (f : A → bool) l x : List.find f l = Some x → x ∈ l.
Proof. intros H. apply find_some in H as [H _]. by apply list_elem_of_In. Qed.

Lemma step_music_rooms_shape st e :
  music_rooms_kept st (step st e).1 ∨ music_room_added st (step st e).1.
Proof.
  destruct e as [sid|sid env r]; cbn [step].
  { left. destruct (conns st !! sid); music_same. }
  destruct (conns st !! sid) as [c|]; [|left; music_same].
  destruct r; cbn [handle].
  all: try (left; unfold user_join, get_room_list, create_room, join_room, leave_room,
      chat_message, delete_message, get_music_room_list;
    repeat case_match; music_same).
  - (* create music room *)
    unfold create_music_room.
    destruct (musicRooms st !! music_room_id roomName env) as [room|] eqn:Hr;
      [left; music_same|].
    right. eexists _, _. cbn. split_and!; done.
  - (* join music room *)
    left. unfold join_music_room. destruct (musicRooms st !! roomId) as [room|] eqn:Hr;
      [|music_same].
    case_match; [music_same|].
    pose proof (quit_current_music_room_kept st sid c true) as Hq.
    destruct (quit_current_music_room (musicRooms st) sid c true) as [ms1 out1].
    split; [done|]. intros k. cbn. specialize (Hq k). cbn in Hq.
    rewrite lookup_insert. destruct (decide (roomId = k)) as [<-|Hne]; [|
      destruct (musicRooms st !! k), (ms1 !! k); naive_solver].
    rewrite Hr in *. destruct (ms1 !! roomId) as [room1|]; [|done]. cbn.
    destruct Hq as [(?&?&?&?&?&Ht) ?]. unfold music_room_kept. cbn.
    split_and!; try done.
    all: try (intros Hok; apply Ht in Hok; exact Hok).
  - (* leave music room *)
    left. unfold leave_music_room. destruct (musicRooms st !! roomId) as [room|] eqn:Hr;
      [|music_same].
    case_bool_decide; [|music_same].
    eapply music_rooms_kept_insert; [done| |done..]. music_users_only.
  - (* music chat message *)
    left. unfold music_chat_message. destruct (musicRooms st !! roomId) as [room|] eqn:Hr;
      [|music_same].
    case_bool_decide; [|music_same].
    eapply music_rooms_kept_insert; [done| |done..]. music_users_only.
  - (* music voice message *)
    left. unfold music_voice_message. destruct (musicRooms st !! roomId) as [room|] eqn:Hr;
      [|music_same].
    case_bool_decide; [|music_same].
    eapply music_rooms_kept_insert; [done| |done..]. music_users_only.
  - (* music uploaded *)
    left. unfold music_uploaded. destruct (musicRooms st !! roomId) as [room|] eqn:Hr;
      [|music_same].
    case_bool_decide; [|music_same].
    eapply music_rooms_kept_insert; [done| |done..].
    unfold music_room_kept, transport_ok. cbn. split_and!; try done; [by eexists|].
    intros [Ht Hp]. split; [|done]. intros t Hc. apply elem_of_app. left. by apply Ht.
  - (* play track *)
    left. unfold play_track. destruct (musicRooms st !! roomId) as [room|] eqn:Hr;
      [|music_same].
    case_bool_decide; [|music_same].
    destruct (find _ _) as [track|] eqn:Hf; [|music_same].
    eapply music_rooms_kept_insert; [done| |done..].
    unfold music_room_kept, transport_ok. cbn. split_and!; try done.
    { exists []. by rewrite app_nil_r. }
    intros _. split; [|by eauto]. intros t [= <-]. by eapply find_elem_of.
  - (* toggle playback *)
    left. unfold toggle_playback. destruct (musicRooms st !! roomId) as [room|] eqn:Hr;
      [|music_same].
    case_bool_decide; [|music_same].
    eapply music_rooms_kept_insert; [done| |done..].
    unfold music_room_kept, transport_ok. cbn. split_and!; try done.
    { exists []. by rewrite app_nil_r. }
    intros [Ht Hp]. split; [done|].
    destruct (MusicRoom.isPlaying room); cbn; [done|by eauto].
  - (* disconnect *)
    left. unfold disconnect.
    pose proof (quit_current_music_room_kept st sid c false) as Hq.
    destruct (quit_current_room (rooms st) sid c false) as [rs1 out1].
    destruct (quit_current_music_room (musicRooms st) sid c false) as [ms1 out2].
    split; [done|]. intros k. cbn. specialize (Hq k). cbn in Hq.
    destruct (musicRooms st !! k), (ms1 !! k); naive_solver.
Qed.

(** X17.  In every reachable state a music room is stored under its own id,
    its current track, if any, is one of its playlist, and it has a
    start time whenever it is playing. *)
Theorem music_transport_invariant st id room :
  reachable st → musicRooms st !! id = Some room →
  MusicRoom.id room = id
  ∧ (∀ t, MusicRoom.currentTrack room = Some t → t ∈ MusicRoom.playlist room)
  ∧ (MusicRoom.isPlaying room = true → is_Some (MusicRoom.playStartTime room)).
Proof.
  intros Hreach. revert st Hreach id room.
  apply (reachable_ind (λ st, ∀ id room, musicRooms st !! id = Some room →
    MusicRoom.id room = id ∧ transport_ok room)).
  { intros id room. cbn. by rewrite lookup_empty. }
  intros st e _ IH id room' Hr'.
  destruct (step_music_rooms_shape st e)
    as [[_ Hk]|(k & new & Hnone & _ & Hrs & Hid & _ & Hpl & Hct & Hip)].
  - specialize (Hk id). rewrite Hr' in Hk.
    destruct (musicRooms st !! id) as [room|] eqn:Hr; [|done].
    destruct (IH _ _ Hr) as [Hi Hok]. destruct Hk as (Hi' & _ & _ & _ & _ & Ht).
    split; [congruence|by apply Ht].
  - rewrite Hrs, lookup_insert in Hr'. destruct (decide (k = id)) as [<-|Hne].
    + injection Hr' as <-. split; [done|]. split.
      * intros t. by rewrite Hct.
      * by rewrite Hip.
    + by apply IH.
Qed.

(** The theorem at a concrete input. *)
Lemma music_transport_invariant_witness :
  ∃ room, musicRooms (run init same_tick_session) !! jam = Some room
    ∧ MusicRoom.id room = jam.
Proof.
  eexists. split; [vm_compute; reflexivity|].
  eapply (music_transport_invariant (run init same_tick_session) jam);
    [by exists same_tick_session|vm_compute; reflexivity].
Defined.

Lemma step_music_room_kept st e id room :
  musicRooms st !! id = Some room →
  ∃ room', musicRooms (step st e).1 !! id = Some room' ∧ music_room_kept room room'.
Proof.
  intros Hr.
  destruct (step_music_rooms_shape st e) as [[_ Hk]|(k & new & Hnone & _ & Hrs & _)].
  - specialize (Hk id). rewrite Hr in Hk.
    destruct (musicRooms (step st e).1 !! id) as [room'|]; [eauto|done].
  - exists room. rewrite Hrs, lookup_insert_ne by congruence.
    split; [done|apply music_room_kept_refl].
Qed.

(** X18.  A music room is never removed, and nothing is ever taken out of its
    playlist or moved in it: whatever happens, the playlist is the old
    one with tracks added at the end. *)
Theorem playlist_only_grows es : ∀ st id room,
  musicRooms st !! id = Some room →
  ∃ room' added, musicRooms (run st es) !! id = Some room'
    ∧ MusicRoom.playlist room' = MusicRoom.playlist room ++ added
    ∧ MusicRoom.name room' = MusicRoom.name room
    ∧ MusicRoom.maxUsers room' = MusicRoom.maxUsers room
    ∧ MusicRoom.creator room' = MusicRoom.creator room.
Proof.
  induction es as [|e es IH]; intros st id room Hr.
  { exists room, []. by rewrite app_nil_r. }
  rewrite run_cons.
  destruct (step_music_room_kept st e id room Hr)
    as (room1 & Hr1 & _ & Hn & Hm & Hc & [l1 Hp] & _).
  destruct (IH _ _ _ Hr1) as (room' & l2 & Hr' & Hp' & ? & ? & ?).
  exists room', (l1 ++ l2). split; [done|]. rewrite Hp', Hp, app_assoc.
  split_and!; congruence.
Qed.

(** The theorem at a concrete input. *)
Lemma playlist_only_grows_witness :
  ∃ room' (added : list Track.t), musicRooms (run (run init same_tick_session)
                               [Req "x" (at_time 1001) (LeaveMusicRoom jam)]) !! jam
                 = Some room'
    ∧ length (MusicRoom.playlist room') = (1 + length added)%nat.
Proof.
  assert (∃ room, musicRooms (run init same_tick_session) !! jam = Some room
                  ∧ length (MusicRoom.playlist room) = 1%nat) as (room & Hr & Hlen).
  { eexists. split; [vm_compute; reflexivity|reflexivity]. }
  destruct (playlist_only_grows [Req "x" (at_time 1001) (LeaveMusicRoom jam)]
              (run init same_tick_session) jam room Hr) as (room' & added & Hr' & Hp & _).
  exists room', added. split; [exact Hr'|]. by rewrite Hp, length_app, Hlen.
Defined.

(** X19.  What only members of a music room may do: post a chat line or a
    voice message, add a track, start a track, pause and resume.  From
    anybody else the request is dropped: nothing changes and nothing is
    sent, not even an error. *)
Theorem music_requests_need_membership st sid env roomId :
  (∀ room, musicRooms st !! roomId = Some room → sid ∉ MusicRoom.users room) →
  (∀ message user timestamp,
     step st (Req sid env (MusicChatMessageReq roomId message user timestamp)) = (st, []))
  ∧ (∀ user timestamp audioUrl,
       step st (Req sid env (MusicVoiceMessage roomId user timestamp audioUrl)) = (st, []))
  ∧ (∀ musicData, step st (Req sid env (MusicUploaded roomId musicData)) = (st, []))
  ∧ (∀ trackId, step st (Req sid env (PlayTrack roomId trackId)) = (st, []))
  ∧ step st (Req sid env (TogglePlayback roomId)) = (st, []).
Proof.
  intros Hno. cbn [step].
  destruct (conns st !! sid) as [c|]; [|done]. cbn [handle].
  unfold music_chat_message, music_voice_message, music_uploaded, play_track,
    toggle_playback.
  destruct (musicRooms st !! roomId) as [room|] eqn:Hr; [|done].
  rewrite bool_decide_eq_false_2 by (by apply Hno). done.
Qed.

(** The theorem at a concrete input. *)
Lemma music_requests_need_membership_witness :
  let st := run init (same_tick_session ++ [Connect "y"]) in
  step st (Req "y" (at_time 1001) (TogglePlayback jam)) = (st, []).
Proof.
  intros st.
  destruct (music_requests_need_membership st "y" (at_time 1001) jam) as (_ & _ & _ & _ & H);
    [|exact H].
  intros room Hr. vm_compute in Hr. injection Hr as <-.
  apply (bool_decide_unpack _). by vm_compute.
Defined.

(** *** Music room histories and playback *)

Lemma music_voice_message_accepted st sid c env roomId room user timestamp audioUrl :
  conns st !! sid = Some c → musicRooms st !! roomId = Some room →
  sid ∈ MusicRoom.users room →
  step st (Req sid env (MusicVoiceMessage roomId user timestamp audioUrl))
  = let m := voice_entry st roomId (sid, env, user, timestamp, audioUrl) in
    (set_musicRooms st (<[roomId :=
       MusicRoom.with_messages room (MusicRoom.messages room ++ [m])]> (musicRooms st)),
     [ToRoom roomId (MusicChatMessageEv m)]).
Proof.
  intros Hc Hr Hin. rewrite (step_req _ _ _ _ _ Hc). cbn [handle].
  unfold music_voice_message. rewrite Hr, bool_decide_eq_true_2 by done.
  cbn. by rewrite Hc.
Qed.

Lemma run_voices st roomId room (voices : list Voice) :
  musicRooms st !! roomId = Some room →
  (∀ v, v ∈ voices →
        is_Some (conns st !! voice_sender v) ∧ voice_sender v ∈ MusicRoom.users room) →
  run st (voice_event roomId <$> voices)
  = set_musicRooms st (<[roomId := MusicRoom.with_messages room
       (MusicRoom.messages room ++ (voice_entry st roomId <$> voices))]> (musicRooms st)).
Proof.
  revert st room. induction voices as [|v voices IH]; intros st room Hr Hs.
  - cbn. rewrite app_nil_r. destruct st, room; cbn in *. unfold set_musicRooms. cbn.
    f_equal. symmetry. by apply insert_id.
  - destruct (Hs v) as [[c Hc] Hin]; [left|].
    destruct v as [[[[sid env] user] timestamp] audioUrl].
    unfold voice_sender in Hc, Hin. cbn [fst] in Hc, Hin.
    rewrite fmap_cons, run_cons. cbn [voice_event].
    rewrite (music_voice_message_accepted _ _ _ _ _ _ _ _ _ Hc Hr Hin). cbn [fst].
    set (m := voice_entry st roomId (sid, env, user, timestamp, audioUrl)).
    rewrite (IH _ (MusicRoom.with_messages room (MusicRoom.messages room ++ [m]))).
    + unfold set_musicRooms. cbn. rewrite insert_insert_eq.
      by rewrite <- app_assoc.
    + cbn. by rewrite lookup_insert_eq.
    + cbn. intros v' Hv'. apply Hs. by right.
Qed.

(** X20.  Voice messages are kept without limit: after any number of accepted
    ones the history of a music room is the old one followed by all of
    them.  The next chat line cuts it back to its last 100 entries. *)
Theorem music_history_unbounded st roomId room (voices : list Voice) :
  musicRooms st !! roomId = Some room →
  (∀ v, v ∈ voices →
        is_Some (conns st !! voice_sender v) ∧ voice_sender v ∈ MusicRoom.users room) →
  let st' := run st (voice_event roomId <$> voices) in
  ∃ room', musicRooms st' !! roomId = Some room'
    ∧ MusicRoom.messages room'
      = MusicRoom.messages room ++ (voice_entry st roomId <$> voices)
    ∧ length (MusicRoom.messages room')
      = (length (MusicRoom.messages room) + length voices)%nat
    ∧ ∀ sid c env message user timestamp,
        conns st' !! sid = Some c → sid ∈ MusicRoom.users room →
        ∃ room'' m,
          musicRooms (step st' (Req sid env
                        (MusicChatMessageReq roomId message user timestamp))).1 !! roomId
          = Some room''
          ∧ MusicRoom.messages room'' = last_n 100 (MusicRoom.messages room' ++ [m])
          ∧ (length (MusicRoom.messages room'') ≤ 100)%nat.
Proof.
  intros Hr Hs st'. subst st'. rewrite (run_voices _ _ _ _ Hr Hs).
  set (room' := MusicRoom.with_messages room _).
  set (st' := set_musicRooms st _).
  assert (Hr' : musicRooms st' !! roomId = Some room') by (cbn; by rewrite lookup_insert_eq).
  exists room'. split; [done|]. split; [done|]. split.
  { cbn. by rewrite length_app, length_fmap. }
  intros sid c env message user timestamp Hc Hin.
  rewrite (step_req _ _ _ _ _ Hc). cbn [handle]. unfold music_chat_message.
  rewrite Hr'. rewrite (bool_decide_eq_true_2 (sid ∈ MusicRoom.users room')) by done.
  cbn [fst]. eexists _, _. split; [cbn; by rewrite lookup_insert_eq|].
  cbn [MusicRoom.messages MusicRoom.with_messages]. rewrite push_trim_last_n.
  split; [done|]. rewrite length_last_n. lia.
Qed.

(** The theorem at a concrete input. *)
Lemma music_history_unbounded_witness :
  let st := run init same_tick_session in
  let voices : list Voice := [("x", at_time 1001, None, None, Some "/uploads/v1.webm");
                              ("x", at_time 1002, None, None, Some "/uploads/v2.webm")] in
  ∃ room', musicRooms (run st (voice_event jam <$> voices)) !! jam = Some room'
    ∧ length (MusicRoom.messages room') = 3%nat.
Proof.
  intros st voices.
  assert (∃ room, musicRooms st !! jam = Some room ∧ MusicRoom.users room = {["x"]}
                  ∧ length (MusicRoom.messages room) = 1%nat) as (room & Hr & Hu & Hlen).
  { eexists. split; [vm_compute; reflexivity|]. split; [by vm_compute|reflexivity]. }
  destruct (music_history_unbounded st jam room voices Hr) as (room' & Hr' & _ & Hl & _).
  - intros v Hv. assert (voice_sender v = "x") as ->.
    { repeat (apply elem_of_cons in Hv as [->|Hv]; [done|]). by apply elem_of_nil in Hv. }
    split; [eexists; vm_compute; reflexivity|]. rewrite Hu. set_solver.
  - exists room'. split; [exact Hr'|]. rewrite Hl, Hlen. reflexivity.
Defined.



(** *** Joining and naming music rooms *)

(** X22.  ['join music room'] is refused, with one error to the requester and
    nothing changed, exactly when there is no room with the id, or the
    room already has [maxUsers] occupants.  Otherwise the requester is
    put in the room, its [currentMusicRoom] names it and its
    [currentRoom] is untouched, and it is sent the room's playlist,
    current track and playing flag. *)
Theorem join_music_room_rejected_exactly st sid c env roomId :
  conns st !! sid = Some c →
  let res := step st (Req sid env (JoinMusicRoom roomId)) in
  (∀ e, res = (st, [Emit sid (MusicRoomJoinError e)]) ↔
        (musicRooms st !! roomId = None ∧ e = RoomNotFound)
        ∨ ∃ room, musicRooms st !! roomId = Some room
            ∧ (MusicRoom.maxUsers room <= users_count (MusicRoom.users room))%Q
            ∧ e = RoomFull (MusicRoom.maxUsers room))
  ∧ (∀ room, musicRooms st !! roomId = Some room →
       (users_count (MusicRoom.users room) < MusicRoom.maxUsers room)%Q →
       ∃ room', musicRooms res.1 !! roomId = Some room'
         ∧ sid ∈ MusicRoom.users room'
         ∧ conns res.1 !! sid = Some (mkConn (currentUser c) (currentRoom c) roomId)
         ∧ rooms res.1 = rooms st
         ∧ Emit sid (MusicRoomJoinSuccess roomId (MusicRoom.name room)
                       (size (MusicRoom.users room')) (MusicRoom.maxUsers room)
                       (MusicRoom.currentTrack room) (MusicRoom.isPlaying room)
                       (MusicRoom.playlist room)) ∈ res.2).
Proof.
  intros Hc res. subst res. rewrite (step_req _ _ _ _ _ Hc). cbn [handle].
  unfold join_music_room.
  destruct (musicRooms st !! roomId) as [room|] eqn:Hr.
  2:{ split.
      - intros e. split.
        + intros [= <-]. by left.
        + intros [[_ ->]|(? & ? & _)]; done.
      - intros ? ?. done. }
  destruct (Qle_bool_spec (MusicRoom.maxUsers room) (users_count (MusicRoom.users room)))
    as [Hfull|Hfree].
  { split.
    - intros e. split.
      + intros [= <-]. right. eauto.
      + intros [[? _]|(r & [= <-] & _ & ->)]; done.
    - intros r [= <-] ?. lra. }
  pose proof (quit_current_music_room_lookup (musicRooms st) sid c true roomId) as Hq.
  rewrite Hr in Hq.
  assert (Hnoerr : ∀ o, o ∈ (quit_current_music_room (musicRooms st) sid c true).2 →
                        ∀ e, o ≠ Emit sid (MusicRoomJoinError e)).
  { intros o. unfold quit_current_music_room.
    destruct (truthy_str (currentMusicRoom c)); [|by intros ?%elem_of_nil].
    destruct (musicRooms st !! currentMusicRoom c); [|by intros ?%elem_of_nil].
    cbn. intros Hin e. repeat (apply elem_of_cons in Hin as [->|Hin]; [done|]).
    by apply elem_of_nil in Hin. }
  destruct (quit_current_music_room (musicRooms st) sid c true) as [ms1 out1].
  cbn [fst snd] in *.
  assert (∃ room1, ms1 !! roomId = Some room1
            ∧ MusicRoom.name room1 = MusicRoom.name room
            ∧ MusicRoom.maxUsers room1 = MusicRoom.maxUsers room
            ∧ MusicRoom.currentTrack room1 = MusicRoom.currentTrack room
            ∧ MusicRoom.isPlaying room1 = MusicRoom.isPlaying room
            ∧ MusicRoom.playlist room1 = MusicRoom.playlist room)
    as (room1 & Hr1 & Hn & Hm & Hct & Hip & Hpl).
  { rewrite Hq. destruct (decide (_ ∧ _)); cbn; eauto 10. }
  rewrite Hr1. cbn [default]. split.
  - intros e. split; [|intros [[? _]|(r & [= <-] & ? & _)]; [done|lra]].
    intros [= _ Hout]. exfalso.
    destruct out1 as [|o out1]; [discriminate|].
    injection Hout as -> Hrest. by destruct (Hnoerr _ ltac:(by left) e).
  - intros r [= <-] _. eexists. split; [cbn; by rewrite lookup_insert_eq|].
    split; [cbn; set_solver|]. split; [cbn; by rewrite lookup_insert_eq|].
    split; [done|]. apply elem_of_app. right. apply elem_of_app. left.
    cbn [MusicRoom.with_users MusicRoom.name MusicRoom.maxUsers MusicRoom.currentTrack
         MusicRoom.isPlaying MusicRoom.playlist MusicRoom.users].
    unfold id. rewrite Hn, Hm, Hct, Hip, Hpl. set_solver.
Qed.

(** The theorem at a concrete input. *)
Lemma join_music_room_rejected_exactly_witness :
  let st := run init (same_tick_session ++ [Connect "y"]) in
  step st (Req "y" (at_time 1001) (JoinMusicRoom "nowhere"))
  = (st, [Emit "y" (MusicRoomJoinError RoomNotFound)]).
Proof.
  intros st.
  destruct (join_music_room_rejected_exactly st "y" (mkConn "" "" "") (at_time 1001) "nowhere")
    as [Hiff _]; [by vm_compute|].
  apply Hiff. left. split; [by vm_compute|done].
Defined.

(** X23.  Chat rooms and music rooms do not touch each other: a chat room
    request leaves the music rooms and every connection's
    [currentMusicRoom] as they were, and a music room request does the
    same for the chat rooms and [currentRoom]. *)
Theorem chat_and_music_are_separate st sid env r :
  (chat_request r = true →
     musicRooms (step st (Req sid env r)).1 = musicRooms st
     ∧ musicRoomOrder (step st (Req sid env r)).1 = musicRoomOrder st
     ∧ ∀ s, currentMusicRoom <$> conns (step st (Req sid env r)).1 !! s
            = currentMusicRoom <$> conns st !! s)
  ∧ (music_request r = true →
     rooms (step st (Req sid env r)).1 = rooms st
     ∧ roomOrder (step st (Req sid env r)).1 = roomOrder st
     ∧ ∀ s, currentRoom <$> conns (step st (Req sid env r)).1 !! s
            = currentRoom <$> conns st !! s).
Proof.
  cbn [step]. destruct (conns st !! sid) as [c|] eqn:Hc; [|done].
  assert (Hconn : ∀ (f : Conn → string) st' c',
            conns st' = <[sid := c']> (conns st) → f c' = f c →
            ∀ s, f <$> conns st' !! s = f <$> conns st !! s).
  { intros f st' c' -> Hf s. rewrite lookup_insert. destruct (decide (sid = s)) as [<-|];
      [by rewrite Hc; cbn; rewrite Hf|done]. }
  split; intros Hreq; destruct r; try discriminate; cbn [handle].
  - done.
  - unfold create_room. by case_match.
  - unfold join_room. repeat case_match; try done.
    split; [done|]. split; [done|]. by eapply Hconn.
  - unfold leave_room. repeat case_match; simplify_eq; (split; [done|]; split; [done|]);
      by eapply Hconn.
  - unfold chat_message. by repeat case_match.
  - unfold delete_message. by repeat case_match.
  - done.
  - unfold create_music_room. by case_match.
  - unfold join_music_room. repeat case_match; try done.
    split; [done|]. split; [done|]. by eapply Hconn.
  - unfold leave_music_room. repeat case_match; simplify_eq; (split; [done|]; split; [done|]);
      by eapply Hconn.
  - unfold music_chat_message. by repeat case_match.
  - unfold music_voice_message. by repeat case_match.
  - unfold music_uploaded. by repeat case_match.
  - unfold play_track. by repeat case_match.
  - unfold toggle_playback. by repeat case_match.
Qed.

(** The theorem at a concrete input. *)
Lemma chat_and_music_are_separate_witness :
  let st := run init in_room_A in
  rooms (step st (Req "x" (at_time 9) (LeaveMusicRoom "A"))).1 = rooms st
  ∧ (currentRoom <$> conns (step st (Req "x" (at_time 9) (LeaveMusicRoom "A"))).1 !! "x")
    = Some "A".
Proof.
  intros st.
  destruct (chat_and_music_are_separate st "x" (at_time 9) (LeaveMusicRoom "A"))
    as [_ Hmusic].
  destruct (Hmusic eq_refl) as (Hrooms & _ & Hcur).
  split; [exact Hrooms|]. rewrite Hcur. by vm_compute.
Defined.

(** X24.  Two music rooms may bear the same name: created at two different
    clock readings they get two ids and are both stored.  A second
    request with the same name at the same reading is refused. *)
Theorem music_rooms_may_share_a_name st sid c sid' c' env env' roomName d m g d' m' g' :
  conns st !! sid = Some c → conns st !! sid' = Some c' →
  musicRooms st !! music_room_id roomName env = None →
  musicRooms st !! music_room_id roomName env' = None →
  let first := step st (Req sid env (CreateMusicRoom roomName d m g)) in
  let second := step first.1 (Req sid' env' (CreateMusicRoom roomName d' m' g')) in
  (now env ≠ now env' →
     music_room_id roomName env ≠ music_room_id roomName env'
     ∧ ∃ room room', musicRooms second.1 !! music_room_id roomName env = Some room
         ∧ musicRooms second.1 !! music_room_id roomName env' = Some room'
         ∧ MusicRoom.name room = roomName ∧ MusicRoom.name room' = roomName)
  ∧ (now env = now env' →
     second = (first.1, [Emit sid' (MusicRoomJoinError RoomAlreadyExists)])).
Proof.
  intros Hc Hc' Hn Hn' first second.
  assert (∃ room, first.1 = mkServer (rooms st) (roomOrder st)
                    (<[music_room_id roomName env := room]> (musicRooms st))
                    (musicRoomOrder st ++ [music_room_id roomName env]) (conns st)
                  ∧ MusicRoom.name room = roomName) as (room & Hfirst & Hname).
  { subst first. rewrite (step_req _ _ _ _ _ Hc). cbn [handle]. unfold create_music_room.
    rewrite Hn. cbn [fst]. eexists. split; [done|]. done. }
  assert (Hc1 : conns first.1 !! sid' = Some c') by (by rewrite Hfirst).
  subst second. rewrite (step_req _ _ _ _ _ Hc1). cbn [handle]. unfold create_music_room.
  split.
  - intros Hne.
    assert (music_room_id roomName env ≠ music_room_id roomName env') as Hid.
    { intros Heq. by apply music_room_id_time in Heq. }
    split; [done|]. rewrite Hfirst. cbn [musicRooms].
    rewrite lookup_insert_ne, Hn' by done. cbn.
    rewrite lookup_insert_eq, lookup_insert_ne, lookup_insert_eq by done.
    eexists _, _. split_and!; done.
  - intros Heq. assert (music_room_id roomName env' = music_room_id roomName env) as ->.
    { symmetry. by apply music_room_id_time. }
    rewrite Hfirst at 1. cbn [musicRooms]. by rewrite lookup_insert_eq.
Qed.

(** The theorem at a concrete input. *)
Lemma music_rooms_may_share_a_name_witness :
  let first := step (run init [Connect "x"])
                 (Req "x" (at_time 1000) (CreateMusicRoom "Jam" None None None)) in
  let second := step first.1 (Req "x" (at_time 2000) (CreateMusicRoom "Jam" None None None)) in
  ∃ room room', musicRooms second.1 !! music_room_id "Jam" (at_time 1000) = Some room
    ∧ musicRooms second.1 !! music_room_id "Jam" (at_time 2000) = Some room'
    ∧ MusicRoom.name room = "Jam" ∧ MusicRoom.name room' = "Jam".
Proof.
  intros first second.
  destruct (music_rooms_may_share_a_name (run init [Connect "x"]) "x" (mkConn "" "" "")
              "x" (mkConn "" "" "") (at_time 1000) (at_time 2000) "Jam"
              None None None None None None) as [Hdiff _]; [by vm_compute..|].
  destruct (Hdiff ltac:(cbn; lia)) as (_ & room & room' & H). exists room, room'. exact H.
Defined.

Lemma stranded_in_music_room s id es : ∀ st room,
  conns st !! s = None → musicRooms st !! id = Some room → s ∈ MusicRoom.users room →
  Connect s ∉ es →
  ∃ room', musicRooms (run st es) !! id = Some room' ∧ s ∈ MusicRoom.users room'.
Proof.
  induction es as [|e es IH]; intros st room Hc Hr Hin Hno; [by exists room|].
  rewrite run_cons.
  destruct (decide (origin e = s)) as [He|He].
  - destruct e as [sid|sid env r]; cbn in He; subst sid.
    { destruct Hno. by left. }
    cbn [step]. rewrite Hc. cbn [fst]. apply (IH st room); try done.
    intros ?. apply Hno. by right.
  - destruct (step_music_room_kept st e id room Hr) as (room' & Hr' & _).
    pose proof (step_music_room_evolves _ _ _ _ Hr') as Hev. rewrite Hr in Hev.
    destruct Hev as (_ & Hkeep & _).
    apply (IH _ room'); try done.
    + by rewrite step_conns_other.
    + set_solver.
    + intros ?. apply Hno. by right.
Qed.

Lemma quit_current_music_room_none ms sid c b :
  currentMusicRoom c = "" → quit_current_music_room ms sid c b = (ms, []).
Proof. intros H. unfold quit_current_music_room. by rewrite H. Qed.

Lemma quit_current_room_payload rs sid c b o u n :
  o ∈ (quit_current_room rs sid c b).2 → payload_of o ≠ Some (MusicRoomUserLeft u n).
Proof.
  unfold quit_current_room.
  destruct (truthy_str (currentRoom c)); [|by intros ?%elem_of_nil].
  destruct (rs !! currentRoom c); [|by intros ?%elem_of_nil].
  destruct b; cbn; intros Hin;
    repeat (apply elem_of_cons in Hin as [->|Hin]; [done|]);
    by apply elem_of_nil in Hin.
Qed.

(** X25.  ['leave music room'] empties [currentMusicRoom] whatever id it is
    given.  A member of room [A] that asks to leave another id [B] stays
    in [A]'s set with no reference to it; its disconnect then changes no
    music room and sends no ['music room user left'], and the id stays
    in [A]'s set for good, counted against [A]'s capacity. *)
Theorem leave_other_music_room_strands_occupant st s c env A B roomA :
  conns st !! s = Some c →
  musicRooms st !! A = Some roomA → s ∈ MusicRoom.users roomA →
  B ≠ A →
  let st1 := (step st (Req s env (LeaveMusicRoom B))).1 in
  musicRooms st1 !! A = Some roomA
  ∧ (currentMusicRoom <$> conns st1 !! s) = Some ""
  ∧ ∀ env2,
      let res2 := step st1 (Req s env2 Disconnect) in
      musicRooms res2.1 = musicRooms st1
      ∧ (∀ o u n, o ∈ res2.2 → payload_of o ≠ Some (MusicRoomUserLeft u n))
      ∧ ∀ es, Connect s ∉ es →
          ∃ roomA', musicRooms (run res2.1 es) !! A = Some roomA'
                    ∧ s ∈ MusicRoom.users roomA'.
Proof.
  intros Hc Hr Hin Hne st1.
  assert (Hst1 : musicRooms st1 !! A = Some roomA
                 ∧ conns st1 !! s = Some (mkConn (currentUser c) (currentRoom c) "")).
  { subst st1. rewrite (step_req _ _ _ _ _ Hc). cbn [handle]. unfold leave_music_room.
    destruct (musicRooms st !! B) as [roomB|] eqn:HB; [case_bool_decide|]; cbn;
      rewrite ?lookup_insert_eq, ?lookup_insert_ne by done; done. }
  destruct Hst1 as [Hr1 Hc1]. split; [done|]. split; [by rewrite Hc1|].
  intros env2 res2.
  assert (Hres2 : musicRooms res2.1 = musicRooms st1
                  ∧ (∀ o u n, o ∈ res2.2 → payload_of o ≠ Some (MusicRoomUserLeft u n))
                  ∧ conns res2.1 !! s = None).
  { subst res2. rewrite (step_req _ _ _ _ _ Hc1). cbn [handle]. unfold disconnect.
    rewrite (quit_current_music_room_none (musicRooms st1)) by done.
    pose proof (quit_current_room_payload (rooms st1) s
                  (mkConn (currentUser c) (currentRoom c) "") false) as Hq.
    destruct (quit_current_room _ _ _ _) as [rs1 out1].
    cbn. split; [done|]. split; [|by rewrite lookup_delete_eq].
    intros o u n Ho. rewrite app_nil_r in Ho. by apply Hq. }
  destruct Hres2 as (Hms & Hout & Hgone). split_and!; try done.
  intros es Hes. apply (stranded_in_music_room s A es res2.1 roomA); try done.
  by rewrite Hms.
Qed.

(** The theorem at a concrete input. *)
Lemma leave_other_music_room_strands_occupant_witness :
  let st := run init same_tick_session in
  let st1 := (step st (Req "x" (at_time 1001) (LeaveMusicRoom "elsewhere"))).1 in
  let res2 := step st1 (Req "x" (at_time 1002) Disconnect) in
  ∃ roomA', musicRooms (run res2.1 [Connect "y"]) !! jam = Some roomA'
            ∧ "x" ∈ MusicRoom.users roomA'.
Proof.
  intros st st1 res2.
  assert (∃ room, musicRooms st !! jam = Some room ∧ MusicRoom.users room = {["x"]})
    as (room & Hr & Hu).
  { eexists. split; [vm_compute; reflexivity|by vm_compute]. }
  destruct (leave_other_music_room_strands_occupant st "x" (mkConn "" "" jam) (at_time 1001)
              jam "elsewhere" room) as (_ & _ & Hdisc);
    [by vm_compute|exact Hr|rewrite Hu; set_solver|by vm_compute|].
  destruct (Hdisc (at_time 1002)) as (_ & _ & Hstays).
  apply Hstays. intros Hin.
  repeat (apply elem_of_cons in Hin as [Hin|Hin]; [discriminate|]).
  by apply elem_of_nil in Hin.
Defined.
